(** * DanielsNumber1: entry signals of the Wyckoff-enhanced breakout strategy

    A shallow embedding of [user_data/strategies/DanielsNumber1.py].

    - A pandas [float64] cell is a finite double, given as the rational it
      denotes, or [NaN]; every arithmetic operation rounds its exact result
      to the nearest double, ties to even ([b64]), and a float literal of the
      source stands for the double nearest to it.  Infinities are outside
      the model: the exponent is not bounded above and a quotient by zero is
      undefined.  Every comparison with [NaN] is [False], as in pandas.
    - A pandas [Series] is a list of cells, a [DataFrame] a finite map from
      column names to columns.  A missing column ([KeyError]) or a column of
      the wrong dtype makes the strategy method fail, which is [None] in
      the option monad.
    - The three TA-Lib functions the strategy calls ([EMA], [SMA], [ATR])
      are written out after TA-Lib's C implementation in [Module TA], with
      the operations in the order of the C code.  The rolling mean of pandas
      is the rounded sum of the window, from left to right, divided by its
      length; pandas keeps a compensated running sum, so the last bit of a
      mean may differ, and no statement below depends on it.
    - The host passes frames with at least one row; on a frame without rows
      pandas refuses [loc] with a scalar where the model creates an empty
      column. *)

From Stdlib Require Import ZArith QArith Qpower Qminmax Qabs Lqa Lia.
From stdpp Require Import base option list gmap strings.

Set Default Proof Using "Type".

(** ** binary64

    pandas, NumPy and TA-Lib compute in IEEE 754 binary64 with rounding to
    nearest, ties to even.  A finite double is a rational; [b64 x] is the
    double nearest to the rational [x]: 53 significant bits, with the
    exponent bounded below (gradual underflow to multiples of 2^-1074).  The
    exponent is not bounded above: the model has no infinities, prices and
    volumes being far from 2^1024. *)

(** [rne p q]: the integer nearest to [p / q] ([0 < q]), ties to even. *)
Definition rne (p q : Z) : Z :=
  let f := (p / q)%Z in
  match (2 * (p mod q) ?= q)%Z with
  | Lt => f
  | Gt => (f + 1)%Z
  | Eq => if Z.even f then f else (f + 1)%Z
  end.

Definition rneQ (m : Q) : Z := rne (Qnum m) (Zpos (Qden m)).

(** [ilog2 x]: the exponent [k] with [2^k <= x < 2^(k+1)], for [0 < x]. *)
Definition ilog2 (x : Q) : Z :=
  let k := (Z.log2 (Qnum x) - Z.log2 (Zpos (Qden x)))%Z in
  if Qle_bool (2 ^ k) x then k else (k - 1)%Z.

(** The exponent of the last bit of the double nearest to [x]. *)
Definition ulp_exp (x : Q) : Z := Z.max (ilog2 x - 52) (-1074).

Definition b64_pos (x : Q) : Q :=
  let e := ulp_exp x in
  Qred (inject_Z (rneQ (x * 2 ^ (- e))) * 2 ^ e).

Definition b64 (x : Q) : Q :=
  match Qnum x with
  | Z0 => 0
  | Zpos _ => b64_pos x
  | Zneg _ => Qred (- b64_pos (- x))
  end.

Arguments b64 : simpl never.

(** ** Cells: float64 with NaN *)

Abbreviation float64 := (option Q).
Abbreviation NaN := (@None Q).

Definition Qltb (x y : Q) : bool := negb (Qle_bool y x).

Definition lift2 (f : Q → Q → Q) (a b : float64) : float64 :=
  match a, b with
  | Some x, Some y => Some (b64 (f x y))
  | _, _ => None
  end.

Definition fadd : float64 → float64 → float64 := lift2 Qplus.
Definition fsub : float64 → float64 → float64 := lift2 Qminus.
Definition fmul : float64 → float64 → float64 := lift2 Qmult.

(** The model has no infinities: a quotient by zero is undefined. *)
Definition fdiv (a b : float64) : float64 :=
  match a, b with
  | Some x, Some y => if Qeq_bool y 0 then None else Some (b64 (x / y))
  | _, _ => None
  end.

Definition fabs (a : float64) : float64 := Qabs <$> a.

Definition fgt (a b : float64) : bool :=
  match a, b with
  | Some x, Some y => Qltb y x
  | _, _ => false
  end.

Definition flt (a b : float64) : bool := fgt b a.

Definition of_nat (n : nat) : float64 := Some (inject_Z (Z.of_nat n)).

(** ** Series *)

Abbreviation fseries := (list float64).
Abbreviation bseries := (list bool).

Definition s_gt (a b : fseries) : bseries := zip_with fgt a b.
Definition s_lt (a b : fseries) : bseries := zip_with flt a b.
Definition s_sub (a b : fseries) : fseries := zip_with fsub a b.
Definition s_div (a b : fseries) : fseries := zip_with fdiv a b.
Definition s_and (a b : bseries) : bseries := zip_with andb a b.
Definition s_or (a b : bseries) : bseries := zip_with orb a b.
Definition s_not (a : bseries) : bseries := negb <$> a.
Definition s_mul_c (a : fseries) (c : Q) : fseries := (λ x, fmul x (Some c)) <$> a.
Definition s_gt_c (a : fseries) (c : Q) : bseries := (λ x, fgt x (Some c)) <$> a.

(** [Series.replace(old, new)] on a float series. *)
Definition replace_cell (old new : Q) (x : float64) : float64 :=
  match x with
  | Some q => if Qeq_bool q old then Some new else Some q
  | None => None
  end.
Definition replace (a : fseries) (old new : Q) : fseries := replace_cell old new <$> a.

(** [Series.shift(k)]: the first [k] cells become [NaN], the last [k] are
    dropped. *)
Definition shift (k : nat) (s : fseries) : fseries :=
  take (length s) (replicate k NaN ++ s).

(** A boolean series fed to a rolling window is cast to 0.0 / 1.0. *)
Definition astype_float (b : bseries) : fseries :=
  (λ x : bool, Some (if x then 1%Q else 0%Q)) <$> b.

(** The [w] cells ending at index [i]. *)
Definition trailing {A} (s : list A) (i w : nat) : list A :=
  take w (drop (S i - w) s).

(** [Series.rolling(w)]: with the default [min_periods = w] the result at
    [i] is [NaN] unless the window is full and holds no [NaN]. *)
Definition window (w : nat) (s : fseries) (i : nat) : option (list Q) :=
  if S i <? w then None else mapM id (trailing s i w).

Definition rolling (w : nat) (agg : list Q → float64) (s : fseries) : fseries :=
  (λ i, window w s i ≫= agg) <$> seq 0 (length s).

Definition qmax_list (l : list Q) : float64 :=
  match l with
  | [] => None
  | x :: l' => Some (foldl Qmax x l')
  end.

Definition qmin_list (l : list Q) : float64 :=
  match l with
  | [] => None
  | x :: l' => Some (foldl Qmin x l')
  end.

Definition fsum (l : list float64) : float64 := foldl fadd (Some 0%Q) l.

Definition qmean (l : list Q) : float64 :=
  fdiv (fsum (Some <$> l)) (of_nat (length l)).

Definition rolling_max (w : nat) : fseries → fseries := rolling w qmax_list.
Definition rolling_min (w : nat) : fseries → fseries := rolling w qmin_list.
Definition rolling_mean (w : nat) : fseries → fseries := rolling w qmean.

(** ** TA-Lib

    [talib.abstract] reads the price columns of the frame and hands them to
    the C routines.  The Python wrapper skips the leading [NaN] cells of its
    inputs ([check_begidx]) and pads the output with [NaN] for them and for
    the routine's lookback.  The routines themselves are one pass from left
    to right: [TA_EMA] seeds with the plain mean of the first [timeperiod]
    prices, [TA_SMA] keeps a running total, [TA_ATR] seeds with the mean of
    the first [timeperiod] true ranges and continues with Wilder's
    smoothing. *)
Module TA.

Fixpoint begidx (s : fseries) : nat :=
  match s with
  | None :: s' => S (begidx s')
  | _ => 0
  end.

Fixpoint ema_run (k prevMA : float64) (xs : fseries) : fseries :=
  match xs with
  | [] => []
  | x :: xs' =>
      let prevMA := fadd (fmul (fsub x prevMA) k) prevMA in
      prevMA :: ema_run k prevMA xs'
  end.

Definition EMA_core (n : nat) (real : fseries) : fseries :=
  if length real <? n then replicate (length real) NaN
  else
    let k := fdiv (Some 2%Q) (of_nat (n + 1)) in
    let prevMA := fdiv (fsum (take n real)) (of_nat n) in
    replicate (n - 1) NaN ++ prevMA :: ema_run k prevMA (drop n real).

Definition EMA (real : fseries) (timeperiod : nat) : fseries :=
  let b := begidx real in
  replicate b NaN ++ EMA_core timeperiod (drop b real).

Fixpoint sma_run (n periodTotal : float64) (trailing xs : fseries) : fseries :=
  match xs, trailing with
  | x :: xs', t :: trailing' =>
      let tempReal := fadd periodTotal x in
      fdiv tempReal n :: sma_run n (fsub tempReal t) trailing' xs'
  | _, _ => []
  end.

Definition SMA_core (n : nat) (real : fseries) : fseries :=
  if length real <? n then replicate (length real) NaN
  else
    replicate (n - 1) NaN ++
    sma_run (of_nat n) (fsum (take (n - 1) real)) real (drop (n - 1) real).

Definition SMA (real : fseries) (timeperiod : nat) : fseries :=
  let b := begidx real in
  replicate b NaN ++ SMA_core timeperiod (drop b real).

(** [TA_TRANGE] for one candle: today's high and low, yesterday's close. *)
Definition true_range (tempHT tempLT tempCY : float64) : float64 :=
  let greatest := fsub tempHT tempLT in
  let val2 := fabs (fsub tempCY tempHT) in
  let greatest := if fgt val2 greatest then val2 else greatest in
  let val3 := fabs (fsub tempCY tempLT) in
  if fgt val3 greatest then val3 else greatest.

(** [trange hs ls cs]: [hs] and [ls] start at today, [cs] at yesterday. *)
Fixpoint trange (hs ls cs : fseries) : fseries :=
  match hs, ls, cs with
  | h :: hs', l :: ls', c :: cs' => true_range h l c :: trange hs' ls' cs'
  | _, _, _ => []
  end.

Fixpoint atr_run (n prevATR : float64) (trs : fseries) : fseries :=
  match trs with
  | [] => []
  | tr :: trs' =>
      let prevATR := fdiv (fadd (fmul prevATR (fsub n (Some 1%Q))) tr) n in
      prevATR :: atr_run n prevATR trs'
  end.

Definition ATR_core (n : nat) (high low close : fseries) : fseries :=
  if length close <=? n then replicate (length close) NaN
  else
    let tempBuffer := trange (tail high) (tail low) close in
    let prevATR := fdiv (fsum (take n tempBuffer)) (of_nat n) in
    replicate n NaN ++ prevATR :: atr_run (of_nat n) prevATR (drop n tempBuffer).

(** A row is usable once all three prices are present. *)
Fixpoint begidx3 (high low close : fseries) : nat :=
  match high, low, close with
  | Some _ :: _, Some _ :: _, Some _ :: _ => 0
  | _ :: high', _ :: low', _ :: close' => S (begidx3 high' low' close')
  | _, _, _ => 0
  end.

Definition ATR (high low close : fseries) (timeperiod : nat) : fseries :=
  let b := begidx3 high low close in
  replicate b NaN ++ ATR_core timeperiod (drop b high) (drop b low) (drop b close).

End TA.

(** ** DataFrames *)

Inductive column : Type :=
  | ColFloat (xs : fseries)              (* float64 *)
  | ColBool (bs : bseries)               (* bool *)
  | ColObject (os : list (option bool))  (* object: booleans, some missing *)
  | ColDate (ts : list Z).               (* datetime64 *)

Abbreviation DataFrame := (gmap string column).

(** [dataframe[name]] where the expression needs a float series: arithmetic,
    comparisons, rolling windows and TA-Lib take a boolean column as 0.0 and
    1.0. *)
Definition getF (dataframe : DataFrame) (name : string) : option fseries :=
  match dataframe !! name with
  | Some (ColFloat xs) => Some xs
  | Some (ColBool bs) => Some (astype_float bs)
  | _ => None
  end.

(** [dataframe[name]] where the expression needs a boolean series. *)
Definition getB (dataframe : DataFrame) (name : string) : option bseries :=
  match dataframe !! name with
  | Some (ColBool bs) => Some bs
  | _ => None
  end.

Definition isnan (x : float64) : bool :=
  match x with
  | Some _ => false
  | None => true
  end.

(** [dataframe[name].fillna(False)], used as a boolean mask.  The missing
    cells of an object column and the [NaN] cells of a float column become
    [False]; a number left in a float column makes [&] raise. *)
Definition fillna_False (dataframe : DataFrame) (name : string) : option bseries :=
  match dataframe !! name with
  | Some (ColBool bs) => Some bs
  | Some (ColObject os) => Some (default false <$> os)
  | Some (ColFloat xs) => if forallb isnan xs then Some (replicate (length xs) false) else None
  | _ => None
  end.

(** [dataframe.loc[mask, name] = v]: rows selected by the mask get [v]; a
    column that does not exist yet is created with [NaN] in the other rows. *)
Definition loc_set (mask : bseries) (name : string) (v : Q) (dataframe : DataFrame)
  : option DataFrame :=
  match dataframe !! name with
  | None =>
      Some (<[name := ColFloat ((λ m : bool, if m then Some v else None) <$> mask)]> dataframe)
  | Some (ColFloat old) =>
      Some (<[name := ColFloat (zip_with (λ (m : bool) o, if m then Some v else o) mask old)]> dataframe)
  | Some _ => None
  end.

(** [ta.EMA(dataframe, timeperiod)] and friends: the abstract API picks the
    price columns by name; inputs of different lengths are rejected. *)
Definition ta_EMA (dataframe : DataFrame) (timeperiod : nat) : option fseries :=
  close ← getF dataframe "close";
  Some (TA.EMA close timeperiod).

Definition ta_SMA (dataframe : DataFrame) (timeperiod : nat) : option fseries :=
  close ← getF dataframe "close";
  Some (TA.SMA close timeperiod).

Definition ta_ATR (dataframe : DataFrame) (timeperiod : nat) : option fseries :=
  high ← getF dataframe "high";
  low ← getF dataframe "low";
  close ← getF dataframe "close";
  if decide (length high = length close ∧ length low = length close)
  then Some (TA.ATR high low close timeperiod)
  else None.

(** ** Rows of a frame *)

Definition column_length (c : column) : nat :=
  match c with
  | ColFloat xs => length xs
  | ColBool bs => length bs
  | ColObject os => length os
  | ColDate ts => length ts
  end.

(** A pandas frame has one index: each column has as many rows as the
    frame. *)
Definition rectangular (n : nat) (dataframe : DataFrame) : Prop :=
  ∀ name c, dataframe !! name = Some c → column_length c = n.

(** [len(dataframe)], read off a column of the frame (a frame without
    columns has no rows in the model). *)
Definition nrows (dataframe : DataFrame) : nat :=
  match map_to_list dataframe with
  | [] => 0
  | (_, c) :: _ => column_length c
  end.

(** ** Candles

    The host hands the strategy one frame per pair: a timestamp and five
    prices per candle, none of them missing. *)

Record Candle : Type := mkCandle {
  date : Z;
  open : Q;
  high : Q;
  low : Q;
  close : Q;
  volume : Q
}.

Definition price (f : Candle → Q) (cs : list Candle) : fseries := (λ c, Some (f c)) <$> cs.

Definition frame_of_candles (cs : list Candle) : DataFrame :=
  <["date" := ColDate (date <$> cs)]>
  (<["open" := ColFloat (price open cs)]>
  (<["high" := ColFloat (price high cs)]>
  (<["low" := ColFloat (price low cs)]>
  (<["close" := ColFloat (price close cs)]>
  (<["volume" := ColFloat (price volume cs)]> ∅))))).

(** ** The strategy *)

Module DanielsNumber1.

Definition startup_candle_count : nat := 250.

(* Long parameters; a float literal is the double nearest to it *)
Definition breakout_period : nat := 28.
Definition volume_mult : Q := b64 2.7.
Definition momentum_pct : Q := b64 0.02.
Definition atr_mult_max : Q := 2.0.

(* Standard short parameters *)
Definition volume_mult_short : Q := b64 2.7.
Definition momentum_pct_short : Q := b64 0.03.

(* Wyckoff-boosted short parameters *)
Definition volume_mult_short_boosted : Q := b64 2.2.
Definition momentum_pct_short_boosted : Q := b64 0.02.

(* ATR spike filter parameters *)
Definition atr_spike_threshold : Q := b64 1.52.
Definition atr_spike_lookback : nat := 20.

(* EMA parameters *)
Definition ema_fast : nat := 40.
Definition ema_slow : nat := 80.
Definition sma_trend : nat := 200.

(* Shared parameters *)
Definition momentum_lookback : nat := 5.
Definition volume_sma_period : nat := 20.
Definition atr_period : nat := 14.
Definition atr_avg_period : nat := 50.
Definition wyckoff_period : nat := 48.

Definition populate_indicators (dataframe : DataFrame) (metadata : gmap string string)
  : option DataFrame :=
  v ← ta_EMA dataframe ema_fast;
  let dataframe := <["ema_fast" := ColFloat v]> dataframe in
  v ← ta_EMA dataframe ema_slow;
  let dataframe := <["ema_slow" := ColFloat v]> dataframe in
  v ← ta_SMA dataframe sma_trend;
  let dataframe := <["sma_trend" := ColFloat v]> dataframe in

  fast ← getF dataframe "ema_fast";
  slow ← getF dataframe "ema_slow";
  let dataframe := <["bull_regime" := ColBool (s_gt fast slow)]> dataframe in
  fast ← getF dataframe "ema_fast";
  slow ← getF dataframe "ema_slow";
  close ← getF dataframe "close";
  trend ← getF dataframe "sma_trend";
  let dataframe :=
    <["bear_regime" := ColBool (s_and (s_lt fast slow) (s_lt close trend))]> dataframe in

  high ← getF dataframe "high";
  let dataframe :=
    <["highest" := ColFloat (shift 1 (rolling_max breakout_period high))]> dataframe in
  low ← getF dataframe "low";
  let dataframe :=
    <["lowest" := ColFloat (shift 1 (rolling_min breakout_period low))]> dataframe in
  volume ← getF dataframe "volume";
  let dataframe :=
    <["volume_sma" := ColFloat (rolling_mean volume_sma_period volume)]> dataframe in
  v ← ta_ATR dataframe atr_period;
  let dataframe := <["atr" := ColFloat v]> dataframe in
  atr ← getF dataframe "atr";
  let dataframe := <["atr_avg" := ColFloat (rolling_mean atr_avg_period atr)]> dataframe in

  (* Wyckoff Distribution Detection *)
  high ← getF dataframe "high";
  let range_high := rolling_max wyckoff_period high in
  low ← getF dataframe "low";
  let range_low := rolling_min wyckoff_period low in
  let range_size := s_sub range_high range_low in
  close ← getF dataframe "close";
  let range_position := s_div (s_sub close range_low) (replace range_size 0 (b64 1e-10)) in

  (* Distribution: ATR compressed + price in upper half of range *)
  atr ← getF dataframe "atr";
  atr_avg ← getF dataframe "atr_avg";
  let atr_compressed := s_lt atr atr_avg in
  let distribution := s_and atr_compressed (s_gt_c range_position 0.5) in

  (* Was there distribution in the last wyckoff_period hours? *)
  let dataframe :=
    <["post_distribution" :=
        ColBool (s_gt_c (shift 1 (rolling_max wyckoff_period (astype_float distribution))) 0)]>
      dataframe in

  (* ATR spike detection for short filter *)
  atr ← getF dataframe "atr";
  let atr_recent_min := rolling_min atr_spike_lookback atr in
  atr ← getF dataframe "atr";
  let dataframe :=
    <["no_atr_spike" := ColBool (s_not (s_gt atr (s_mul_c atr_recent_min atr_spike_threshold)))]>
      dataframe in

  Some dataframe.

Definition populate_entry_trend (dataframe : DataFrame) (metadata : gmap string string)
  : option DataFrame :=
  volume ← getF dataframe "volume";
  volume_sma ← getF dataframe "volume_sma";
  let vol_surge := s_gt volume (s_mul_c volume_sma volume_mult) in
  close ← getF dataframe "close";
  let mom_up := s_gt close (s_mul_c (shift momentum_lookback close) (b64 (1 + momentum_pct))) in
  atr ← getF dataframe "atr";
  atr_avg ← getF dataframe "atr_avg";
  let volatility_ok := s_lt atr (s_mul_c atr_avg atr_mult_max) in

  (* Longs: bull regime + breakout + volume surge + momentum *)
  bull_regime ← getB dataframe "bull_regime";
  highest ← getF dataframe "highest";
  ema_slow ← getF dataframe "ema_slow";
  dataframe ←
    loc_set
      (s_and (s_and (s_and (s_and (s_and
         bull_regime
         (s_gt close highest))
         (s_gt close ema_slow))
         vol_surge) mom_up) volatility_ok)
      "enter_long" 1 dataframe;

  (* Short conditions *)
  volume ← getF dataframe "volume";
  volume_sma ← getF dataframe "volume_sma";
  let vol_surge_short := s_gt volume (s_mul_c volume_sma volume_mult_short) in
  close ← getF dataframe "close";
  let mom_down :=
    s_lt close (s_mul_c (shift momentum_lookback close) (b64 (1 - momentum_pct_short))) in

  let vol_surge_short_boosted := s_gt volume (s_mul_c volume_sma volume_mult_short_boosted) in
  let mom_down_boosted :=
    s_lt close (s_mul_c (shift momentum_lookback close) (b64 (1 - momentum_pct_short_boosted))) in

  (* Short base conditions with ATR spike filter *)
  bear_regime ← getB dataframe "bear_regime";
  lowest ← getF dataframe "lowest";
  ema_slow ← getF dataframe "ema_slow";
  no_atr_spike ← getB dataframe "no_atr_spike";
  let short_base :=
    s_and (s_and (s_and (s_and
      bear_regime
      (s_lt close lowest))
      (s_lt close ema_slow))
      volatility_ok)
      no_atr_spike in

  (* Shorts: standard OR Wyckoff-boosted (when distribution detected) *)
  post_distribution ← fillna_False dataframe "post_distribution";
  dataframe ←
    loc_set
      (s_and short_base
         (s_or (s_and vol_surge_short mom_down)
               (s_and (s_and post_distribution vol_surge_short_boosted) mom_down_boosted)))
      "enter_short" 1 dataframe;

  Some dataframe.

(** [dataframe[name] = 0] fills the column with one 0 per row of the frame
    (an integer column in pandas; the model has one numeric dtype). *)
Definition populate_exit_trend (dataframe : DataFrame) (metadata : gmap string string)
  : option DataFrame :=
  let dataframe := <["exit_long" := ColFloat (replicate (nrows dataframe) (Some 0%Q))]> dataframe in
  let dataframe := <["exit_short" := ColFloat (replicate (nrows dataframe) (Some 0%Q))]> dataframe in
  Some dataframe.

End DanielsNumber1.

(** What the host computes for a pair: indicators first, then the entry
    columns, on the frame built from the pair's candles. *)
Definition analyze (cs : list Candle) : option DataFrame :=
  dataframe ← DanielsNumber1.populate_indicators (frame_of_candles cs) ∅;
  DanielsNumber1.populate_entry_trend dataframe ∅.

(** One cell of a frame, whatever the dtype of its column. *)
Inductive cell : Type :=
  | CFloat (x : float64)
  | CBool (b : bool)
  | CObject (o : option bool)
  | CDate (t : Z).

Definition column_cell (c : column) (i : nat) : option cell :=
  match c with
  | ColFloat xs => CFloat <$> xs !! i
  | ColBool bs => CBool <$> bs !! i
  | ColObject os => CObject <$> os !! i
  | ColDate ts => CDate <$> ts !! i
  end.

Definition at_ (dataframe : DataFrame) (name : string) (i : nat) : option cell :=
  dataframe !! name ≫= λ c, column_cell c i.

(** ** The columns as expressions over the price series

    The same expressions as in the two methods above, one definition per
    column or local variable of the source; [populate_indicators_eq] and
    [populate_entry_trend_eq] below show that the methods store exactly
    these. *)

Module Col.
Import DanielsNumber1.

Section Indicators.
Variables high low close volume : fseries.

Definition ema_fast : fseries := TA.EMA close DanielsNumber1.ema_fast.
Definition ema_slow : fseries := TA.EMA close DanielsNumber1.ema_slow.
Definition sma_trend : fseries := TA.SMA close DanielsNumber1.sma_trend.
Definition bull_regime : bseries := s_gt ema_fast ema_slow.
Definition bear_regime : bseries := s_and (s_lt ema_fast ema_slow) (s_lt close sma_trend).
Definition highest : fseries := shift 1 (rolling_max breakout_period high).
Definition lowest : fseries := shift 1 (rolling_min breakout_period low).
Definition volume_sma : fseries := rolling_mean volume_sma_period volume.
Definition atr : fseries := TA.ATR high low close atr_period.
Definition atr_avg : fseries := rolling_mean atr_avg_period atr.

Definition range_high : fseries := rolling_max wyckoff_period high.
Definition range_low : fseries := rolling_min wyckoff_period low.
Definition range_size : fseries := s_sub range_high range_low.
Definition range_denominator : fseries := replace range_size 0 (b64 1e-10).
Definition range_position : fseries := s_div (s_sub close range_low) range_denominator.
Definition atr_compressed : bseries := s_lt atr atr_avg.
Definition distribution : bseries := s_and atr_compressed (s_gt_c range_position 0.5).
Definition post_distribution_rolled : fseries :=
  shift 1 (rolling_max wyckoff_period (astype_float distribution)).
Definition post_distribution : bseries := s_gt_c post_distribution_rolled 0.
Definition atr_recent_min : fseries := rolling_min atr_spike_lookback atr.
Definition no_atr_spike : bseries :=
  s_not (s_gt atr (s_mul_c atr_recent_min atr_spike_threshold)).
End Indicators.

Section Entry.
Variables volume volume_sma close atr atr_avg highest lowest ema_slow : fseries.
Variables bull_regime bear_regime no_atr_spike post_distribution : bseries.

Definition vol_surge : bseries := s_gt volume (s_mul_c volume_sma volume_mult).
Definition mom_up : bseries :=
  s_gt close (s_mul_c (shift momentum_lookback close) (b64 (1 + momentum_pct))).
Definition volatility_ok : bseries := s_lt atr (s_mul_c atr_avg atr_mult_max).
Definition long_mask : bseries :=
  s_and (s_and (s_and (s_and (s_and
    bull_regime (s_gt close highest)) (s_gt close ema_slow))
    vol_surge) mom_up) volatility_ok.

Definition vol_surge_short : bseries := s_gt volume (s_mul_c volume_sma volume_mult_short).
Definition mom_down : bseries :=
  s_lt close (s_mul_c (shift momentum_lookback close) (b64 (1 - momentum_pct_short))).
Definition vol_surge_short_boosted : bseries :=
  s_gt volume (s_mul_c volume_sma volume_mult_short_boosted).
Definition mom_down_boosted : bseries :=
  s_lt close (s_mul_c (shift momentum_lookback close) (b64 (1 - momentum_pct_short_boosted))).
Definition short_base : bseries :=
  s_and (s_and (s_and (s_and
    bear_regime (s_lt close lowest)) (s_lt close ema_slow)) volatility_ok) no_atr_spike.
Definition short_mask : bseries :=
  s_and short_base
    (s_or (s_and vol_surge_short mom_down)
          (s_and (s_and post_distribution vol_surge_short_boosted) mom_down_boosted)).
End Entry.

(** The frame [populate_indicators] returns, given the four series it
    reads. *)
Definition indicators (high low close volume : fseries) (dataframe : DataFrame) : DataFrame :=
  <["no_atr_spike" := ColBool (no_atr_spike high low close)]>
  (<["post_distribution" := ColBool (post_distribution high low close)]>
  (<["atr_avg" := ColFloat (atr_avg high low close)]>
  (<["atr" := ColFloat (atr high low close)]>
  (<["volume_sma" := ColFloat (volume_sma volume)]>
  (<["lowest" := ColFloat (lowest low)]>
  (<["highest" := ColFloat (highest high)]>
  (<["bear_regime" := ColBool (bear_regime close)]>
  (<["bull_regime" := ColBool (bull_regime close)]>
  (<["sma_trend" := ColFloat (sma_trend close)]>
  (<["ema_slow" := ColFloat (ema_slow close)]>
  (<["ema_fast" := ColFloat (ema_fast close)]> dataframe))))))))))).

End Col.

(** ** The frame computed from a candle series *)

Definition flag (v : Q) (m : bool) : float64 := if m then Some v else None.

Definition long_mask_of (cs : list Candle) : bseries :=
  let H := price high cs in
  let L := price low cs in
  let C := price close cs in
  let V := price volume cs in
  Col.long_mask V (Col.volume_sma V) C (Col.atr H L C) (Col.atr_avg H L C)
    (Col.highest H) (Col.ema_slow C) (Col.bull_regime C).

Definition short_mask_of (cs : list Candle) : bseries :=
  let H := price high cs in
  let L := price low cs in
  let C := price close cs in
  let V := price volume cs in
  Col.short_mask V (Col.volume_sma V) C (Col.atr H L C) (Col.atr_avg H L C)
    (Col.lowest L) (Col.ema_slow C) (Col.bear_regime C) (Col.no_atr_spike H L C)
    (Col.post_distribution H L C).

Definition indicators_of (cs : list Candle) : DataFrame :=
  Col.indicators (price high cs) (price low cs) (price close cs) (price volume cs)
    (frame_of_candles cs).

Definition signals_of (cs : list Candle) : DataFrame :=
  <["enter_short" := ColFloat (flag 1 <$> short_mask_of cs)]>
  (<["enter_long" := ColFloat (flag 1 <$> long_mask_of cs)]> (indicators_of cs)).

(** A flag is set at a row when the column holds 1 there. *)
Definition is_set (dataframe : DataFrame) (name : string) (i : nat) : Prop :=
  at_ dataframe name i = Some (CFloat (Some 1%Q)).

(** The breakout level the specification describes: undefined during the
    first 28 rows, afterwards the extreme of the 28 candles at the indices
    [i - 28 .. i - 1]. *)
Definition breakout_level (agg : list Q → float64) (f : Candle → Q)
    (cs : list Candle) (i : nat) : option cell :=
  if decide (i < length cs) then
    Some (CFloat (if decide (i < 28) then NaN else agg (f <$> take 28 (drop (i - 28) cs))))
  else None.

Definition set_high (x : Q) (c : Candle) : Candle :=
  mkCandle (date c) (open c) x (low c) (close c) (volume c).

Definition set_low (x : Q) (c : Candle) : Candle :=
  mkCandle (date c) (open c) (high c) x (close c) (volume c).

(** The columns the host supplies. *)
Definition candle_columns : list string := ["date"; "open"; "high"; "low"; "close"; "volume"].

(** Two series agree up to [n] when their first [n] cells coincide. *)
Definition agree {A} (n : nat) (s t : list A) : Prop := take n s = take n t.

(** [post_distribution] as a function of the distribution flags alone. *)
Definition memory_of (distribution : bseries) : bseries :=
  s_gt_c (shift 1 (rolling_max DanielsNumber1.wyckoff_period (astype_float distribution))) 0.

(** ** Names and predicates of the further properties *)

(** The columns [populate_indicators] writes and the columns
    [populate_entry_trend] reads. *)
Definition indicator_columns : list string :=
  ["ema_fast"; "ema_slow"; "sma_trend"; "bull_regime"; "bear_regime"; "highest"; "lowest";
   "volume_sma"; "atr"; "atr_avg"; "post_distribution"; "no_atr_spike"].

Definition entry_inputs : list string :=
  ["volume"; "volume_sma"; "close"; "atr"; "atr_avg"; "bull_regime"; "highest"; "ema_slow";
   "bear_regime"; "lowest"; "no_atr_spike"; "post_distribution"].

(** A cell that holds a value with property [P]. *)
Definition holds (P : Q → Prop) (x : float64) : Prop := ∃ q, x = Some q ∧ P q.

(** The cell of a float column holds a number (it is not [NaN]). *)
Definition has_value (dataframe : DataFrame) (name : string) (i : nat) : Prop :=
  ∃ q, at_ dataframe name i = Some (CFloat (Some q)).

(** ** Concrete series *)

(** Eighty candles: flat at 100 for sixty rows, then one point up per row,
    with a volume surge on the last row. *)
Definition rise (k : nat) : Candle :=
  if k <? 60 then mkCandle (Z.of_nat k) 100 100.5 99.5 100 1
  else
    let p := inject_Z (Z.of_nat (40 + k)) in
    mkCandle (Z.of_nat k) p (p + 1) p (p + 1) (if k =? 79 then 100 else 1).

Definition rising : list Candle := rise <$> seq 0 80.

(** Two hundred candles: flat at 100 for 170 rows, then one point down per
    row, with a volume surge on the last row. *)
Definition fall (k : nat) : Candle :=
  if k <? 170 then mkCandle (Z.of_nat k) 100 100.5 99.5 100 1
  else
    let p := inject_Z (Z.of_nat (270 - k)) in
    mkCandle (Z.of_nat k) p p (p - 1) (p - 1) (if k =? 199 then 100 else 1).

Definition falling : list Candle := fall <$> seq 0 200.

(** A market whose candles narrow by one point per row (the ATR falls from
    200 by one per row from row 14 on); only row 70 closes in the upper half
    of its 48-candle range. *)
Definition narrow (k : nat) : Candle :=
  if k <? 15 then mkCandle (Z.of_nat k) 1000 1200 1000 1001 1
  else
    let h := inject_Z (Z.of_nat (1201 - k)) in
    mkCandle (Z.of_nat k) 1000 h 1000 (if k =? 70 then h - 1 else 1001) 1.

Definition narrowing : list Candle := narrow <$> seq 0 125.

(** A defined cell of a series, 0 when there is none. *)
Definition value (s : fseries) (i : nat) : Q :=
  match s !! i with Some (Some q) => q | _ => 0%Q end.

(** Forty-eight identical candles with the close in the middle of the range. *)
Definition steady : list Candle := replicate 48 (mkCandle 0 2 3 1 2 1).

(** Seven rows of hand-written indicator values whose [post_distribution]
    column is an object column with every cell missing. *)
Definition flat6 (x : Q) : fseries := replicate 6 (Some x).

Definition undefined_frame : DataFrame :=
  <["volume" := ColFloat (flat6 1 ++ [Some 10%Q])]>
  (<["volume_sma" := ColFloat (flat6 1 ++ [Some 1%Q])]>
  (<["close" := ColFloat (flat6 100 ++ [Some 90%Q])]>
  (<["atr" := ColFloat (flat6 1 ++ [Some 1%Q])]>
  (<["atr_avg" := ColFloat (flat6 1 ++ [Some 1%Q])]>
  (<["highest" := ColFloat (flat6 101 ++ [Some 101%Q])]>
  (<["lowest" := ColFloat (flat6 99 ++ [Some 99%Q])]>
  (<["ema_slow" := ColFloat (flat6 100 ++ [Some 100%Q])]>
  (<["bull_regime" := ColBool (replicate 7 false)]>
  (<["bear_regime" := ColBool (replicate 7 true)]>
  (<["no_atr_spike" := ColBool (replicate 7 true)]>
  (<["post_distribution" := ColObject (replicate 7 None)]> ∅))))))))))).

(** What [populate_entry_trend] makes of [undefined_frame]: only row 6 meets
    the standard short conditions. *)
Definition undefined_result : DataFrame :=
  <["enter_short" := ColFloat (replicate 6 NaN ++ [Some 1%Q])]>
  (<["enter_long" := ColFloat (replicate 7 NaN)]> undefined_frame).

(** [undefined_frame] with a long entry already set at row 0, where no entry
    condition holds, and what [populate_entry_trend] makes of it. *)
Definition preset_frame : DataFrame :=
  <["enter_long" := ColFloat (Some 1%Q :: replicate 6 NaN)]> undefined_frame.

Definition preset_result : DataFrame :=
  <["enter_short" := ColFloat (replicate 6 NaN ++ [Some 1%Q])]> preset_frame.

(** * Properties *)

(** ** binary64 rounding *)

Lemma rne_scale (p q c : Z) : (0 < q)%Z → (0 < c)%Z → rne (p * c) (q * c) = rne p q.
Proof.
  intros Hq Hc. unfold rne.
  rewrite Z.div_mul_cancel_r, Z.mul_mod_distr_r by lia.
  replace (2 * (p mod q * c))%Z with (2 * (p mod q) * c)%Z by lia.
  rewrite <- Zmult_compare_compat_r by lia. reflexivity.
Qed.

Lemma rne_mono (p p' q : Z) : (0 < q)%Z → (p <= p')%Z → (rne p q <= rne p' q)%Z.
Proof.
  intros Hq Hp. unfold rne.
  pose proof (Z.div_mod p q ltac:(lia)) as E. pose proof (Z.div_mod p' q ltac:(lia)) as E'.
  pose proof (Z.mod_pos_bound p q Hq) as B. pose proof (Z.mod_pos_bound p' q Hq) as B'.
  pose proof (Z.div_le_mono p p' q Hq Hp) as Hf.
  revert E E' B B' Hf.
  generalize (p / q)%Z (p mod q)%Z (p' / q)%Z (p' mod q)%Z. intros f r f' r' E E' B B' Hf.
  destruct (Z.eq_dec f f') as [<- | Hne].
  - assert (r <= r')%Z by nia.
    destruct (Z.compare_spec (2 * r) q), (Z.compare_spec (2 * r') q), (Z.even f); lia.
  - destruct (Z.compare_spec (2 * r) q), (Z.compare_spec (2 * r') q),
      (Z.even f), (Z.even f'); lia.
Qed.

Lemma rne_int (z : Z) : rne z 1 = z.
Proof. unfold rne. rewrite Z.div_1_r, Z.mod_1_r. reflexivity. Qed.

Lemma rneQ_mono (m m' : Q) : (m <= m')%Q → (rneQ m <= rneQ m')%Z.
Proof.
  intros H. unfold rneQ, Qle in *.
  rewrite <- (rne_scale (Qnum m) (Zpos (Qden m)) (Zpos (Qden m'))) by lia.
  rewrite <- (rne_scale (Qnum m') (Zpos (Qden m')) (Zpos (Qden m))) by lia.
  replace (Zpos (Qden m') * Zpos (Qden m))%Z with (Zpos (Qden m) * Zpos (Qden m'))%Z by lia.
  apply rne_mono; lia.
Qed.

Lemma rneQ_int (z : Z) : rneQ (inject_Z z) = z.
Proof. apply rne_int. Qed.

Lemma rneQ_ge (z : Z) (m : Q) : (inject_Z z <= m)%Q → (z <= rneQ m)%Z.
Proof. intros H. rewrite <- (rneQ_int z). by apply rneQ_mono. Qed.

Lemma rneQ_le (z : Z) (m : Q) : (m <= inject_Z z)%Q → (rneQ m <= z)%Z.
Proof. intros H. rewrite <- (rneQ_int z). by apply rneQ_mono. Qed.

Lemma pow2_pos (e : Z) : (0 < 2 ^ e)%Q.
Proof. by apply Qpower_0_lt. Qed.

Lemma pow2_plus (a b : Z) : (2 ^ (a + b) == 2 ^ a * 2 ^ b)%Q.
Proof. by apply Qpower_plus. Qed.

Lemma pow2_cancel (x : Q) (e : Z) : (x * 2 ^ (- e) * 2 ^ e == x)%Q.
Proof.
  rewrite <- Qmult_assoc, <- pow2_plus. replace (- e + e)%Z with 0%Z by lia.
  rewrite Qpower_0_r. ring.
Qed.

Lemma pow2_le (a b : Z) : (a <= b)%Z → (2 ^ a <= 2 ^ b)%Q.
Proof. intros. by apply Qpower_le_compat_l. Qed.

Lemma pow2_lt_inv (a b : Z) : (2 ^ a < 2 ^ b)%Q → (a < b)%Z.
Proof. intros. by apply (Qpower_lt_compat_l_inv 2). Qed.

Lemma inject_pow2 (n : Z) : (0 <= n)%Z → (inject_Z (2 ^ n) == 2 ^ n)%Q.
Proof. intros. by rewrite Zpower_Qpower. Qed.

(** [ilog2] is the floor of the binary logarithm. *)
Lemma ilog2_spec (x : Q) : (0 < x)%Q → (2 ^ ilog2 x <= x ∧ x < 2 ^ (ilog2 x + 1))%Q.
Proof.
  intros Hx. destruct x as [n d]. assert (Hn : (0 < n)%Z) by (unfold Qlt in Hx; simpl in Hx; lia).
  unfold ilog2. cbn [Qnum Qden].
  set (a := Z.log2 n). set (b := Z.log2 (Zpos d)).
  pose proof (Z.log2_nonneg n) as Ha0. pose proof (Z.log2_nonneg (Zpos d)) as Hb0.
  destruct (Z.log2_spec n Hn) as [Ha1 Ha2]. destruct (Z.log2_spec (Zpos d) ltac:(lia)) as [Hb1 Hb2].
  fold a in Ha0, Ha1, Ha2. fold b in Hb0, Hb1, Hb2.
  assert (Hnd : (n # d == inject_Z n / inject_Z (Zpos d))%Q) by apply Qmake_Qdiv.
  assert (Hd : (0 < inject_Z (Zpos d))%Q) by (unfold Qlt; simpl; lia).
  (* bounds in Q *)
  assert (A1 : (2 ^ a <= inject_Z n)%Q).
  { rewrite <- inject_pow2 by done. by rewrite <- Zle_Qle. }
  assert (A2 : (inject_Z n < 2 ^ (a + 1))%Q).
  { rewrite <- inject_pow2 by lia. rewrite <- Zlt_Qlt. by rewrite <- Z.add_1_r in Ha2. }
  assert (B1 : (2 ^ b <= inject_Z (Zpos d))%Q).
  { rewrite <- inject_pow2 by done. by rewrite <- Zle_Qle. }
  assert (B2 : (inject_Z (Zpos d) < 2 ^ (b + 1))%Q).
  { rewrite <- inject_pow2 by lia. rewrite <- Zlt_Qlt. by rewrite <- Z.add_1_r in Hb2. }
  pose proof (pow2_pos a) as Pa. pose proof (pow2_pos b) as Pb.
  pose proof (pow2_pos (a - b)) as Pk. pose proof (pow2_pos (a - b - 1)) as Pk1.
  assert (Eab : (2 ^ a == 2 ^ (a - b) * 2 ^ b)%Q).
  { rewrite <- pow2_plus. by replace (a - b + b)%Z with a by lia. }
  assert (Ea1 : (2 ^ (a + 1) == 2 * 2 ^ a)%Q) by (rewrite pow2_plus, Qpower_1_r; ring).
  assert (Eb1 : (2 ^ (b + 1) == 2 * 2 ^ b)%Q) by (rewrite pow2_plus, Qpower_1_r; ring).
  assert (Ek1 : (2 ^ (a - b) == 2 * 2 ^ (a - b - 1))%Q).
  { rewrite <- (Qpower_1_r 2) at 2. rewrite <- pow2_plus.
    by replace (1 + (a - b - 1))%Z with (a - b)%Z by lia. }
  assert (Ek2 : (2 ^ (a - b + 1) == 2 * 2 ^ (a - b))%Q) by (rewrite pow2_plus, Qpower_1_r; ring).
  (* x * d = n *)
  assert (Hx' : ((n # d) * inject_Z (Zpos d) == inject_Z n)%Q).
  { rewrite Hnd. field. lra. }
  destruct (Qle_bool (2 ^ (a - b)) (n # d)) eqn:E.
  - apply Qle_bool_iff in E. split; [done |].
    rewrite Ek2. apply Qnot_le_lt. intros Hc.
    assert ((2 * 2 ^ (a - b) * inject_Z (Zpos d) <= inject_Z n)%Q) by nra.
    assert ((2 * 2 ^ (a - b) * 2 ^ b <= 2 * 2 ^ (a - b) * inject_Z (Zpos d))%Q) by nra.
    nra.
  - assert (E' : ((n # d) < 2 ^ (a - b))%Q).
    { apply Qnot_le_lt. intros Hc. apply Qle_bool_iff in Hc. congruence. }
    replace (a - b - 1 + 1)%Z with (a - b)%Z by lia. split; [| done].
    apply Qnot_lt_le. intros Hc.
    assert ((inject_Z n < 2 ^ (a - b - 1) * inject_Z (Zpos d))%Q) by nra.
    assert ((2 ^ (a - b - 1) * inject_Z (Zpos d) < 2 ^ (a - b - 1) * (2 * 2 ^ b))%Q) by nra.
    nra.
Qed.

Lemma ilog2_mono (x y : Q) : (0 < x)%Q → (x <= y)%Q → (ilog2 x <= ilog2 y)%Z.
Proof.
  intros Hx Hxy. destruct (ilog2_spec x Hx) as [H1 _].
  destruct (ilog2_spec y ltac:(lra)) as [_ H2].
  assert ((2 ^ ilog2 x < 2 ^ (ilog2 y + 1))%Q) by lra.
  apply pow2_lt_inv in H. lia.
Qed.

Lemma ulp_exp_mono (x y : Q) : (0 < x)%Q → (x <= y)%Q → (ulp_exp x <= ulp_exp y)%Z.
Proof. intros Hx Hxy. unfold ulp_exp. pose proof (ilog2_mono x y Hx Hxy). lia. Qed.

(** The significand has at most 53 bits, and exactly 53 above the
    subnormal range. *)
Lemma significand_lt (x : Q) : (0 < x)%Q → (x * 2 ^ (- ulp_exp x) < 2 ^ 53)%Q.
Proof.
  intros Hx. destruct (ilog2_spec x Hx) as [_ H2].
  pose proof (pow2_pos (- ulp_exp x)) as P.
  assert (Hle : (2 ^ (ilog2 x + 1) * 2 ^ (- ulp_exp x) <= 2 ^ 53)%Q).
  { rewrite <- pow2_plus. apply pow2_le. unfold ulp_exp. lia. }
  nra.
Qed.

Lemma significand_ge (x : Q) :
  (0 < x)%Q → (-1074 < ulp_exp x)%Z → (2 ^ 52 <= x * 2 ^ (- ulp_exp x))%Q.
Proof.
  intros Hx He. destruct (ilog2_spec x Hx) as [H1 _].
  pose proof (pow2_pos (- ulp_exp x)) as P.
  assert (Heq : (2 ^ 52 == 2 ^ ilog2 x * 2 ^ (- ulp_exp x))%Q).
  { rewrite <- pow2_plus. unfold ulp_exp in *.
    by replace (ilog2 x + - Z.max (ilog2 x - 52) (-1074))%Z with 52%Z by lia. }
  rewrite Heq. nra.
Qed.

Lemma b64_pos_eq (x : Q) :
  (b64_pos x == inject_Z (rneQ (x * 2 ^ (- ulp_exp x))) * 2 ^ ulp_exp x)%Q.
Proof. unfold b64_pos. apply Qred_correct. Qed.

Lemma b64_pos_nonneg (x : Q) : (0 < x)%Q → (0 <= b64_pos x)%Q.
Proof.
  intros Hx. rewrite b64_pos_eq. pose proof (pow2_pos (ulp_exp x)). pose proof (pow2_pos (- ulp_exp x)).
  assert ((0 <= rneQ (x * 2 ^ (- ulp_exp x)))%Z).
  { apply rneQ_ge. change (inject_Z 0) with 0%Q. nra. }
  assert ((0 <= inject_Z (rneQ (x * 2 ^ (- ulp_exp x))))%Q).
  { change 0%Q with (inject_Z 0). by rewrite <- Zle_Qle. }
  nra.
Qed.

Lemma b64_pos_mono (x y : Q) : (0 < x)%Q → (x <= y)%Q → (b64_pos x <= b64_pos y)%Q.
Proof.
  intros Hx Hxy. rewrite !b64_pos_eq.
  pose proof (ulp_exp_mono x y Hx Hxy) as He.
  set (ex := ulp_exp x) in *. set (ey := ulp_exp y) in *.
  pose proof (pow2_pos ex) as Px. pose proof (pow2_pos ey) as Py.
  pose proof (pow2_pos (- ex)) as Pnx. pose proof (pow2_pos (- ey)) as Pny.
  destruct (Z.eq_dec ex ey) as [Heq | Hne].
  - rewrite <- Heq.
    assert ((rneQ (x * 2 ^ (- ex)) <= rneQ (y * 2 ^ (- ex)))%Z) by (apply rneQ_mono; nra).
    rewrite Zle_Qle in H. nra.
  - assert (Hlt : (ex + 1 <= ey)%Z) by lia.
    assert (H1 : (rneQ (x * 2 ^ (- ex)) <= 2 ^ 53)%Z).
    { apply rneQ_le. rewrite inject_pow2 by lia.
      apply Qlt_le_weak. by apply significand_lt. }
    assert (H2 : (2 ^ 52 <= rneQ (y * 2 ^ (- ey)))%Z).
    { apply rneQ_ge. rewrite inject_pow2 by lia.
      apply significand_ge; [lra |]. fold ey. unfold ex, ulp_exp in Hlt. lia. }
    rewrite Zle_Qle in H1, H2. rewrite inject_pow2 in H1, H2 by lia.
    assert (H3 : (2 ^ 53 * 2 ^ ex <= 2 ^ 52 * 2 ^ ey)%Q).
    { rewrite <- !pow2_plus. apply pow2_le. lia. }
    pose proof (pow2_pos 52). pose proof (pow2_pos 53).
    nra.
Qed.

Lemma Qnum_pos (x : Q) (p : positive) : Qnum x = Zpos p → (0 < x)%Q.
Proof. intros H. unfold Qlt. simpl. lia. Qed.

Lemma Qnum_neg (x : Q) (p : positive) : Qnum x = Zneg p → (x < 0)%Q.
Proof. intros H. unfold Qlt. simpl. lia. Qed.

Lemma Qnum_zero (x : Q) : Qnum x = 0%Z → (x == 0)%Q.
Proof. intros H. unfold Qeq. simpl. lia. Qed.

(** Rounding keeps the sign. *)
Lemma b64_nonneg (x : Q) : (0 <= x)%Q → (0 <= b64 x)%Q.
Proof.
  intros Hx. unfold b64. destruct (Qnum x) eqn:E.
  - lra.
  - apply b64_pos_nonneg. by eapply Qnum_pos.
  - apply Qnum_neg in E. lra.
Qed.

Lemma b64_nonpos (x : Q) : (x <= 0)%Q → (b64 x <= 0)%Q.
Proof.
  intros Hx. unfold b64. destruct (Qnum x) eqn:E.
  - lra.
  - apply Qnum_pos in E. lra.
  - apply Qnum_neg in E. rewrite Qred_correct.
    pose proof (b64_pos_nonneg (- x) ltac:(lra)). lra.
Qed.

(** Rounding is monotone. *)
Lemma b64_mono (x y : Q) : (x <= y)%Q → (b64 x <= b64 y)%Q.
Proof.
  intros Hxy.
  destruct (Qlt_le_dec 0 x) as [Hx | Hx].
  - unfold b64. destruct (Qnum x) eqn:Ex.
    + apply Qnum_zero in Ex. lra.
    + destruct (Qnum y) eqn:Ey.
      * apply Qnum_zero in Ey. lra.
      * by apply b64_pos_mono.
      * apply Qnum_neg in Ey. lra.
    + apply Qnum_neg in Ex. lra.
  - destruct (Qlt_le_dec y 0) as [Hy | Hy].
    + unfold b64. destruct (Qnum x) eqn:Ex.
      * apply Qnum_zero in Ex. lra.
      * apply Qnum_pos in Ex. lra.
      * destruct (Qnum y) eqn:Ey.
        -- apply Qnum_zero in Ey. lra.
        -- apply Qnum_pos in Ey. lra.
        -- rewrite !Qred_correct.
           pose proof (b64_pos_mono (- y) (- x) ltac:(lra) ltac:(lra)). lra.
    + pose proof (b64_nonpos x Hx). pose proof (b64_nonneg y Hy). lra.
Qed.

(** Equal rationals round to the same double. *)
Lemma b64_canonical (x : Q) : Qred (b64 x) = b64 x.
Proof.
  unfold b64. destruct (Qnum x); [reflexivity | |]; unfold b64_pos;
    apply Qred_complete, Qred_correct.
Qed.

Lemma b64_proper (x y : Q) : (x == y)%Q → b64 x = b64 y.
Proof.
  intros H. rewrite <- (b64_canonical x), <- (b64_canonical y). apply Qred_complete.
  apply Qle_antisym; apply b64_mono; lra.
Qed.

Lemma b64_0 : b64 0 = 0%Q.
Proof. reflexivity. Qed.

Lemma b64_1 : b64 1 = 1%Q.
Proof. vm_compute. reflexivity. Qed.

(** Every double is a multiple of 2^-1074. *)
Lemma b64_pos_grid (x : Q) : ∃ z : Z, (b64_pos x == inject_Z z * 2 ^ (-1074))%Q.
Proof.
  exists (rneQ (x * 2 ^ (- ulp_exp x)) * 2 ^ (ulp_exp x + 1074))%Z.
  rewrite b64_pos_eq, inject_Z_mult, inject_pow2 by (unfold ulp_exp; lia).
  rewrite <- Qmult_assoc, <- pow2_plus.
  by replace (ulp_exp x + 1074 + -1074)%Z with (ulp_exp x) by lia.
Qed.

Lemma b64_grid (x : Q) : ∃ z : Z, (b64 x == inject_Z z * 2 ^ (-1074))%Q.
Proof.
  unfold b64. destruct (Qnum x).
  - exists 0%Z. change (inject_Z 0) with 0%Q. ring.
  - apply b64_pos_grid.
  - destruct (b64_pos_grid (- x)) as [z Hz]. exists (- z)%Z.
    rewrite Qred_correct, Hz, inject_Z_opp. ring.
Qed.

Lemma b64_min_subnormal : b64 (2 ^ (-1074)) = (2 ^ (-1074))%Q.
Proof. vm_compute. reflexivity. Qed.

(** The difference of two distinct doubles does not round to zero. *)
Lemma b64_sub_pos (x y : Q) : b64 x = x → b64 y = y → (y < x)%Q → (0 < b64 (x - y))%Q.
Proof.
  intros Hx Hy Hlt.
  destruct (b64_grid x) as [zx Ex]. destruct (b64_grid y) as [zy Ey].
  rewrite Hx in Ex. rewrite Hy in Ey.
  pose proof (pow2_pos (-1074)) as P.
  assert (Hz : (zy < zx)%Z).
  { apply Z.lt_nge. intros Hc. rewrite Zle_Qle in Hc. nra. }
  assert (H1 : (1 <= inject_Z zx - inject_Z zy)%Q).
  { assert (H1 : (zy + 1 <= zx)%Z) by lia.
    rewrite Zle_Qle, inject_Z_plus in H1. change (inject_Z 1) with 1%Q in H1. lra. }
  assert (Hge : (2 ^ (-1074) <= x - y)%Q) by nra.
  apply b64_mono in Hge. rewrite b64_min_subnormal in Hge. lra.
Qed.

Lemma b64_1e10_pos : (0 < b64 1e-10)%Q.
Proof. vm_compute. reflexivity. Qed.

(** ** Cells *)

Lemma Qltb_lt (x y : Q) : Qltb x y = true ↔ (x < y)%Q.
Proof.
  unfold Qltb. rewrite negb_true_iff, <- not_true_iff_false, Qle_bool_iff.
  split; [apply Qnot_le_lt | apply Qlt_not_le].
Qed.

Lemma fgt_Some (x y : Q) : fgt (Some x) (Some y) = true ↔ (y < x)%Q.
Proof. apply Qltb_lt. Qed.

Lemma fgt_true (a b : float64) :
  fgt a b = true ↔ ∃ x y, a = Some x ∧ b = Some y ∧ (y < x)%Q.
Proof.
  destruct a as [x|], b as [y|]; simpl;
    try (split; [discriminate | intros (? & ? & ? & ? & _); discriminate]).
  rewrite Qltb_lt. split.
  - intros H. by exists x, y.
  - by intros (? & ? & [= <-] & [= <-] & H).
Qed.

Lemma flt_true (a b : float64) :
  flt a b = true ↔ ∃ x y, a = Some x ∧ b = Some y ∧ (x < y)%Q.
Proof.
  unfold flt. rewrite fgt_true. split; intros (x & y & ? & ? & ?); by exists y, x.
Qed.

(** ** Series: lookups *)

Lemma lookup_rolling (w : nat) (agg : list Q → float64) (s : fseries) (i : nat) :
  i < length s → rolling w agg s !! i = Some (window w s i ≫= agg).
Proof.
  intros Hi. unfold rolling. rewrite list_lookup_fmap, lookup_seq_lt by done. done.
Qed.

Lemma length_rolling (w : nat) (agg : list Q → float64) (s : fseries) :
  length (rolling w agg s) = length s.
Proof. unfold rolling. by rewrite length_fmap, length_seq. Qed.

Lemma length_shift (k : nat) (s : fseries) : length (shift k s) = length s.
Proof. unfold shift. rewrite length_take, length_app. lia. Qed.

Lemma lookup_shift_lt (k : nat) (s : fseries) (i : nat) :
  i < k → i < length s → shift k s !! i = Some NaN.
Proof.
  intros Hk Hi. unfold shift.
  rewrite lookup_take_lt, lookup_app_l by (rewrite ?length_replicate; lia).
  by apply lookup_replicate_2.
Qed.

Lemma lookup_shift_ge (k : nat) (s : fseries) (i : nat) :
  k ≤ i → i < length s → shift k s !! i = s !! (i - k).
Proof.
  intros Hk Hi. unfold shift.
  rewrite lookup_take_lt, lookup_app_r by (rewrite ?length_replicate; lia).
  by rewrite length_replicate.
Qed.

Lemma window_short (w : nat) (s : fseries) (i : nat) : S i < w → window w s i = None.
Proof. intros H. unfold window. by rewrite (proj2 (Nat.ltb_lt _ _) H). Qed.

Lemma window_full (w : nat) (s : fseries) (i : nat) :
  w ≤ S i → window w s i = mapM id (trailing s i w).
Proof. intros H. unfold window. by rewrite (proj2 (Nat.ltb_ge _ _) H). Qed.

Lemma length_price (f : Candle → Q) (cs : list Candle) : length (price f cs) = length cs.
Proof. apply length_fmap. Qed.

Lemma lookup_price (f : Candle → Q) (cs : list Candle) (i : nat) :
  price f cs !! i = (λ c, Some (f c)) <$> cs !! i.
Proof. apply list_lookup_fmap. Qed.

(** A window over prices holds no [NaN]. *)
Lemma mapM_id_Some (l : list Q) : mapM id (Some <$> l) = Some l.
Proof. apply mapM_Some. induction l; constructor; done. Qed.

Lemma trailing_fmap {A B} (f : A → B) (s : list A) (i w : nat) :
  trailing (f <$> s) i w = f <$> trailing s i w.
Proof. unfold trailing. by rewrite fmap_take, fmap_drop. Qed.

Lemma window_price (f : Candle → Q) (cs : list Candle) (w i : nat) :
  w ≤ S i → window w (price f cs) i = Some (f <$> trailing cs i w).
Proof.
  intros H. rewrite window_full by done. unfold price.
  rewrite trailing_fmap, (list_fmap_compose f Some). apply mapM_id_Some.
Qed.

Lemma length_trailing {A} (s : list A) (i w : nat) :
  w ≤ S i → i < length s → length (trailing s i w) = w.
Proof. intros. unfold trailing. rewrite length_take, length_drop. lia. Qed.

(** ** Frames: reading and writing columns *)

Lemma getF_Some (dataframe : DataFrame) (name : string) (xs : fseries) :
  getF dataframe name = Some xs ↔
  dataframe !! name = Some (ColFloat xs) ∨
  ∃ bs, dataframe !! name = Some (ColBool bs) ∧ xs = astype_float bs.
Proof.
  unfold getF. destruct (dataframe !! name) as [[]|]; split;
    try (intros [H | (bs' & H & _)]; discriminate H); try discriminate.
  - intros [= ->]. by left.
  - by intros [[= ->] | (bs' & H & _)].
  - intros [= <-]. right. by eexists.
  - intros [H | (bs' & [= <-] & ->)]; [discriminate H | done].
Qed.

Lemma getF_float (dataframe : DataFrame) (name : string) (xs : fseries) :
  dataframe !! name = Some (ColFloat xs) → getF dataframe name = Some xs.
Proof. unfold getF. by intros ->. Qed.

Lemma getB_Some (dataframe : DataFrame) (name : string) (bs : bseries) :
  getB dataframe name = Some bs ↔ dataframe !! name = Some (ColBool bs).
Proof.
  unfold getB. destruct (dataframe !! name) as [[]|]; split; congruence.
Qed.

Lemma getF_insert_eq (dataframe : DataFrame) (name : string) (xs : fseries) :
  getF (<[name := ColFloat xs]> dataframe) name = Some xs.
Proof. unfold getF. by rewrite lookup_insert_eq. Qed.

Lemma getF_insert_ne (dataframe : DataFrame) (name name' : string) (c : column) :
  name ≠ name' → getF (<[name := c]> dataframe) name' = getF dataframe name'.
Proof. intros. unfold getF. by rewrite lookup_insert_ne. Qed.

Lemma getB_insert_eq (dataframe : DataFrame) (name : string) (bs : bseries) :
  getB (<[name := ColBool bs]> dataframe) name = Some bs.
Proof. unfold getB. by rewrite lookup_insert_eq. Qed.

Lemma getB_insert_ne (dataframe : DataFrame) (name name' : string) (c : column) :
  name ≠ name' → getB (<[name := c]> dataframe) name' = getB dataframe name'.
Proof. intros. unfold getB. by rewrite lookup_insert_ne. Qed.

Lemma fillna_False_insert_ne (dataframe : DataFrame) (name name' : string) (c : column) :
  name ≠ name' → fillna_False (<[name := c]> dataframe) name' = fillna_False dataframe name'.
Proof. intros. unfold fillna_False. by rewrite lookup_insert_ne. Qed.

(** [loc] writes one column and nothing else. *)
Lemma loc_set_lookup_ne (mask : bseries) (name name' : string) (v : Q) (df df' : DataFrame) :
  loc_set mask name v df = Some df' → name ≠ name' → df' !! name' = df !! name'.
Proof.
  unfold loc_set. intros H Hne.
  destruct (df !! name) as [[]|]; simplify_eq; by rewrite lookup_insert_ne.
Qed.

Lemma loc_set_fresh (mask : bseries) (name : string) (v : Q) (df : DataFrame) :
  df !! name = None →
  loc_set mask name v df
  = Some (<[name := ColFloat ((λ m : bool, if m then Some v else None) <$> mask)]> df).
Proof. unfold loc_set. by intros ->. Qed.

Ltac name_ne := let H := fresh in intros H; discriminate H.

Ltac frame_step :=
  first
    [ rewrite getF_insert_eq
    | rewrite getB_insert_eq
    | rewrite getF_insert_ne by name_ne
    | rewrite getB_insert_ne by name_ne
    | rewrite fillna_False_insert_ne by name_ne
    | rewrite lookup_insert_eq
    | rewrite lookup_insert_ne by name_ne ];
  cbn [mbind option_bind].

Ltac frame_step_in H :=
  first
    [ rewrite getF_insert_eq in H
    | rewrite getB_insert_eq in H
    | rewrite getF_insert_ne in H by name_ne
    | rewrite getB_insert_ne in H by name_ne
    | rewrite fillna_False_insert_ne in H by name_ne
    | match goal with
      | E : getF ?df ?n = Some _ |- _ => rewrite E in H
      | E : getB ?df ?n = Some _ |- _ => rewrite E in H
      | E : fillna_False ?df ?n = Some _ |- _ => rewrite E in H
      | E : loc_set _ _ _ _ = Some _ |- _ => rewrite E in H
      end
    | match type of H with
      | context [getF ?df ?n ≫= _] =>
          is_var df; destruct (getF df n) eqn:?; [| discriminate H]
      | context [getB ?df ?n ≫= _] =>
          is_var df; destruct (getB df n) eqn:?; [| discriminate H]
      | context [fillna_False ?df ?n ≫= _] =>
          is_var df; destruct (fillna_False df n) eqn:?; [| discriminate H]
      end ];
  cbn [mbind option_bind] in H.

(** ** The methods store the column expressions *)

Lemma populate_indicators_eq (dataframe : DataFrame) (metadata : gmap string string)
    (high low close volume : fseries) :
  getF dataframe "high" = Some high →
  getF dataframe "low" = Some low →
  getF dataframe "close" = Some close →
  getF dataframe "volume" = Some volume →
  length high = length close → length low = length close →
  DanielsNumber1.populate_indicators dataframe metadata
  = Some (Col.indicators high low close volume dataframe).
Proof.
  intros Hh Hl Hc Hv Lh Ll.
  unfold DanielsNumber1.populate_indicators, ta_EMA, ta_SMA, ta_ATR.
  repeat first [ frame_step | rewrite ?Hh, ?Hl, ?Hc, ?Hv; progress cbn [mbind option_bind] ].
  rewrite decide_True by done.
  repeat first [ frame_step | rewrite ?Hh, ?Hl, ?Hc, ?Hv; progress cbn [mbind option_bind] ].
  reflexivity.
Qed.

(** Conversely the method fails unless it finds its four input columns. *)
Lemma populate_indicators_inv (dataframe df' : DataFrame) (metadata : gmap string string) :
  DanielsNumber1.populate_indicators dataframe metadata = Some df' →
  ∃ high low close volume,
    getF dataframe "high" = Some high ∧ getF dataframe "low" = Some low ∧
    getF dataframe "close" = Some close ∧ getF dataframe "volume" = Some volume ∧
    df' = Col.indicators high low close volume dataframe.
Proof.
  intros H.
  unfold DanielsNumber1.populate_indicators, ta_EMA, ta_SMA, ta_ATR in H.
  repeat frame_step_in H.
  case_decide; [| discriminate H].
  cbn [mbind option_bind] in H.
  repeat frame_step_in H.
  simplify_eq. eauto 10.
Qed.

Lemma loc_set_getF_ne (mask : bseries) (name name' : string) (v : Q) (df df' : DataFrame) :
  loc_set mask name v df = Some df' → name ≠ name' → getF df' name' = getF df name'.
Proof. intros H Hne. unfold getF. by rewrite (loc_set_lookup_ne _ _ _ _ _ _ H Hne). Qed.

Lemma loc_set_getB_ne (mask : bseries) (name name' : string) (v : Q) (df df' : DataFrame) :
  loc_set mask name v df = Some df' → name ≠ name' → getB df' name' = getB df name'.
Proof. intros H Hne. unfold getB. by rewrite (loc_set_lookup_ne _ _ _ _ _ _ H Hne). Qed.

Lemma loc_set_fillna_ne (mask : bseries) (name name' : string) (v : Q) (df df' : DataFrame) :
  loc_set mask name v df = Some df' → name ≠ name' →
  fillna_False df' name' = fillna_False df name'.
Proof. intros H Hne. unfold fillna_False. by rewrite (loc_set_lookup_ne _ _ _ _ _ _ H Hne). Qed.

Ltac loc_step_in H :=
  first
    [ match goal with
      | E : loc_set _ _ _ _ = Some ?df1 |- _ =>
          first [ rewrite (loc_set_getF_ne _ _ _ _ _ _ E) in H by name_ne
                | rewrite (loc_set_getB_ne _ _ _ _ _ _ E) in H by name_ne
                | rewrite (loc_set_fillna_ne _ _ _ _ _ _ E) in H by name_ne ]
      end
    | frame_step_in H
    | match type of H with
      | context [loc_set ?m ?n ?v ?df ≫= _] =>
          destruct (loc_set m n v df) eqn:?; [| discriminate H]
      end ];
  cbn [mbind option_bind] in H.

Lemma populate_entry_trend_inv (dataframe df' : DataFrame) (metadata : gmap string string) :
  DanielsNumber1.populate_entry_trend dataframe metadata = Some df' →
  ∃ volume volume_sma close atr atr_avg highest lowest ema_slow
    bull_regime bear_regime no_atr_spike post_distribution df1,
    getF dataframe "volume" = Some volume ∧
    getF dataframe "volume_sma" = Some volume_sma ∧
    getF dataframe "close" = Some close ∧
    getF dataframe "atr" = Some atr ∧
    getF dataframe "atr_avg" = Some atr_avg ∧
    getF dataframe "highest" = Some highest ∧
    getF dataframe "lowest" = Some lowest ∧
    getF dataframe "ema_slow" = Some ema_slow ∧
    getB dataframe "bull_regime" = Some bull_regime ∧
    getB dataframe "bear_regime" = Some bear_regime ∧
    getB dataframe "no_atr_spike" = Some no_atr_spike ∧
    fillna_False dataframe "post_distribution" = Some post_distribution ∧
    loc_set (Col.long_mask volume volume_sma close atr atr_avg highest ema_slow bull_regime)
      "enter_long" 1 dataframe = Some df1 ∧
    loc_set (Col.short_mask volume volume_sma close atr atr_avg lowest ema_slow
               bear_regime no_atr_spike post_distribution)
      "enter_short" 1 df1 = Some df'.
Proof.
  intros H.
  unfold DanielsNumber1.populate_entry_trend in H.
  repeat loc_step_in H.
  simplify_eq.
  do 13 eexists. repeat (split; [first [reflexivity | eassumption]|]). eassumption.
Qed.

Lemma populate_entry_trend_eq (dataframe : DataFrame) (metadata : gmap string string)
    volume volume_sma close atr atr_avg highest lowest ema_slow
    bull_regime bear_regime no_atr_spike post_distribution :
    getF dataframe "volume" = Some volume →
    getF dataframe "volume_sma" = Some volume_sma →
    getF dataframe "close" = Some close →
    getF dataframe "atr" = Some atr →
    getF dataframe "atr_avg" = Some atr_avg →
    getF dataframe "highest" = Some highest →
    getF dataframe "lowest" = Some lowest →
    getF dataframe "ema_slow" = Some ema_slow →
    getB dataframe "bull_regime" = Some bull_regime →
    getB dataframe "bear_regime" = Some bear_regime →
    getB dataframe "no_atr_spike" = Some no_atr_spike →
    fillna_False dataframe "post_distribution" = Some post_distribution →
  DanielsNumber1.populate_entry_trend dataframe metadata =
    loc_set (Col.long_mask volume volume_sma close atr atr_avg highest ema_slow bull_regime)
      "enter_long" 1 dataframe ≫=
    loc_set (Col.short_mask volume volume_sma close atr atr_avg lowest ema_slow
               bear_regime no_atr_spike post_distribution)
      "enter_short" 1.
Proof.
  intros H1 H2 H3 H4 H5 H6 H7 H8 H9 H10 H11 H12.
  unfold DanielsNumber1.populate_entry_trend.
  rewrite H1, H2, H3, H4, H5, H9, H6, H8. cbn [mbind option_bind].
  fold (Col.long_mask volume volume_sma close atr atr_avg highest ema_slow bull_regime).
  destruct (loc_set _ "enter_long" _ _) as [df1|] eqn:E; [| done].
  cbn [mbind option_bind].
  rewrite !(loc_set_getF_ne _ _ _ _ _ _ E) by name_ne.
  rewrite !(loc_set_getB_ne _ _ _ _ _ _ E) by name_ne.
  rewrite !(loc_set_fillna_ne _ _ _ _ _ _ E) by name_ne.
  rewrite H1, H2, H3, H10, H7, H8, H11, H12. cbn [mbind option_bind].
  by destruct (loc_set _ "enter_short" _ _).
Qed.

Ltac frame_lookup :=
  unfold signals_of, indicators_of, Col.indicators, frame_of_candles;
  rewrite ?getB_Some;
  unfold getF, fillna_False;
  repeat first [ rewrite lookup_insert_eq | rewrite lookup_insert_ne by name_ne ];
  first [ reflexivity | apply lookup_empty ].

Lemma populate_indicators_candles (cs : list Candle) (metadata : gmap string string) :
  DanielsNumber1.populate_indicators (frame_of_candles cs) metadata = Some (indicators_of cs).
Proof.
  unfold indicators_of.
  apply (populate_indicators_eq _ _ (price high cs) (price low cs) (price close cs)
           (price volume cs)).
  all: rewrite ?length_price. 
  all: try reflexivity.
  all: frame_lookup.
Qed.

Lemma populate_entry_trend_candles (cs : list Candle) (metadata : gmap string string) :
  DanielsNumber1.populate_entry_trend (indicators_of cs) metadata = Some (signals_of cs).
Proof.
  rewrite (populate_entry_trend_eq _ _
             (price volume cs) (Col.volume_sma (price volume cs)) (price close cs)
             (Col.atr (price high cs) (price low cs) (price close cs))
             (Col.atr_avg (price high cs) (price low cs) (price close cs))
             (Col.highest (price high cs)) (Col.lowest (price low cs))
             (Col.ema_slow (price close cs)) (Col.bull_regime (price close cs))
             (Col.bear_regime (price close cs))
             (Col.no_atr_spike (price high cs) (price low cs) (price close cs))
             (Col.post_distribution (price high cs) (price low cs) (price close cs)));
    [| frame_lookup ..].
  rewrite loc_set_fresh by frame_lookup. cbn [mbind option_bind].
  rewrite loc_set_fresh by frame_lookup. reflexivity.
Qed.

(** On a candle frame both methods succeed. *)
Lemma analyze_eq (cs : list Candle) : analyze cs = Some (signals_of cs).
Proof.
  unfold analyze. rewrite populate_indicators_candles. cbn [mbind option_bind].
  apply populate_entry_trend_candles.
Qed.

(** ** Series: one row of an element-wise expression *)

Lemma lookup_s_gt (a b : fseries) (i : nat) (u v : float64) :
  a !! i = Some u → b !! i = Some v → s_gt a b !! i = Some (fgt u v).
Proof. intros Ha Hb. unfold s_gt. by rewrite lookup_zip_with, Ha, Hb. Qed.

Lemma lookup_s_lt (a b : fseries) (i : nat) (u v : float64) :
  a !! i = Some u → b !! i = Some v → s_lt a b !! i = Some (flt u v).
Proof. intros Ha Hb. unfold s_lt. by rewrite lookup_zip_with, Ha, Hb. Qed.

Lemma lookup_s_and (a b : bseries) (i : nat) (x y : bool) :
  a !! i = Some x → b !! i = Some y → s_and a b !! i = Some (x && y).
Proof. intros Ha Hb. unfold s_and. by rewrite lookup_zip_with, Ha, Hb. Qed.

Lemma lookup_s_or (a b : bseries) (i : nat) (x y : bool) :
  a !! i = Some x → b !! i = Some y → s_or a b !! i = Some (x || y).
Proof. intros Ha Hb. unfold s_or. by rewrite lookup_zip_with, Ha, Hb. Qed.

Lemma lookup_s_not (a : bseries) (i : nat) (x : bool) :
  a !! i = Some x → s_not a !! i = Some (negb x).
Proof. intros Ha. unfold s_not. by rewrite list_lookup_fmap, Ha. Qed.

Lemma lookup_s_mul_c (a : fseries) (c : Q) (i : nat) (u : float64) :
  a !! i = Some u → s_mul_c a c !! i = Some (fmul u (Some c)).
Proof. intros Ha. unfold s_mul_c. by rewrite list_lookup_fmap, Ha. Qed.

Lemma lookup_s_gt_c (a : fseries) (c : Q) (i : nat) (u : float64) :
  a !! i = Some u → s_gt_c a c !! i = Some (fgt u (Some c)).
Proof. intros Ha. unfold s_gt_c. by rewrite list_lookup_fmap, Ha. Qed.

Lemma lookup_s_and_true (a b : bseries) (i : nat) :
  s_and a b !! i = Some true ↔ a !! i = Some true ∧ b !! i = Some true.
Proof.
  unfold s_and. rewrite lookup_zip_with.
  destruct (a !! i) as [[]|], (b !! i) as [[]|]; simpl; intuition congruence.
Qed.

Lemma lookup_s_or_true (a b : bseries) (i : nat) :
  s_or a b !! i = Some true ↔
  (∃ x y, a !! i = Some x ∧ b !! i = Some y ∧ (x = true ∨ y = true)).
Proof.
  unfold s_or. rewrite lookup_zip_with.
  destruct (a !! i) as [[]|], (b !! i) as [[]|]; simpl;
    (split; intros H; try discriminate H;
     try (destruct H as (x & y & ? & ? & [? | ?]); congruence); eauto 6).
Qed.

Lemma lookup_s_gt_true (a b : fseries) (i : nat) :
  s_gt a b !! i = Some true ↔
  ∃ x y, a !! i = Some (Some x) ∧ b !! i = Some (Some y) ∧ (y < x)%Q.
Proof.
  unfold s_gt. rewrite lookup_zip_with. split.
  - destruct (a !! i) as [u|]; [| done]. destruct (b !! i) as [v|]; [| done].
    simpl. intros [= H]. apply fgt_true in H as (x & y & -> & -> & H). eauto.
  - intros (x & y & -> & -> & H). simpl. f_equal. by apply fgt_Some.
Qed.

Lemma lookup_s_lt_true (a b : fseries) (i : nat) :
  s_lt a b !! i = Some true ↔
  ∃ x y, a !! i = Some (Some x) ∧ b !! i = Some (Some y) ∧ (x < y)%Q.
Proof.
  change (s_lt a b) with (zip_with flt a b). rewrite lookup_zip_with. split.
  - destruct (a !! i) as [u|]; [| done]. destruct (b !! i) as [v|]; [| done].
    simpl. intros [= H]. apply flt_true in H as (x & y & -> & -> & H). eauto.
  - intros (x & y & -> & -> & H). simpl. f_equal. by apply Qltb_lt.
Qed.

Lemma fgt_fmul (x y c : Q) :
  fgt (Some x) (fmul (Some y) (Some c)) = true ↔ (b64 (y * c) < x)%Q.
Proof. simpl. by rewrite Qltb_lt. Qed.

Lemma flt_fmul (x y c : Q) :
  flt (Some x) (fmul (Some y) (Some c)) = true ↔ (x < b64 (y * c))%Q.
Proof. unfold flt. simpl. by rewrite Qltb_lt. Qed.

(** ** Rows of the indicator columns of a candle frame *)

Lemma lookup_highest (high : fseries) (i : nat) :
  0 < i → i < length high →
  Col.highest high !! i
  = Some (window DanielsNumber1.breakout_period high (i - 1) ≫= qmax_list).
Proof.
  intros H0 Hi. unfold Col.highest, rolling_max.
  rewrite lookup_shift_ge by (rewrite ?length_rolling; lia).
  apply lookup_rolling. lia.
Qed.

Lemma lookup_lowest (low : fseries) (i : nat) :
  0 < i → i < length low →
  Col.lowest low !! i
  = Some (window DanielsNumber1.breakout_period low (i - 1) ≫= qmin_list).
Proof.
  intros H0 Hi. unfold Col.lowest, rolling_min.
  rewrite lookup_shift_ge by (rewrite ?length_rolling; lia).
  apply lookup_rolling. lia.
Qed.

Lemma enter_long_set (cs : list Candle) (i : nat) :
  is_set (signals_of cs) "enter_long" i ↔ long_mask_of cs !! i = Some true.
Proof.
  unfold is_set, at_, signals_of.
  rewrite lookup_insert_ne by name_ne. rewrite lookup_insert_eq.
  cbn [mbind option_bind column_cell]. rewrite list_lookup_fmap.
  destruct (long_mask_of cs !! i) as [[]|]; simpl; intuition congruence.
Qed.

Lemma enter_short_set (cs : list Candle) (i : nat) :
  is_set (signals_of cs) "enter_short" i ↔ short_mask_of cs !! i = Some true.
Proof.
  unfold is_set, at_, signals_of.
  rewrite lookup_insert_eq.
  cbn [mbind option_bind column_cell]. rewrite list_lookup_fmap.
  destruct (short_mask_of cs !! i) as [[]|]; simpl; intuition congruence.
Qed.

(** ** C3: the entry flags exclude each other *)

Lemma lookup_shift_price (f : Candle → Q) (cs : list Candle) (k i : nat) (c : Candle) :
  k ≤ i → i < length cs → cs !! (i - k) = Some c →
  shift k (price f cs) !! i = Some (Some (f c)).
Proof.
  intros Hk Hi Hc. rewrite lookup_shift_ge by (rewrite ?length_price; lia).
  by rewrite lookup_price, Hc.
Qed.

Lemma lookup_highest_price (cs : list Candle) (i : nat) :
  DanielsNumber1.breakout_period ≤ i → i < length cs →
  Col.highest (price high cs) !! i
  = Some (qmax_list (high <$> trailing cs (i - 1) DanielsNumber1.breakout_period)).
Proof.
  unfold DanielsNumber1.breakout_period. intros Hb Hi.
  rewrite lookup_highest by (rewrite ?length_price; lia).
  by rewrite window_price by (unfold DanielsNumber1.breakout_period; lia).
Qed.

Lemma lookup_lowest_price (cs : list Candle) (i : nat) :
  DanielsNumber1.breakout_period ≤ i → i < length cs →
  Col.lowest (price low cs) !! i
  = Some (qmin_list (low <$> trailing cs (i - 1) DanielsNumber1.breakout_period)).
Proof.
  unfold DanielsNumber1.breakout_period. intros Hb Hi.
  rewrite lookup_lowest by (rewrite ?length_price; lia).
  by rewrite window_price by (unfold DanielsNumber1.breakout_period; lia).
Qed.

Lemma lookup_volume_sma_price (cs : list Candle) (i : nat) :
  DanielsNumber1.volume_sma_period ≤ S i → i < length cs →
  Col.volume_sma (price volume cs) !! i
  = Some (qmean (volume <$> trailing cs i DanielsNumber1.volume_sma_period)).
Proof.
  intros Hb Hi. unfold Col.volume_sma, rolling_mean.
  rewrite lookup_rolling by (by rewrite length_price).
  by rewrite window_price.
Qed.

(** C3: [enter_long] and [enter_short] are never both set at a row: a long
    needs EMA-40 above EMA-80, a short needs it below. *)
Theorem entries_exclusive (cs : list Candle) (i : nat) :
  ∃ df, analyze cs = Some df ∧
    ¬ (is_set df "enter_long" i ∧ is_set df "enter_short" i).
Proof.
  exists (signals_of cs). split; [apply analyze_eq |].
  rewrite enter_long_set, enter_short_set. unfold long_mask_of, short_mask_of.
  intros [Hl Hs].
  unfold Col.long_mask in Hl. unfold Col.short_mask, Col.short_base in Hs.
  rewrite !lookup_s_and_true in Hl. rewrite !lookup_s_and_true in Hs.
  destruct Hl as (((((Hbull & _) & _) & _) & _) & _).
  destruct Hs as (((((Hbear & _) & _) & _) & _) & _).
  unfold Col.bull_regime in Hbull. unfold Col.bear_regime in Hbear.
  apply lookup_s_and_true in Hbear as [Hbear _].
  apply lookup_s_gt_true in Hbull as (x & y & Hx & Hy & Hlt).
  apply lookup_s_lt_true in Hbear as (x' & y' & Hx' & Hy' & Hlt').
  rewrite Hx in Hx'. rewrite Hy in Hy'. simplify_eq.
  eapply Qlt_irrefl, Qlt_trans; eassumption.
Qed.

(** ** C6: warm-up of the TA-Lib averages *)

Lemma lookup_NaN_prefix (k : nat) (s : fseries) (i : nat) (x : Q) :
  (replicate k NaN ++ s) !! i = Some (Some x) → k ≤ i.
Proof.
  intros H. destruct (decide (k ≤ i)) as [|Hlt]; [done |].
  rewrite lookup_app_l in H by (rewrite length_replicate; lia).
  apply lookup_replicate in H as [? _]. done.
Qed.

Lemma lookup_replicate_NaN (k i : nat) (x : Q) : replicate k NaN !! i ≠ Some (Some x).
Proof. intros H. apply lookup_replicate in H as [? _]. done. Qed.

Lemma EMA_core_warmup (n : nat) (real : fseries) (i : nat) (x : Q) :
  TA.EMA_core n real !! i = Some (Some x) → n - 1 ≤ i.
Proof.
  unfold TA.EMA_core. destruct (length real <? n).
  - intros H. by apply lookup_replicate_NaN in H.
  - apply lookup_NaN_prefix.
Qed.

Lemma EMA_warmup (real : fseries) (n i : nat) (x : Q) :
  TA.EMA real n !! i = Some (Some x) → n - 1 ≤ i.
Proof.
  unfold TA.EMA. intros H.
  pose proof (lookup_NaN_prefix _ _ _ _ H) as Hb.
  rewrite lookup_app_r, length_replicate in H by (by rewrite length_replicate).
  apply EMA_core_warmup in H. lia.
Qed.

Lemma SMA_core_warmup (n : nat) (real : fseries) (i : nat) (x : Q) :
  TA.SMA_core n real !! i = Some (Some x) → n - 1 ≤ i.
Proof.
  unfold TA.SMA_core. destruct (length real <? n).
  - intros H. by apply lookup_replicate_NaN in H.
  - apply lookup_NaN_prefix.
Qed.

Lemma SMA_warmup (real : fseries) (n i : nat) (x : Q) :
  TA.SMA real n !! i = Some (Some x) → n - 1 ≤ i.
Proof.
  unfold TA.SMA. intros H.
  pose proof (lookup_NaN_prefix _ _ _ _ H) as Hb.
  rewrite lookup_app_r, length_replicate in H by (by rewrite length_replicate).
  apply SMA_core_warmup in H. lia.
Qed.

Lemma long_mask_warmup (cs : list Candle) (i : nat) :
  long_mask_of cs !! i = Some true → DanielsNumber1.ema_slow - 1 ≤ i.
Proof.
  unfold long_mask_of, Col.long_mask. rewrite !lookup_s_and_true.
  intros (((((Hbull & _) & _) & _) & _) & _).
  apply lookup_s_gt_true in Hbull as (x & y & _ & Hy & _).
  by apply EMA_warmup in Hy.
Qed.

Lemma short_mask_warmup (cs : list Candle) (i : nat) :
  short_mask_of cs !! i = Some true → DanielsNumber1.sma_trend - 1 ≤ i.
Proof.
  unfold short_mask_of, Col.short_mask, Col.short_base. rewrite !lookup_s_and_true.
  intros (((((Hbear & _) & _) & _) & _) & _).
  unfold Col.bear_regime in Hbear. apply lookup_s_and_true in Hbear as [_ Hbear].
  apply lookup_s_lt_true in Hbear as (x & y & _ & Hy & _).
  by apply SMA_warmup in Hy.
Qed.

(** C6 (as the code has it): the entry columns are empty during the warm-up
    of the slowest average each side reads: [enter_long] is [NaN] at every
    row before 79 (EMA-80), [enter_short] at every row before 199
    (SMA-200).  Rows between these bounds and [startup_candle_count] are not
    masked. *)
Theorem entries_unset_in_warmup (cs : list Candle) (i : nat) :
  ∃ df, analyze cs = Some df ∧
    (i < 79 → ¬ is_set df "enter_long" i) ∧
    (i < 199 → ¬ is_set df "enter_short" i).
Proof.
  exists (signals_of cs). split; [apply analyze_eq |].
  rewrite enter_long_set, enter_short_set. split.
  - intros Hi H. apply long_mask_warmup in H.
    unfold DanielsNumber1.ema_slow in H. lia.
  - intros Hi H. apply short_mask_warmup in H.
    unfold DanielsNumber1.sma_trend in H. lia.
Qed.

(** ** Rolling extrema *)

Lemma Qmax_cases (x y : Q) : Qmax x y = x ∨ Qmax x y = y.
Proof. unfold Qmax, GenericMinMax.gmax. destruct (x ?= y)%Q; auto. Qed.

Lemma foldl_Qmax_le (l : list Q) (x : Q) :
  (x <= foldl Qmax x l)%Q ∧ ∀ y, y ∈ l → (y <= foldl Qmax x l)%Q.
Proof.
  revert x. induction l as [|z l IH]; intros x; simpl.
  - split; [apply Qle_refl |]. intros y Hy. by apply elem_of_nil in Hy.
  - destruct (IH (Qmax x z)) as [H1 H2]. split.
    + eapply Qle_trans; [apply Q.le_max_l | exact H1].
    + intros y [-> | Hy]%elem_of_cons; [| by apply H2].
      eapply Qle_trans; [apply Q.le_max_r | exact H1].
Qed.

Lemma foldl_Qmax_elem (l : list Q) (x : Q) : foldl Qmax x l ∈ x :: l.
Proof.
  revert x. induction l as [|z l IH]; intros x; simpl.
  - by apply list_elem_of_singleton.
  - specialize (IH (Qmax x z)). apply elem_of_cons in IH as [IH | IH].
    + rewrite IH. destruct (Qmax_cases x z) as [-> | ->].
      * apply list_elem_of_here.
      * apply list_elem_of_further, list_elem_of_here.
    + by do 2 apply list_elem_of_further.
Qed.

Lemma foldl_Qmin_le (l : list Q) (x : Q) :
  (foldl Qmin x l <= x)%Q ∧ ∀ y, y ∈ l → (foldl Qmin x l <= y)%Q.
Proof.
  revert x. induction l as [|z l IH]; intros x; simpl.
  - split; [apply Qle_refl |]. intros y Hy. by apply elem_of_nil in Hy.
  - destruct (IH (Qmin x z)) as [H1 H2]. split.
    + eapply Qle_trans; [exact H1 | apply Q.le_min_l].
    + intros y [-> | Hy]%elem_of_cons; [| by apply H2].
      eapply Qle_trans; [exact H1 | apply Q.le_min_r].
Qed.

Lemma qmax_list_ge (l : list Q) (m y : Q) : qmax_list l = Some m → y ∈ l → (y <= m)%Q.
Proof.
  destruct l as [|x l]; [done |]. intros [= <-] [-> | Hy]%elem_of_cons.
  - apply (proj1 (foldl_Qmax_le l x)).
  - by apply (proj2 (foldl_Qmax_le l x)).
Qed.

Lemma qmax_list_elem (l : list Q) (m : Q) : qmax_list l = Some m → m ∈ l.
Proof. destruct l as [|x l]; [done |]. intros [= <-]. apply foldl_Qmax_elem. Qed.

Lemma qmin_list_le (l : list Q) (m y : Q) : qmin_list l = Some m → y ∈ l → (m <= y)%Q.
Proof.
  destruct l as [|x l]; [done |]. intros [= <-] [-> | Hy]%elem_of_cons.
  - apply (proj1 (foldl_Qmin_le l x)).
  - by apply (proj2 (foldl_Qmin_le l x)).
Qed.

Lemma qmax_list_is_Some (l : list Q) : 0 < length l → is_Some (qmax_list l).
Proof. destruct l; simpl; [lia | eauto]. Qed.

(** ** C5: breakout levels *)

Lemma at_highest (cs : list Candle) (i : nat) :
  at_ (signals_of cs) "highest" i = breakout_level qmax_list high cs i.
Proof.
  unfold at_, signals_of, indicators_of, Col.indicators.
  rewrite !lookup_insert_ne by name_ne. rewrite lookup_insert_eq.
  cbn [mbind option_bind column_cell]. unfold breakout_level.
  case_decide as Hi; cycle 1.
  { rewrite lookup_ge_None_2; [done |].
    unfold Col.highest, rolling_max. rewrite length_shift, length_rolling, length_price. lia. }
  case_decide as H28.
  - destruct i as [|i].
    + unfold Col.highest, rolling_max. rewrite lookup_shift_lt; [done | lia |].
      rewrite length_rolling, length_price. lia.
    + rewrite lookup_highest by (rewrite ?length_price; lia).
      rewrite window_short; [done |]. unfold DanielsNumber1.breakout_period. simpl. lia.
  - rewrite lookup_highest_price by (unfold DanielsNumber1.breakout_period; lia).
    unfold trailing, DanielsNumber1.breakout_period.
    by replace (S (i - 1) - 28) with (i - 28) by lia.
Qed.

Lemma at_lowest (cs : list Candle) (i : nat) :
  at_ (signals_of cs) "lowest" i = breakout_level qmin_list low cs i.
Proof.
  unfold at_, signals_of, indicators_of, Col.indicators.
  rewrite !lookup_insert_ne by name_ne. rewrite lookup_insert_eq.
  cbn [mbind option_bind column_cell]. unfold breakout_level.
  case_decide as Hi; cycle 1.
  { rewrite lookup_ge_None_2; [done |].
    unfold Col.lowest, rolling_min. rewrite length_shift, length_rolling, length_price. lia. }
  case_decide as H28.
  - destruct i as [|i].
    + unfold Col.lowest, rolling_min. rewrite lookup_shift_lt; [done | lia |].
      rewrite length_rolling, length_price. lia.
    + rewrite lookup_lowest by (rewrite ?length_price; lia).
      rewrite window_short; [done |]. unfold DanielsNumber1.breakout_period. simpl. lia.
  - rewrite lookup_lowest_price by (unfold DanielsNumber1.breakout_period; lia).
    unfold trailing, DanielsNumber1.breakout_period.
    by replace (S (i - 1) - 28) with (i - 28) by lia.
Qed.

(** Rewriting candle [i] leaves the candles before it alone. *)
Lemma breakout_level_alter (agg : list Q → float64) (f : Candle → Q) (g : Candle → Candle)
    (cs : list Candle) (i : nat) :
  breakout_level agg f (alter g i cs) i = breakout_level agg f cs i.
Proof.
  unfold breakout_level. rewrite length_alter.
  repeat case_decide; try done. do 4 f_equal.
  apply list_eq. intros k.
  destruct (decide (k < 28)) as [Hk|Hk].
  - rewrite !lookup_take_lt, !lookup_drop by done.
    apply list_lookup_alter_ne. lia.
  - by rewrite !lookup_take_ge by lia.
Qed.

(** C5: the breakout levels at row [i] are the extremes of the 28 candles
    at rows [i - 28 .. i - 1] (undefined before row 28); the high and the
    low of candle [i] itself have no influence on them. *)
Theorem breakout_levels_exclude_current (cs : list Candle) (i : nat) :
  ∃ df, analyze cs = Some df ∧
    at_ df "highest" i = breakout_level qmax_list high cs i ∧
    at_ df "lowest" i = breakout_level qmin_list low cs i ∧
    (∀ x, ∃ df', analyze (alter (set_high x) i cs) = Some df' ∧
          at_ df' "highest" i = at_ df "highest" i) ∧
    (∀ x, ∃ df', analyze (alter (set_low x) i cs) = Some df' ∧
          at_ df' "lowest" i = at_ df "lowest" i).
Proof.
  exists (signals_of cs). split; [apply analyze_eq |].
  split; [apply at_highest |]. split; [apply at_lowest |].
  split; intros x; eexists; (split; [apply analyze_eq |]).
  - rewrite !at_highest. apply breakout_level_alter.
  - rewrite !at_lowest. apply breakout_level_alter.
Qed.

(** ** C8: the range position *)

Lemma replace_cell_nonzero (new : Q) (x : float64) (d : Q) :
  ¬ (new == 0)%Q → replace_cell 0 new x = Some d → ¬ (d == 0)%Q.
Proof.
  intros Hnew. destruct x as [q|]; simpl; [| done].
  destruct (Qeq_bool q 0) eqn:E; intros [= <-]; [done |].
  by apply Qeq_bool_neq.
Qed.

Lemma lookup_range_denominator (high low : fseries) (i : nat) :
  Col.range_denominator high low !! i
  = replace_cell 0 (b64 1e-10) <$> Col.range_size high low !! i.
Proof. unfold Col.range_denominator, replace. apply list_lookup_fmap. Qed.

Lemma lookup_trailing_last {A} (s : list A) (i w : nat) (x : A) :
  0 < w → w ≤ S i → s !! i = Some x → x ∈ trailing s i w.
Proof.
  intros H0 Hw Hx. unfold trailing. apply elem_of_take. exists (w - 1). split; [| lia].
  rewrite lookup_drop. by replace (S i - w + (w - 1)) with i by lia.
Qed.

Lemma lookup_range_high_price (cs : list Candle) (i : nat) :
  DanielsNumber1.wyckoff_period ≤ S i → i < length cs →
  Col.range_high (price high cs) !! i
  = Some (qmax_list (high <$> trailing cs i DanielsNumber1.wyckoff_period)).
Proof.
  intros Hw Hi. unfold Col.range_high, rolling_max.
  rewrite lookup_rolling by (by rewrite length_price). by rewrite window_price.
Qed.

Lemma lookup_range_low_price (cs : list Candle) (i : nat) :
  DanielsNumber1.wyckoff_period ≤ S i → i < length cs →
  Col.range_low (price low cs) !! i
  = Some (qmin_list (low <$> trailing cs i DanielsNumber1.wyckoff_period)).
Proof.
  intros Hw Hi. unfold Col.range_low, rolling_min.
  rewrite lookup_rolling by (by rewrite length_price). by rewrite window_price.
Qed.

(** The quotient of a part by the whole, as the code computes it, lies in
    [0, 1]: the roundings are monotone and keep 0 and 1. *)
Lemma range_quotient (c rl rh : Q) :
  (rl <= c)%Q → (c <= rh)%Q →
  ∃ r, fdiv (fsub (Some c) (Some rl)) (replace_cell 0 (b64 1e-10) (fsub (Some rh) (Some rl)))
         = Some r ∧
       ((0 < b64 (rh - rl))%Q → r = b64 (b64 (c - rl) / b64 (rh - rl))) ∧
       (0 <= r)%Q ∧ (r <= 1)%Q ∧ ((rh == rl)%Q → (r == 0)%Q).
Proof.
  intros H0 Hw.
  assert (Hn0 : (0 <= b64 (c - rl))%Q) by (apply b64_nonneg; lra).
  assert (Hnw : (b64 (c - rl) <= b64 (rh - rl))%Q) by (apply b64_mono; lra).
  pose proof b64_1e10_pos as He.
  cbn [fsub lift2 replace_cell].
  destruct (Qeq_bool (b64 (rh - rl)) 0) eqn:E.
  - apply Qeq_bool_iff in E. cbn [fdiv].
    assert (Qeq_bool (b64 1e-10) 0 = false) as ->.
    { apply not_true_iff_false. rewrite Qeq_bool_iff. lra. }
    assert (Hz : b64 (b64 (c - rl) / b64 1e-10) = 0%Q).
    { rewrite <- b64_0. apply b64_proper.
      assert (Hx0 : (b64 (c - rl) == 0)%Q) by lra. rewrite Hx0. field. lra. }
    eexists. split; [done |]. rewrite Hz.
    split; [intros Hpos; lra |]. split; [lra |]. split; [lra | done].
  - assert (Hpos : (0 < b64 (rh - rl))%Q).
    { apply Qeq_bool_neq in E. pose proof (b64_nonneg (rh - rl) ltac:(lra)). lra. }
    cbn [fdiv]. rewrite E. eexists. split; [done |]. split; [done |].
    assert (Hq0 : (0 <= b64 (c - rl) / b64 (rh - rl))%Q) by (apply Qle_shift_div_l; lra).
    assert (Hq1 : (b64 (c - rl) / b64 (rh - rl) <= 1)%Q) by (apply Qle_shift_div_r; lra).
    apply b64_mono in Hq0, Hq1. rewrite b64_0 in Hq0. rewrite b64_1 in Hq1.
    split; [done |]. split; [done |].
    intros Hw0. assert (Hc : b64 (rh - rl) = 0%Q).
    { rewrite <- b64_0. apply b64_proper. lra. }
    rewrite Hc in Hpos. lra.
Qed.

Lemma lookup_range_position_window (cs : list Candle) (i : nat) (c : Candle) (rh rl : Q) :
  47 ≤ i → cs !! i = Some c →
  qmax_list (high <$> trailing cs i 48) = Some rh →
  qmin_list (low <$> trailing cs i 48) = Some rl →
  Col.range_position (price high cs) (price low cs) (price close cs) !! i
  = Some (fdiv (fsub (Some (close c)) (Some rl))
            (replace_cell 0 (b64 1e-10) (fsub (Some rh) (Some rl)))).
Proof.
  intros Hi Hc Hrh Hrl.
  assert (Hlen : i < length cs) by (by eapply lookup_lt_Some).
  unfold Col.range_position, Col.range_denominator, Col.range_size, s_div, s_sub, replace.
  rewrite lookup_zip_with, lookup_zip_with, list_lookup_fmap, lookup_zip_with.
  rewrite lookup_price, Hc.
  rewrite lookup_range_low_price, lookup_range_high_price
    by (done || unfold DanielsNumber1.wyckoff_period; lia).
  change DanielsNumber1.wyckoff_period with 48. rewrite Hrh, Hrl. done.
Qed.

(** C8: the divisor of [range_position] is never zero, a zero range width
    being replaced by 1e-10; with a full window of well-formed candles and a
    positive width the position is [(close - range_low) / (range_high -
    range_low)], each operation rounded as the code rounds it, and lies in
    [0, 1].  Between doubles a positive width never rounds to zero. *)
Theorem range_position_safe :
  (∀ (high low : fseries) (i : nat) (d : Q),
     Col.range_denominator high low !! i = Some (Some d) → ¬ (d == 0)%Q) ∧
  (∀ (high low : fseries) (i : nat) (z : Q),
     Col.range_size high low !! i = Some (Some z) → (z == 0)%Q →
     Col.range_denominator high low !! i = Some (Some (b64 1e-10))) ∧
  (∀ (cs : list Candle) (i : nat) (c : Candle) (rh rl : Q),
     47 ≤ i → cs !! i = Some c →
     Forall (λ c, low c <= close c ∧ close c <= high c)%Q (trailing cs i 48) →
     qmax_list (high <$> trailing cs i 48) = Some rh →
     qmin_list (low <$> trailing cs i 48) = Some rl →
     (rl < rh)%Q →
     ∃ r, Col.range_position (price high cs) (price low cs) (price close cs) !! i
            = Some (Some r) ∧
          ((0 < b64 (rh - rl))%Q → r = b64 (b64 (close c - rl) / b64 (rh - rl))) ∧
          (b64 rh = rh → b64 rl = rl → (0 < b64 (rh - rl))%Q) ∧
          (0 <= r)%Q ∧ (r <= 1)%Q).
Proof.
  split; [| split].
  - intros high low i d. rewrite lookup_range_denominator.
    destruct (Col.range_size high low !! i) as [x|]; [| done].
    intros [= H]. eapply replace_cell_nonzero in H; [done |].
    pose proof b64_1e10_pos. lra.
  - intros high low i z Hz Hz0. rewrite lookup_range_denominator, Hz. simpl.
    by rewrite (Qeq_eq_bool _ _ Hz0).
  - intros cs i c rh rl Hi Hc Hvalid Hrh Hrl Hlt.
    assert (Hin : c ∈ trailing cs i 48) by (apply lookup_trailing_last; [lia | lia | done]).
    assert (Hc_ok : (low c <= close c ∧ close c <= high c)%Q).
    { rewrite Forall_forall in Hvalid. by apply Hvalid. }
    assert (Hlo : (rl <= low c)%Q).
    { eapply qmin_list_le; [done |]. by apply list_elem_of_fmap_2. }
    assert (Hhi : (high c <= rh)%Q).
    { eapply qmax_list_ge; [done |]. by apply list_elem_of_fmap_2. }
    destruct (range_quotient (close c) rl rh) as (r & Hr & Hq & H0 & H1 & _); [lra | lra |].
    exists r. rewrite (lookup_range_position_window cs i c rh rl) by done.
    rewrite Hr. split; [done |]. split; [done |]. split; [| done].
    intros Eh El. by apply b64_sub_pos.
Qed.

(** ** Lengths of the TA-Lib outputs on price series *)

Lemma begidx_price (f : Candle → Q) (cs : list Candle) : TA.begidx (price f cs) = 0.
Proof. by destruct cs. Qed.

Lemma begidx3_price (cs : list Candle) :
  TA.begidx3 (price high cs) (price low cs) (price close cs) = 0.
Proof. by destruct cs. Qed.

Lemma EMA_price (f : Candle → Q) (cs : list Candle) (n : nat) :
  TA.EMA (price f cs) n = TA.EMA_core n (price f cs).
Proof. unfold TA.EMA. by rewrite begidx_price. Qed.

Lemma SMA_price (f : Candle → Q) (cs : list Candle) (n : nat) :
  TA.SMA (price f cs) n = TA.SMA_core n (price f cs).
Proof. unfold TA.SMA. by rewrite begidx_price. Qed.

Lemma ATR_price (cs : list Candle) (n : nat) :
  TA.ATR (price high cs) (price low cs) (price close cs) n
  = TA.ATR_core n (price high cs) (price low cs) (price close cs).
Proof. unfold TA.ATR. by rewrite begidx3_price. Qed.

Lemma length_trange (hs ls cs : fseries) :
  length (TA.trange hs ls cs) = length hs `min` (length ls `min` length cs).
Proof.
  revert ls cs. induction hs as [|h hs IH]; intros [|l ls] [|c cs]; simpl; try done.
  by rewrite IH.
Qed.

Lemma length_atr_run (n prev : float64) (trs : fseries) :
  length (TA.atr_run n prev trs) = length trs.
Proof. revert prev. induction trs as [|t trs IH]; intros prev; simpl; [done |]. by rewrite IH. Qed.

Lemma length_tail {A} (l : list A) : length (tail l) = length l - 1.
Proof. destruct l; simpl; lia. Qed.

Lemma length_ATR_core (n : nat) (high low close : fseries) :
  length high = length close → length low = length close →
  length (TA.ATR_core n high low close) = length close.
Proof.
  intros Hh Hl. unfold TA.ATR_core.
  destruct (length close <=? n) eqn:E.
  - by rewrite length_replicate.
  - apply Nat.leb_gt in E.
    rewrite length_app, length_replicate. simpl.
    rewrite length_atr_run, length_drop, length_trange, !length_tail. lia.
Qed.

Lemma length_atr_price (cs : list Candle) :
  length (Col.atr (price high cs) (price low cs) (price close cs)) = length cs.
Proof.
  unfold Col.atr. rewrite ATR_price, length_ATR_core; by rewrite !length_price.
Qed.

Lemma length_distribution (cs : list Candle) :
  length (Col.distribution (price high cs) (price low cs) (price close cs)) = length cs.
Proof.
  unfold Col.distribution, Col.atr_compressed, Col.atr_avg, Col.range_position,
    Col.range_denominator, Col.range_size, Col.range_high, Col.range_low.
  unfold s_and, s_lt, s_gt_c, s_div, s_sub, replace, rolling_mean, rolling_max, rolling_min.
  rewrite ?length_zip_with, ?length_fmap, ?length_rolling,
    ?length_zip_with, ?length_fmap, ?length_rolling, ?length_zip_with, ?length_rolling,
    ?length_atr_price, ?length_price.
  lia.
Qed.

(** ** C7: the distribution flag and its 48-row memory *)

Lemma qmax_list_bools (bs : list bool) (m : Q) :
  qmax_list ((λ x : bool, if x then 1%Q else 0%Q) <$> bs) = Some m →
  (0 < m)%Q ↔ true ∈ bs.
Proof.
  intros Hm. split.
  - intros Hpos. apply qmax_list_elem in Hm.
    apply list_elem_of_fmap in Hm as (b & -> & Hb). destruct b; [done |].
    by apply Qlt_irrefl in Hpos.
  - intros Hin. apply (Qlt_le_trans _ 1); [reflexivity |].
    eapply qmax_list_ge; [exact Hm |].
    by apply (list_elem_of_fmap_2 (λ x : bool, if x then 1%Q else 0%Q)) in Hin.
Qed.

Lemma window_astype_float (w : nat) (bs : bseries) (i : nat) :
  w ≤ S i →
  window w (astype_float bs) i = Some ((λ x : bool, if x then 1%Q else 0%Q) <$> trailing bs i w).
Proof.
  intros Hw. rewrite window_full by done. unfold astype_float.
  rewrite trailing_fmap.
  rewrite (list_fmap_compose (λ x : bool, if x then 1%Q else 0%Q) Some).
  apply mapM_id_Some.
Qed.

Lemma elem_of_trailing_true (bs : bseries) (i w : nat) :
  w ≤ S i →
  true ∈ trailing bs i w ↔ ∃ j, S i - w ≤ j ∧ j ≤ i ∧ bs !! j = Some true.
Proof.
  intros Hw. unfold trailing. rewrite elem_of_take. split.
  - intros (k & Hk & Hlt). rewrite lookup_drop in Hk. exists (S i - w + k). split_and!; [lia | lia | done].
  - intros (j & H1 & H2 & Hj). exists (j - (S i - w)). split; [| lia].
    rewrite lookup_drop. by replace (S i - w + (j - (S i - w))) with j by lia.
Qed.

Lemma post_distribution_memory (high low close : fseries) :
  Col.post_distribution high low close = memory_of (Col.distribution high low close).
Proof. reflexivity. Qed.

Lemma length_astype_float (distribution : bseries) :
  length (astype_float distribution) = length distribution.
Proof. apply length_fmap. Qed.

Lemma rolled_early (distribution : bseries) (i : nat) :
  i < 48 → i < length distribution →
  shift 1 (rolling_max DanielsNumber1.wyckoff_period (astype_float distribution)) !! i
  = Some NaN.
Proof.
  intros H48 Hi. unfold rolling_max. destruct i as [|i].
  - apply lookup_shift_lt; [lia |]. rewrite length_rolling, length_astype_float. lia.
  - rewrite lookup_shift_ge by (rewrite ?length_rolling, ?length_astype_float; lia).
    simpl. rewrite Nat.sub_0_r.
    rewrite lookup_rolling by (rewrite length_astype_float; lia).
    rewrite window_short; [done |]. unfold DanielsNumber1.wyckoff_period. lia.
Qed.

Lemma memory_early (distribution : bseries) (i : nat) :
  i < 48 → i < length distribution → memory_of distribution !! i = Some false.
Proof.
  intros H48 Hi. unfold memory_of.
  rewrite (lookup_s_gt_c _ _ _ NaN); [done |]. by apply rolled_early.
Qed.

Lemma memory_true (distribution : bseries) (i : nat) :
  48 ≤ i → i < length distribution →
  memory_of distribution !! i = Some true ↔
  ∃ j, i - 48 ≤ j ∧ j ≤ i - 1 ∧ distribution !! j = Some true.
Proof.
  intros H48 Hi. unfold memory_of, rolling_max.
  erewrite lookup_s_gt_c; cycle 1.
  { rewrite lookup_shift_ge by (rewrite ?length_rolling, ?length_astype_float; lia).
    apply lookup_rolling. rewrite length_astype_float. lia. }
  rewrite window_astype_float by (unfold DanielsNumber1.wyckoff_period; lia).
  cbn [mbind option_bind].
  assert (is_Some (qmax_list ((λ x : bool, if x then 1%Q else 0%Q)
            <$> trailing distribution (i - 1) DanielsNumber1.wyckoff_period))) as [m Hm].
  { apply qmax_list_is_Some. rewrite length_fmap, length_trailing;
      unfold DanielsNumber1.wyckoff_period; lia. }
  rewrite Hm.
  assert (Some (fgt (Some m) (Some 0%Q)) = Some true ↔ (0 < m)%Q) as ->.
  { rewrite <- fgt_Some. intuition congruence. }
  rewrite (qmax_list_bools _ _ Hm).
  rewrite elem_of_trailing_true by (unfold DanielsNumber1.wyckoff_period; lia).
  unfold DanielsNumber1.wyckoff_period.
  split; intros (j & ? & ? & ?); exists j; split_and!; (lia || done).
Qed.

(** A row can only be a distribution row once the 48-candle range exists. *)
Lemma distribution_warmup (high low close : fseries) (j : nat) :
  Col.distribution high low close !! j = Some true → 47 ≤ j.
Proof.
  unfold Col.distribution. rewrite lookup_s_and_true. intros [_ H].
  unfold s_gt_c in H. rewrite list_lookup_fmap in H.
  destruct (Col.range_position high low close !! j) as [[r|]|] eqn:Hr; try done.
  clear H. unfold Col.range_position, s_div in Hr.
  apply lookup_zip_with_Some in Hr as (num & den & Hdiv & Hnum & _).
  destruct num as [num|]; [| done]. clear Hdiv.
  unfold s_sub in Hnum.
  apply lookup_zip_with_Some in Hnum as (cj & rl & Hsub & _ & Hrl).
  destruct rl as [rl|]; [| by destruct cj]. clear Hsub.
  assert (Hlen : j < length low).
  { apply lookup_lt_Some in Hrl. unfold Col.range_low, rolling_min in Hrl.
    by rewrite length_rolling in Hrl. }
  unfold Col.range_low, rolling_min in Hrl. rewrite lookup_rolling in Hrl by done.
  destruct (decide (47 ≤ j)) as [|Hn]; [done |].
  rewrite window_short in Hrl by (unfold DanielsNumber1.wyckoff_period; lia).
  done.
Qed.

Lemma at_post_distribution (cs : list Candle) (i : nat) :
  at_ (signals_of cs) "post_distribution" i
  = CBool <$> Col.post_distribution (price high cs) (price low cs) (price close cs) !! i.
Proof.
  unfold at_, signals_of, indicators_of, Col.indicators.
  rewrite !lookup_insert_ne by name_ne. by rewrite lookup_insert_eq.
Qed.

(** C7: once the shifted 48-row window is full, [post_distribution] is true
    at row [i] exactly when the distribution flag was true at one of the
    rows [i - 48 .. i - 1]; after a single distribution row [j0] it is true
    at the 48 rows [j0 + 1 .. j0 + 48] and at no other row. *)
Theorem post_distribution_window (cs : list Candle) :
  ∃ df, analyze cs = Some df ∧
    (∀ i, 48 ≤ i → i < length cs →
       at_ df "post_distribution" i = Some (CBool true) ↔
       ∃ j, i - 48 ≤ j ∧ j ≤ i - 1 ∧
            Col.distribution (price high cs) (price low cs) (price close cs) !! j = Some true) ∧
    (∀ j0, j0 < length cs →
       Col.distribution (price high cs) (price low cs) (price close cs)
         = <[j0 := true]> (replicate (length cs) false) →
       ∀ i, i < length cs →
         at_ df "post_distribution" i = Some (CBool true) ↔ j0 < i ∧ i ≤ j0 + 48).
Proof.
  exists (signals_of cs). split; [apply analyze_eq |].
  set (D := Col.distribution (price high cs) (price low cs) (price close cs)).
  assert (HD : length D = length cs) by apply length_distribution.
  assert (Hat : ∀ i, at_ (signals_of cs) "post_distribution" i = Some (CBool true) ↔
            memory_of D !! i = Some true).
  { intros i. rewrite at_post_distribution, post_distribution_memory. fold D.
    destruct (memory_of D !! i) as [[]|]; simpl; intuition congruence. }
  split.
  - intros i H48 Hi. rewrite Hat. apply memory_true; [done | by rewrite HD].
  - intros j0 Hj0 Hone i Hi. rewrite Hat.
    assert (Hj : ∀ j, D !! j = Some true ↔ j = j0).
    { intros j. rewrite Hone. destruct (decide (j = j0)) as [->|Hne].
      - rewrite list_lookup_insert_eq by (by rewrite length_replicate). intuition.
      - rewrite list_lookup_insert_ne by done. split; [| done].
        intros [? _]%lookup_replicate. done. }
    assert (47 ≤ j0).
    { apply (distribution_warmup (price high cs) (price low cs) (price close cs)).
      by apply Hj. }
    destruct (decide (i < 48)) as [Hlt|Hge].
    + rewrite memory_early by (done || by rewrite HD). split; [done | lia].
    + rewrite memory_true by (lia || by rewrite HD). split.
      * intros (j & H1 & H2 & Htrue). apply Hj in Htrue as ->. lia.
      * intros [H1 H2]. exists j0. split_and!; [lia | lia | by apply Hj].
Qed.

(** ** C9: the candle columns are only read *)

Lemma indicators_lookup_candle (high low close volume : fseries) (dataframe : DataFrame)
    (name : string) :
  name ∈ candle_columns →
  Col.indicators high low close volume dataframe !! name = dataframe !! name.
Proof.
  unfold candle_columns, Col.indicators. intros H.
  repeat (apply elem_of_cons in H as [-> | H]);
    [by rewrite !lookup_insert_ne by name_ne .. | by apply elem_of_nil in H].
Qed.

Lemma candle_column_not_entry (name : string) :
  name ∈ candle_columns → "enter_long" ≠ name ∧ "enter_short" ≠ name.
Proof.
  unfold candle_columns. intros H.
  repeat (apply elem_of_cons in H as [-> | H]); [by split .. | by apply elem_of_nil in H].
Qed.

(** C9: whatever frame the two methods are given, the columns [date],
    [open], [high], [low], [close] and [volume] of their result are the
    columns of their input. *)
Theorem candle_columns_unchanged (dataframe df1 df2 : DataFrame)
    (metadata : gmap string string) (name : string) :
  name ∈ candle_columns →
  DanielsNumber1.populate_indicators dataframe metadata = Some df1 →
  DanielsNumber1.populate_entry_trend df1 metadata = Some df2 →
  df1 !! name = dataframe !! name ∧ df2 !! name = dataframe !! name.
Proof.
  intros Hname H1 H2.
  apply populate_indicators_inv in H1 as (h & l & c & v & _ & _ & _ & _ & ->).
  pose proof (indicators_lookup_candle h l c v dataframe name Hname) as Hind.
  split; [done |].
  apply populate_entry_trend_inv in H2
    as (? & ? & ? & ? & ? & ? & ? & ? & ? & ? & ? & ? & df' & H).
  destruct H as (_ & _ & _ & _ & _ & _ & _ & _ & _ & _ & _ & _ & Hlong & Hshort).
  destruct (candle_column_not_entry name Hname) as [Hnl Hns].
  rewrite (loc_set_lookup_ne _ _ _ _ _ _ Hshort Hns).
  rewrite (loc_set_lookup_ne _ _ _ _ _ _ Hlong Hnl).
  done.
Qed.

(** ** C10: a missing [post_distribution] cell counts as [False] *)

Lemma fillna_False_object (dataframe : DataFrame) (name : string) (os : list (option bool)) :
  dataframe !! name = Some (ColObject os) →
  fillna_False dataframe name = Some (default false <$> os).
Proof. unfold fillna_False. by intros ->. Qed.

Lemma is_set_loc_set_fresh (mask : bseries) (name : string) (df df' : DataFrame) (i : nat) :
  df !! name = None → loc_set mask name 1 df = Some df' →
  is_set df' name i ↔ mask !! i = Some true.
Proof.
  intros Hfresh H. rewrite loc_set_fresh in H by done. simplify_eq.
  unfold is_set, at_. rewrite lookup_insert_eq. cbn [mbind option_bind column_cell].
  rewrite list_lookup_fmap. destruct (mask !! i) as [[]|]; simpl; intuition congruence.
Qed.

Lemma at_loc_set (mask : bseries) (name : string) (v : Q) (df1 df2 df1' df2' : DataFrame)
    (i : nat) :
  df1 !! name = df2 !! name →
  loc_set mask name v df1 = Some df1' → loc_set mask name v df2 = Some df2' →
  at_ df1' name i = at_ df2' name i.
Proof.
  unfold loc_set, at_. intros <-.
  destruct (df1 !! name) as [[]|]; intros; simplify_eq; by rewrite !lookup_insert_eq.
Qed.

(** C10: a row without enough history for the shifted 48-row window gets
    [post_distribution = False]; and when the [post_distribution] cell of a
    row is missing, [fillna(False)] makes the boosted branch false there:
    [enter_short] is set at that row only if the standard branch holds, and
    the method computes the same [enter_short] column as for a frame that
    holds [False] in that cell. *)
Theorem undefined_post_distribution_is_false :
  (∀ (cs : list Candle) (i : nat),
     i < 48 → i < length cs →
     Col.post_distribution_rolled (price high cs) (price low cs) (price close cs) !! i
       = Some NaN ∧
     ∃ df, analyze cs = Some df ∧ at_ df "post_distribution" i = Some (CBool false)) ∧
  (∀ (dataframe df' : DataFrame) (metadata : gmap string string)
     (os : list (option bool)) (i : nat)
     (volume volume_sma close atr atr_avg lowest ema_slow : fseries)
     (bear_regime no_atr_spike : bseries),
     DanielsNumber1.populate_entry_trend dataframe metadata = Some df' →
     dataframe !! "enter_short" = None →
     dataframe !! "post_distribution" = Some (ColObject os) →
     os !! i = Some None →
     getF dataframe "volume" = Some volume →
     getF dataframe "volume_sma" = Some volume_sma →
     getF dataframe "close" = Some close →
     getF dataframe "atr" = Some atr →
     getF dataframe "atr_avg" = Some atr_avg →
     getF dataframe "lowest" = Some lowest →
     getF dataframe "ema_slow" = Some ema_slow →
     getB dataframe "bear_regime" = Some bear_regime →
     getB dataframe "no_atr_spike" = Some no_atr_spike →
     (is_set df' "enter_short" i →
        Col.short_base close atr atr_avg lowest ema_slow bear_regime no_atr_spike !! i
          = Some true ∧
        Col.vol_surge_short volume volume_sma !! i = Some true ∧
        Col.mom_down close !! i = Some true) ∧
     (∃ df'',
        DanielsNumber1.populate_entry_trend
          (<["post_distribution" := ColObject (<[i := Some false]> os)]> dataframe) metadata
          = Some df'' ∧
        ∀ k, at_ df'' "enter_short" k = at_ df' "enter_short" k)).
Proof.
  split.
  { intros cs i H48 Hi.
    pose proof (length_distribution cs) as HD.
    split; [apply rolled_early; [done | by rewrite HD] |].
    exists (signals_of cs). split; [apply analyze_eq |].
    rewrite at_post_distribution, post_distribution_memory.
    by rewrite memory_early by (done || by rewrite HD). }
  intros dataframe df' metadata os i volume volume_sma close atr atr_avg lowest ema_slow
    bear_regime no_atr_spike Hrun Hfresh Hpd Hi Hv Hvs Hc Ha Haa Hlo Hes Hbear Hspike.
  pose proof (fillna_False_object _ _ _ Hpd) as Hfill.
  pose proof Hrun as Hinv.
  apply populate_entry_trend_inv in Hinv
    as (v' & vs' & c' & a' & aa' & hi & lo' & es' & bull & bear' & sp' & pd' & df1 & Hinv).
  destruct Hinv as (E1 & E2 & E3 & E4 & E5 & Hhi & E7 & E8 & Hbull & E10 & E11 & E12 & Hlong & Hshort).
  simplify_eq.
  set (pd := default false <$> os) in *.
  assert (Hpdi : pd !! i = Some false).
  { subst pd. by rewrite list_lookup_fmap, Hi. }
  split.
  - assert (df1 !! "enter_short" = None) as Hfresh1.
    { by rewrite (loc_set_lookup_ne _ _ _ _ _ _ Hlong) by name_ne. }
    rewrite (is_set_loc_set_fresh _ _ _ _ _ Hfresh1 Hshort).
    unfold Col.short_mask. rewrite lookup_s_and_true. intros [Hbase Hor].
    split; [done |].
    apply lookup_s_or_true in Hor as (x & y & Hx & Hy & Hxy).
    assert (y = false) as ->.
    { apply lookup_zip_with_Some in Hy as (u & m & -> & Hu & _).
      apply lookup_zip_with_Some in Hu as (p & q & -> & Hp & _).
      rewrite Hpdi in Hp. by simplify_eq. }
    destruct Hxy as [-> | ?]; [| done].
    by apply lookup_s_and_true in Hx.
  - set (df0 := <["post_distribution" := ColObject (<[i := Some false]> os)]> dataframe).
    assert (Hfill0 : fillna_False df0 "post_distribution" = Some pd).
    { unfold fillna_False, df0. rewrite lookup_insert_eq. f_equal. subst pd.
      apply list_eq. intros k. rewrite !list_lookup_fmap.
      destruct (decide (k = i)) as [-> | Hne].
      - rewrite list_lookup_insert_eq by (by eapply lookup_lt_Some). by rewrite Hi.
      - by rewrite list_lookup_insert_ne. }
    assert (Hlong0 : ∃ df1', loc_set
              (Col.long_mask volume volume_sma close atr atr_avg hi ema_slow bull)
              "enter_long" 1 df0 = Some df1' ∧
              df1' !! "enter_short" = df1 !! "enter_short").
    { unfold loc_set in Hlong |- *. unfold df0 at 1 2.
      rewrite lookup_insert_ne by name_ne.
      destruct (dataframe !! "enter_long") as [[]|]; simplify_eq; eexists; (split; [done |]).
      all: unfold df0; by rewrite !lookup_insert_ne by name_ne. }
    destruct Hlong0 as (df1' & Hlong0 & Hsame).
    assert (Hshort0 : ∃ df'', loc_set
              (Col.short_mask volume volume_sma close atr atr_avg lowest ema_slow
                 bear_regime no_atr_spike pd) "enter_short" 1 df1' = Some df'').
    { unfold loc_set in Hshort |- *. rewrite Hsame.
      destruct (df1 !! "enter_short") as [[]|]; simplify_eq; eauto. }
    destruct Hshort0 as (df'' & Hshort0).
    exists df''. split.
    + rewrite (populate_entry_trend_eq df0 metadata volume volume_sma close atr atr_avg hi
                 lowest ema_slow bull bear_regime no_atr_spike pd);
        try (unfold df0; first [ rewrite getF_insert_ne by name_ne
                                | rewrite getB_insert_ne by name_ne ]; done); [| done].
      rewrite Hlong0. cbn [mbind option_bind]. exact Hshort0.
    + intros k. by apply (at_loc_set _ _ _ _ _ _ _ _ Hsame Hshort0 Hshort).
Qed.

(** ** C4: no look-ahead

    Every operation of the strategy maps series that agree up to [n] to
    series that agree up to [n]. *)

Section Agree.
Context {A B C : Type}.
Implicit Types (s t : list A) (n : nat).

Lemma agree_lookup n s t i : agree n s t → i < n → s !! i = t !! i.
Proof.
  intros H Hi. rewrite <- (lookup_take_lt s n i), <- (lookup_take_lt t n i) by done.
  by rewrite H.
Qed.

Lemma agree_intro n s t : (∀ i, i < n → s !! i = t !! i) → agree n s t.
Proof.
  intros H. apply list_eq. intros i. rewrite !lookup_take.
  case_decide; [by apply H | done].
Qed.

Lemma agree_lt_length n s t i : agree n s t → i < n → i < length s ↔ i < length t.
Proof.
  intros H Hi. rewrite <- !lookup_lt_is_Some. by rewrite (agree_lookup n s t i).
Qed.

Lemma agree_fmap (f : A → B) n s t : agree n s t → agree n (f <$> s) (f <$> t).
Proof. unfold agree. intros H. by rewrite <- !fmap_take, H. Qed.

Lemma agree_zip_with (f : A → B → C) n s t (s' t' : list B) :
  agree n s t → agree n s' t' → agree n (zip_with f s s') (zip_with f t t').
Proof. unfold agree. intros H H'. by rewrite !zip_with_take, H, H'. Qed.

Lemma agree_trailing n s t i w :
  agree n s t → i < n → w ≤ S i → trailing s i w = trailing t i w.
Proof.
  intros H Hi Hw. unfold trailing. apply list_eq. intros k. rewrite !lookup_take.
  case_decide; [| done]. rewrite !lookup_drop.
  apply (agree_lookup n); [done | lia].
Qed.

(** A function that only ever extends its output when its input is
    extended maps agreeing inputs to agreeing outputs. *)
Lemma agree_of_prefix (F : list A → list B) :
  (∀ u x, F u `prefix_of` F (u ++ x)) → (∀ u, length (F u) = length u) →
  ∀ n s t, agree n s t → agree n (F s) (F t).
Proof.
  intros Hpre Hlen n s t H.
  destruct (decide (n ≤ length s)) as [Hs|Hs]; cycle 1.
  { unfold agree in H. rewrite (take_ge s) in H by lia.
    destruct (decide (n ≤ length t)) as [Ht|Ht].
    - apply (f_equal length) in H. rewrite length_take in H. lia.
    - rewrite (take_ge t) in H by lia. by subst. }
  destruct (decide (n ≤ length t)) as [Ht|Ht]; cycle 1.
  { unfold agree in H. rewrite (take_ge t) in H by lia.
    apply (f_equal length) in H. rewrite length_take in H. lia. }
  assert (∀ r, n ≤ length r → take n (F r) = F (take n r)) as Hcut.
  { intros r Hr. destruct (Hpre (take n r) (drop n r)) as [k Hk].
    rewrite take_drop in Hk. rewrite Hk.
    rewrite take_app_length'; [done |]. rewrite Hlen, length_take. lia. }
  unfold agree. rewrite !Hcut by done. by rewrite H.
Qed.
End Agree.

Lemma lookup_shift (k : nat) (s : fseries) (i : nat) :
  shift k s !! i
  = if decide (i < length s) then (if decide (i < k) then Some NaN else s !! (i - k)) else None.
Proof.
  case_decide as Hi.
  - case_decide; [by apply lookup_shift_lt | apply lookup_shift_ge; [lia | done]].
  - apply lookup_ge_None_2. rewrite length_shift. lia.
Qed.

Lemma agree_shift (k n : nat) (s t : fseries) : agree n s t → agree n (shift k s) (shift k t).
Proof.
  intros H. apply agree_intro. intros i Hi. rewrite !lookup_shift.
  destruct (decide (i < length s)) as [Hs|Hs], (decide (i < length t)) as [Ht|Ht];
    try (apply (agree_lt_length n s t i H Hi) in Hs; lia);
    try (apply (agree_lt_length n s t i H Hi) in Ht; lia); [| done].
  case_decide; [done |]. apply (agree_lookup n); [done | lia].
Qed.

Lemma agree_rolling (w : nat) (agg : list Q → float64) (n : nat) (s t : fseries) :
  agree n s t → agree n (rolling w agg s) (rolling w agg t).
Proof.
  intros H. apply agree_intro. intros i Hi.
  destruct (decide (i < length s)) as [Hs|Hs].
  - assert (Ht : i < length t) by (by apply (agree_lt_length n s t i H Hi)).
    rewrite !lookup_rolling by done. unfold window.
    destruct (S i <? w) eqn:E; [done |]. apply Nat.ltb_ge in E.
    by rewrite (agree_trailing n s t i w H Hi E).
  - assert (Ht : ¬ i < length t) by (by rewrite <- (agree_lt_length n s t i H Hi)).
    rewrite !lookup_ge_None_2; [done | |]; rewrite length_rolling; lia.
Qed.

Lemma agree_price (f : Candle → Q) (n : nat) (cs1 cs2 : list Candle) :
  agree n cs1 cs2 → agree n (price f cs1) (price f cs2).
Proof. apply agree_fmap. Qed.

(** *** The TA-Lib passes only extend their output *)

Lemma length_ema_run (k prev : float64) (xs : fseries) :
  length (TA.ema_run k prev xs) = length xs.
Proof. revert prev. induction xs as [|x xs IH]; intros prev; simpl; [done |]. by rewrite IH. Qed.

Lemma ema_run_prefix (k prev : float64) (xs ys : fseries) :
  TA.ema_run k prev xs `prefix_of` TA.ema_run k prev (xs ++ ys).
Proof.
  revert prev. induction xs as [|x xs IH]; intros prev; simpl.
  - apply prefix_nil.
  - apply prefix_cons, IH.
Qed.

Lemma atr_run_prefix (n prev : float64) (xs ys : fseries) :
  TA.atr_run n prev xs `prefix_of` TA.atr_run n prev (xs ++ ys).
Proof.
  revert prev. induction xs as [|x xs IH]; intros prev; simpl.
  - apply prefix_nil.
  - apply prefix_cons, IH.
Qed.

Lemma sma_run_prefix (n total : float64) (trail xs trail' xs' : fseries) :
  TA.sma_run n total trail xs `prefix_of` TA.sma_run n total (trail ++ trail') (xs ++ xs').
Proof.
  revert total trail. induction xs as [|x xs IH]; intros total [|t trail]; simpl;
    try apply prefix_nil.
  apply prefix_cons, IH.
Qed.

Lemma length_sma_run (n total : float64) (trail xs : fseries) :
  length xs ≤ length trail → length (TA.sma_run n total trail xs) = length xs.
Proof.
  revert total trail. induction xs as [|x xs IH]; intros total [|t trail]; simpl;
    try done; try lia.
  intros H. rewrite IH; [done | lia].
Qed.

Lemma trange_prefix (hs ls cs hs' ls' cs' : fseries) :
  TA.trange hs ls cs `prefix_of` TA.trange (hs ++ hs') (ls ++ ls') (cs ++ cs').
Proof.
  revert ls cs. induction hs as [|h hs IH]; intros [|l ls] [|c cs]; simpl;
    try apply prefix_nil.
  apply prefix_cons, IH.
Qed.

Lemma replicate_prefix {A} (a b : nat) (x : A) (l : list A) :
  a ≤ b → replicate a x `prefix_of` replicate b x ++ l.
Proof.
  intros H. replace b with (a + (b - a)) by lia.
  rewrite replicate_add, <- app_assoc. by eexists.
Qed.

Lemma EMA_core_prefix (n : nat) (u x : fseries) :
  TA.EMA_core n u `prefix_of` TA.EMA_core n (u ++ x).
Proof.
  unfold TA.EMA_core. rewrite length_app.
  destruct (length u <? n) eqn:Eu; [apply Nat.ltb_lt in Eu | apply Nat.ltb_ge in Eu].
  - destruct (length u + length x <? n) eqn:Ex.
    + rewrite <- (app_nil_r (replicate (_ + _) _)). apply replicate_prefix. lia.
    + apply replicate_prefix. lia.
  - assert ((length u + length x <? n) = false) as -> by (apply Nat.ltb_ge; lia).
    rewrite take_app_le, drop_app_le by done.
    apply prefix_app, prefix_cons, ema_run_prefix.
Qed.

Lemma length_EMA_core (n : nat) (u : fseries) :
  0 < n → length (TA.EMA_core n u) = length u.
Proof.
  intros Hn. unfold TA.EMA_core.
  destruct (length u <? n) eqn:Eu; [apply Nat.ltb_lt in Eu | apply Nat.ltb_ge in Eu].
  - by rewrite length_replicate.
  - rewrite length_app, length_replicate. simpl. rewrite length_ema_run, length_drop. lia.
Qed.

Lemma SMA_core_prefix (n : nat) (u x : fseries) :
  TA.SMA_core n u `prefix_of` TA.SMA_core n (u ++ x).
Proof.
  unfold TA.SMA_core. rewrite length_app.
  destruct (length u <? n) eqn:Eu; [apply Nat.ltb_lt in Eu | apply Nat.ltb_ge in Eu].
  - destruct (length u + length x <? n) eqn:Ex.
    + rewrite <- (app_nil_r (replicate (_ + _) _)). apply replicate_prefix. lia.
    + apply replicate_prefix. lia.
  - assert ((length u + length x <? n) = false) as -> by (apply Nat.ltb_ge; lia).
    rewrite take_app_le, drop_app_le by lia.
    apply prefix_app, sma_run_prefix.
Qed.

Lemma length_SMA_core (n : nat) (u : fseries) :
  0 < n → length (TA.SMA_core n u) = length u.
Proof.
  intros Hn. unfold TA.SMA_core.
  destruct (length u <? n) eqn:Eu; [apply Nat.ltb_lt in Eu | apply Nat.ltb_ge in Eu].
  - by rewrite length_replicate.
  - rewrite length_app, length_replicate, length_sma_run; rewrite length_drop; lia.
Qed.

Lemma tail_app_ne {A} (l k : list A) : 0 < length l → tail (l ++ k) = tail l ++ k.
Proof. destruct l; simpl; [lia | done]. Qed.

Lemma ATR_core_prefix (n : nat) (hu lu cu hx lx cx : fseries) :
  length hu = length cu → length lu = length cu →
  TA.ATR_core n hu lu cu `prefix_of` TA.ATR_core n (hu ++ hx) (lu ++ lx) (cu ++ cx).
Proof.
  intros Hh Hl. unfold TA.ATR_core. rewrite length_app.
  destruct (length cu <=? n) eqn:Eu; [apply Nat.leb_le in Eu | apply Nat.leb_gt in Eu].
  - destruct (length cu + length cx <=? n) eqn:Ex.
    + rewrite <- (app_nil_r (replicate (_ + _) _)). apply replicate_prefix. lia.
    + apply replicate_prefix. lia.
  - assert ((length cu + length cx <=? n) = false) as -> by (apply Nat.leb_gt; lia).
    rewrite !tail_app_ne by lia.
    destruct (trange_prefix (tail hu) (tail lu) cu hx lx cx) as [r ->].
    assert (n ≤ length (TA.trange (tail hu) (tail lu) cu)).
    { rewrite length_trange, !length_tail. lia. }
    rewrite take_app_le, drop_app_le by done.
    apply prefix_app, prefix_cons, atr_run_prefix.
Qed.

Lemma agree_EMA_price (f : Candle → Q) (p n : nat) (cs1 cs2 : list Candle) :
  0 < p → agree n cs1 cs2 → agree n (TA.EMA (price f cs1) p) (TA.EMA (price f cs2) p).
Proof.
  intros Hp. rewrite !EMA_price.
  apply (agree_of_prefix (λ cs, TA.EMA_core p (price f cs))).
  - intros u x. unfold price. rewrite fmap_app. apply EMA_core_prefix.
  - intros u. by rewrite length_EMA_core, length_price.
Qed.

Lemma agree_SMA_price (f : Candle → Q) (p n : nat) (cs1 cs2 : list Candle) :
  0 < p → agree n cs1 cs2 → agree n (TA.SMA (price f cs1) p) (TA.SMA (price f cs2) p).
Proof.
  intros Hp. rewrite !SMA_price.
  apply (agree_of_prefix (λ cs, TA.SMA_core p (price f cs))).
  - intros u x. unfold price. rewrite fmap_app. apply SMA_core_prefix.
  - intros u. by rewrite length_SMA_core, length_price.
Qed.

Lemma agree_ATR_price (p n : nat) (cs1 cs2 : list Candle) :
  agree n cs1 cs2 →
  agree n (TA.ATR (price high cs1) (price low cs1) (price close cs1) p)
          (TA.ATR (price high cs2) (price low cs2) (price close cs2) p).
Proof.
  rewrite !ATR_price.
  apply (agree_of_prefix
           (λ cs, TA.ATR_core p (price high cs) (price low cs) (price close cs))).
  - intros u x. unfold price. rewrite !fmap_app.
    apply ATR_core_prefix; by rewrite !length_fmap.
  - intros u. rewrite length_ATR_core; by rewrite !length_price.
Qed.

(** *** Every column of the result *)

Ltac agree_step :=
  first
    [ assumption
    | apply agree_EMA_price; [unfold DanielsNumber1.ema_fast, DanielsNumber1.ema_slow; lia |]
    | apply agree_SMA_price; [unfold DanielsNumber1.sma_trend; lia |]
    | apply agree_ATR_price
    | apply agree_price
    | apply agree_shift
    | apply agree_rolling
    | apply agree_zip_with
    | apply agree_fmap ].

Ltac agree_columns :=
  unfold long_mask_of, short_mask_of, Col.long_mask, Col.short_mask, Col.short_base,
    Col.vol_surge, Col.mom_up, Col.volatility_ok, Col.vol_surge_short, Col.mom_down,
    Col.vol_surge_short_boosted, Col.mom_down_boosted,
    Col.no_atr_spike, Col.atr_recent_min, Col.post_distribution, Col.post_distribution_rolled,
    Col.distribution, Col.atr_compressed, Col.range_position, Col.range_denominator,
    Col.range_size, Col.range_high, Col.range_low, Col.atr_avg, Col.atr, Col.volume_sma,
    Col.lowest, Col.highest, Col.bear_regime, Col.bull_regime, Col.sma_trend, Col.ema_slow,
    Col.ema_fast,
    s_gt, s_lt, s_sub, s_div, s_and, s_or, s_not, s_mul_c, s_gt_c, replace, astype_float,
    rolling_max, rolling_min, rolling_mean;
  repeat agree_step.

Lemma at_insert (dataframe : DataFrame) (k name : string) (c : column) (j : nat) :
  at_ (<[k := c]> dataframe) name j
  = if decide (k = name) then column_cell c j else at_ dataframe name j.
Proof. unfold at_. rewrite lookup_insert. by case_decide. Qed.

Lemma column_cell_float (n j : nat) (s t : fseries) :
  agree n s t → j < n → column_cell (ColFloat s) j = column_cell (ColFloat t) j.
Proof. intros H Hj. simpl. by rewrite (agree_lookup n s t j). Qed.

Lemma column_cell_bool (n j : nat) (s t : bseries) :
  agree n s t → j < n → column_cell (ColBool s) j = column_cell (ColBool t) j.
Proof. intros H Hj. simpl. by rewrite (agree_lookup n s t j). Qed.

Lemma column_cell_date (n j : nat) (s t : list Z) :
  agree n s t → j < n → column_cell (ColDate s) j = column_cell (ColDate t) j.
Proof. intros H Hj. simpl. by rewrite (agree_lookup n s t j). Qed.

Lemma at_signals_agree (n : nat) (cs1 cs2 : list Candle) (name : string) (j : nat) :
  agree n cs1 cs2 → j < n → at_ (signals_of cs1) name j = at_ (signals_of cs2) name j.
Proof.
  intros H Hj. unfold signals_of, indicators_of, Col.indicators, frame_of_candles.
  rewrite !at_insert.
  repeat (case_decide;
    [ first [ apply (column_cell_float n) | apply (column_cell_bool n)
            | apply (column_cell_date n) ]; [agree_columns | exact Hj] |]).
  done.
Qed.

(** C4: if two candle series coincide on the rows [0 .. i], every column of
    the result, the two entry columns included, holds the same cell at each
    of these rows; in particular appending candles to a series changes no
    cell computed for the rows it already had. *)
Theorem no_lookahead :
  (∀ (cs1 cs2 : list Candle) (i : nat),
     take (S i) cs1 = take (S i) cs2 →
     ∃ df1 df2, analyze cs1 = Some df1 ∧ analyze cs2 = Some df2 ∧
       ∀ name j, j ≤ i → at_ df1 name j = at_ df2 name j) ∧
  (∀ (cs more : list Candle),
     ∃ df df', analyze cs = Some df ∧ analyze (cs ++ more) = Some df' ∧
       ∀ name j, j < length cs → at_ df' name j = at_ df name j).
Proof.
  split.
  - intros cs1 cs2 i H. exists (signals_of cs1), (signals_of cs2).
    split; [apply analyze_eq |]. split; [apply analyze_eq |].
    intros name j Hj. apply (at_signals_agree (S i)); [exact H | lia].
  - intros cs more. exists (signals_of cs), (signals_of (cs ++ more)).
    split; [apply analyze_eq |]. split; [apply analyze_eq |].
    intros name j Hj. apply (at_signals_agree (length cs)); [| done].
    unfold agree. by rewrite take_app_length, take_ge.
Qed.

(** * Further properties of the methods *)

(** ** When the methods fail *)

Lemma populate_indicators_lengths (dataframe df' : DataFrame) (metadata : gmap string string)
    (high low close : fseries) :
  DanielsNumber1.populate_indicators dataframe metadata = Some df' →
  getF dataframe "high" = Some high → getF dataframe "low" = Some low →
  getF dataframe "close" = Some close →
  length high = length close ∧ length low = length close.
Proof.
  intros H Hh Hl Hc.
  destruct (decide (length high = length close ∧ length low = length close)) as [|Hn]; [done |].
  exfalso.
  unfold DanielsNumber1.populate_indicators, ta_EMA, ta_SMA, ta_ATR in H.
  repeat frame_step_in H.
  rewrite decide_False in H by done. discriminate H.
Qed.

Lemma getF_lookup_None (dataframe : DataFrame) (name : string) :
  dataframe !! name = None → getF dataframe name = None.
Proof. unfold getF. by intros ->. Qed.

Lemma getB_lookup_None (dataframe : DataFrame) (name : string) :
  dataframe !! name = None → getB dataframe name = None.
Proof. unfold getB. by intros ->. Qed.

Lemma fillna_False_lookup_None (dataframe : DataFrame) (name : string) :
  dataframe !! name = None → fillna_False dataframe name = None.
Proof. unfold fillna_False. by intros ->. Qed.

(** X1: [populate_indicators] needs the four columns [high], [low], [close]
    and [volume], and no other: it returns a frame whenever they are float
    columns with one row per candle, whatever else the frame holds, and it
    fails when one of them is missing. *)
Theorem populate_indicators_needs_candles :
  (∀ (dataframe : DataFrame) (metadata : gmap string string) (high low close volume : fseries),
     dataframe !! "high" = Some (ColFloat high) → dataframe !! "low" = Some (ColFloat low) →
     dataframe !! "close" = Some (ColFloat close) →
     dataframe !! "volume" = Some (ColFloat volume) →
     length high = length close → length low = length close →
     is_Some (DanielsNumber1.populate_indicators dataframe metadata)) ∧
  (∀ (dataframe : DataFrame) (metadata : gmap string string) (name : string),
     name ∈ ["high"; "low"; "close"; "volume"] → dataframe !! name = None →
     DanielsNumber1.populate_indicators dataframe metadata = None).
Proof.
  split.
  - intros dataframe metadata h l c v Hh Hl Hc Hv L1 L2.
    rewrite (populate_indicators_eq _ _ h l c v); [by eexists | by apply getF_float ..| |];
      done.
  - intros dataframe metadata name Hin Hnone.
    destruct (DanielsNumber1.populate_indicators dataframe metadata) as [df'|] eqn:E; [| done].
    exfalso.
    destruct (populate_indicators_inv _ _ _ E) as (h & l & c & v & Hh & Hl & Hc & Hv & _).
    apply getF_lookup_None in Hnone.
    repeat (apply elem_of_cons in Hin as [-> | Hin]); [congruence .. |].
    by apply elem_of_nil in Hin.
Qed.

(** X2: [populate_entry_trend] fails when one of the columns it reads is
    missing; in particular it fails on a frame of candles that has not been
    through [populate_indicators]. *)
Theorem populate_entry_trend_needs_inputs :
  (∀ (dataframe : DataFrame) (metadata : gmap string string) (name : string),
     name ∈ entry_inputs → dataframe !! name = None →
     DanielsNumber1.populate_entry_trend dataframe metadata = None) ∧
  (∀ (cs : list Candle) (metadata : gmap string string),
     DanielsNumber1.populate_entry_trend (frame_of_candles cs) metadata = None).
Proof.
  assert (Hgen : ∀ (dataframe : DataFrame) (metadata : gmap string string) (name : string),
     name ∈ entry_inputs → dataframe !! name = None →
     DanielsNumber1.populate_entry_trend dataframe metadata = None).
  { intros dataframe metadata name Hin Hnone.
    destruct (DanielsNumber1.populate_entry_trend dataframe metadata) as [df'|] eqn:E; [| done].
    exfalso.
    apply populate_entry_trend_inv in E
      as (? & ? & ? & ? & ? & ? & ? & ? & ? & ? & ? & ? & ? & E).
    destruct E as (E1 & E2 & E3 & E4 & E5 & E6 & E7 & E8 & E9 & E10 & E11 & E12 & _).
    unfold entry_inputs in Hin.
    repeat (apply elem_of_cons in Hin as [-> | Hin]);
      try (apply getF_lookup_None in Hnone; congruence);
      try (apply getB_lookup_None in Hnone; congruence);
      try (apply fillna_False_lookup_None in Hnone; congruence).
    by apply elem_of_nil in Hin. }
  split; [exact Hgen |].
  intros cs metadata. apply (Hgen _ _ "volume_sma").
  - unfold entry_inputs. apply list_elem_of_further, list_elem_of_here.
  - unfold frame_of_candles. rewrite !lookup_insert_ne by name_ne. apply lookup_empty.
Qed.

(** ** What the methods write *)

Lemma indicators_lookup_other (high low close volume : fseries) (dataframe : DataFrame)
    (name : string) :
  name ∉ indicator_columns →
  Col.indicators high low close volume dataframe !! name = dataframe !! name.
Proof.
  unfold indicator_columns, Col.indicators. intros H.
  repeat (apply not_elem_of_cons in H as [? H]).
  by rewrite !lookup_insert_ne by done.
Qed.

(** X3: [populate_indicators] changes no column besides the twelve
    indicator columns, and [populate_entry_trend] changes no column besides
    [enter_long] and [enter_short]: whatever else the frame holds is handed
    back as it was. *)
Theorem methods_write_only_their_columns :
  (∀ (dataframe df' : DataFrame) (metadata : gmap string string) (name : string),
     DanielsNumber1.populate_indicators dataframe metadata = Some df' →
     name ∉ indicator_columns → df' !! name = dataframe !! name) ∧
  (∀ (dataframe df' : DataFrame) (metadata : gmap string string) (name : string),
     DanielsNumber1.populate_entry_trend dataframe metadata = Some df' →
     name ≠ "enter_long" → name ≠ "enter_short" → df' !! name = dataframe !! name).
Proof.
  split.
  - intros dataframe df' metadata name H Hname.
    apply populate_indicators_inv in H as (h & l & c & v & _ & _ & _ & _ & ->).
    by apply indicators_lookup_other.
  - intros dataframe df' metadata name H Hl Hs.
    apply populate_entry_trend_inv in H
      as (? & ? & ? & ? & ? & ? & ? & ? & ? & ? & ? & ? & df1 & H).
    destruct H as (_ & _ & _ & _ & _ & _ & _ & _ & _ & _ & _ & _ & Hlong & Hshort).
    rewrite (loc_set_lookup_ne _ _ _ _ _ _ Hshort) by done.
    by rewrite (loc_set_lookup_ne _ _ _ _ _ _ Hlong) by done.
Qed.

(** ** Running a method again *)

Lemma indicators_again (high low close volume : fseries) (dataframe : DataFrame) :
  Col.indicators high low close volume (Col.indicators high low close volume dataframe)
  = Col.indicators high low close volume dataframe.
Proof.
  apply map_eq. intros k.
  destruct (decide (k ∈ indicator_columns)) as [Hin|Hout].
  - unfold indicator_columns in Hin. unfold Col.indicators.
    repeat (apply elem_of_cons in Hin as [-> | Hin]);
      [ repeat first [ rewrite lookup_insert_eq | rewrite lookup_insert_ne by name_ne ];
        reflexivity .. | by apply elem_of_nil in Hin ].
  - by rewrite !indicators_lookup_other.
Qed.

Lemma getF_indicators (high low close volume : fseries) (dataframe : DataFrame)
    (name : string) :
  name ∉ indicator_columns →
  getF (Col.indicators high low close volume dataframe) name = getF dataframe name.
Proof. intros H. unfold getF. by rewrite indicators_lookup_other. Qed.

Lemma not_indicator_column (name : string) :
  name ∈ candle_columns → name ∉ indicator_columns.
Proof.
  unfold candle_columns, indicator_columns. intros H.
  repeat (apply elem_of_cons in H as [-> | H]); [| | | | | | by apply elem_of_nil in H];
    intros Hin; repeat (apply elem_of_cons in Hin as [Hin | Hin]; [discriminate Hin |]);
    by apply elem_of_nil in Hin.
Qed.

Lemma zip_with_loc_again (v : Q) (mask : bseries) (old : fseries) :
  zip_with (λ (m : bool) (o : float64), if m then Some v else o) mask
    (zip_with (λ (m : bool) (o : float64), if m then Some v else o) mask old)
  = zip_with (λ (m : bool) (o : float64), if m then Some v else o) mask old.
Proof.
  revert old. induction mask as [|m mask IH]; intros [|o old]; simpl; try done.
  rewrite IH. by destruct m.
Qed.

Lemma zip_with_loc_fresh (v : Q) (mask : bseries) :
  zip_with (λ (m : bool) (o : float64), if m then Some v else o) mask
    ((λ m : bool, if m then Some v else None) <$> mask)
  = (λ m : bool, if m then Some v else None) <$> mask.
Proof.
  induction mask as [|m mask IH]; [done |].
  cbn [fmap list_fmap zip_with]. f_equal; [by destruct m | exact IH].
Qed.

(** Writing the same mask into a frame that already holds the written
    column changes nothing. *)
Lemma loc_set_again (mask : bseries) (name : string) (v : Q) (df df1 df2 : DataFrame) :
  loc_set mask name v df = Some df1 → df2 !! name = df1 !! name →
  loc_set mask name v df2 = Some df2.
Proof.
  unfold loc_set. intros H Hsame.
  destruct (df !! name) as [[old| | |]|] eqn:E; simplify_eq;
    rewrite lookup_insert_eq in Hsame; rewrite Hsame; f_equal;
    rewrite ?zip_with_loc_again, ?zip_with_loc_fresh; by apply insert_id.
Qed.

(** X4: running either method on its own result gives that result again:
    the indicator columns are recomputed from the unchanged candle columns
    and the entry masks are the same. *)
Theorem methods_idempotent :
  (∀ (dataframe df' : DataFrame) (metadata : gmap string string),
     DanielsNumber1.populate_indicators dataframe metadata = Some df' →
     DanielsNumber1.populate_indicators df' metadata = Some df') ∧
  (∀ (dataframe df' : DataFrame) (metadata : gmap string string),
     DanielsNumber1.populate_entry_trend dataframe metadata = Some df' →
     DanielsNumber1.populate_entry_trend df' metadata = Some df').
Proof.
  split.
  - intros dataframe df' metadata H.
    destruct (populate_indicators_inv _ _ _ H) as (h & l & c & v & Hh & Hl & Hc & Hv & ->).
    destruct (populate_indicators_lengths _ _ _ h l c H Hh Hl Hc) as [L1 L2].
    rewrite (populate_indicators_eq _ _ h l c v); try done;
      try (rewrite getF_indicators; [done |]; apply not_indicator_column;
           unfold candle_columns; set_solver).
    by rewrite indicators_again.
  - intros dataframe df' metadata H.
    apply populate_entry_trend_inv in H
      as (v & vs & c & a & aa & hi & lo & es & bull & bear & sp & pd & df1 & H).
    destruct H as (E1 & E2 & E3 & E4 & E5 & E6 & E7 & E8 & E9 & E10 & E11 & E12 & Hlong & Hshort).
    rewrite (populate_entry_trend_eq df' metadata v vs c a aa hi lo es bull bear sp pd);
      try (rewrite (loc_set_getF_ne _ _ _ _ _ _ Hshort), (loc_set_getF_ne _ _ _ _ _ _ Hlong)
             by name_ne; done);
      try (rewrite (loc_set_getB_ne _ _ _ _ _ _ Hshort), (loc_set_getB_ne _ _ _ _ _ _ Hlong)
             by name_ne; done);
      try (rewrite (loc_set_fillna_ne _ _ _ _ _ _ Hshort), (loc_set_fillna_ne _ _ _ _ _ _ Hlong)
             by name_ne; done).
    rewrite (loc_set_again _ _ _ _ _ _ Hlong); cycle 1.
    { by rewrite (loc_set_lookup_ne _ _ _ _ _ _ Hshort) by name_ne. }
    cbn [mbind option_bind]. by apply (loc_set_again _ _ _ _ _ _ Hshort).
Qed.

(** ** One row per candle *)

Lemma begidx_le (s : fseries) : TA.begidx s ≤ length s.
Proof. induction s as [|[x|] s IH]; simpl; lia. Qed.

Lemma begidx3_le (high low close : fseries) :
  TA.begidx3 high low close ≤ length close.
Proof.
  revert low close. induction high as [|h high IH]; intros low close; [simpl; lia |].
  destruct h as [?|], low as [|[?|] low], close as [|[?|] close]; simpl; try lia;
    specialize (IH low close); lia.
Qed.

Lemma length_EMA (s : fseries) (p : nat) : 0 < p → length (TA.EMA s p) = length s.
Proof.
  intros Hp. unfold TA.EMA.
  rewrite length_app, length_replicate, length_EMA_core, length_drop by done.
  pose proof (begidx_le s). lia.
Qed.

Lemma length_SMA (s : fseries) (p : nat) : 0 < p → length (TA.SMA s p) = length s.
Proof.
  intros Hp. unfold TA.SMA.
  rewrite length_app, length_replicate, length_SMA_core, length_drop by done.
  pose proof (begidx_le s). lia.
Qed.

Lemma length_ATR (high low close : fseries) (p : nat) :
  length high = length close → length low = length close →
  length (TA.ATR high low close p) = length close.
Proof.
  intros Hh Hl. unfold TA.ATR.
  rewrite length_app, length_replicate, length_ATR_core, length_drop
    by (rewrite !length_drop; lia).
  pose proof (begidx3_le high low close). lia.
Qed.

Lemma indicators_column_length (n : nat) (high low close volume : fseries)
    (name : string) (c : column) :
  length high = n → length low = n → length close = n → length volume = n →
  name ∈ indicator_columns →
  Col.indicators high low close volume ∅ !! name = Some c → column_length c = n.
Proof.
  intros Hh Hl Hc Hv Hin.
  assert (length (Col.atr high low close) = n).
  { unfold Col.atr. rewrite length_ATR; lia. }
  assert (length (Col.ema_fast close) = n).
  { unfold Col.ema_fast. rewrite length_EMA; [done |]. unfold DanielsNumber1.ema_fast. lia. }
  assert (length (Col.ema_slow close) = n).
  { unfold Col.ema_slow. rewrite length_EMA; [done |]. unfold DanielsNumber1.ema_slow. lia. }
  assert (length (Col.sma_trend close) = n).
  { unfold Col.sma_trend. rewrite length_SMA; [done |]. unfold DanielsNumber1.sma_trend. lia. }
  unfold indicator_columns in Hin. unfold Col.indicators.
  repeat (apply elem_of_cons in Hin as [-> | Hin]); [.. | by apply elem_of_nil in Hin];
    repeat first [ rewrite lookup_insert_eq | rewrite lookup_insert_ne by name_ne ];
    intros [= <-]; simpl; try done;
    unfold Col.bull_regime, Col.bear_regime, Col.highest, Col.lowest, Col.volume_sma,
      Col.atr_avg, Col.post_distribution, Col.post_distribution_rolled, Col.distribution,
      Col.atr_compressed, Col.range_position, Col.range_denominator, Col.range_size,
      Col.range_high, Col.range_low, Col.no_atr_spike, Col.atr_recent_min, Col.atr_avg,
      s_gt, s_lt, s_sub, s_div, s_and, s_or, s_not, s_mul_c, s_gt_c, replace, astype_float,
      rolling_max, rolling_min, rolling_mean;
    repeat first [ rewrite length_zip_with | rewrite length_fmap | rewrite length_shift
                 | rewrite length_rolling ];
    lia.
Qed.

Lemma indicators_lookup_in (high low close volume : fseries) (dataframe : DataFrame)
    (name : string) :
  name ∈ indicator_columns →
  Col.indicators high low close volume dataframe !! name
  = Col.indicators high low close volume ∅ !! name.
Proof.
  unfold indicator_columns, Col.indicators. intros Hin.
  repeat (apply elem_of_cons in Hin as [-> | Hin]); [.. | by apply elem_of_nil in Hin];
    repeat first [ rewrite lookup_insert_eq | rewrite lookup_insert_ne by name_ne ];
    reflexivity.
Qed.

Lemma getF_rectangular (n : nat) (dataframe : DataFrame) (name : string) (xs : fseries) :
  rectangular n dataframe → getF dataframe name = Some xs → length xs = n.
Proof.
  intros Hrect H. apply getF_Some in H as [H | (bs & H & ->)].
  - exact (Hrect _ _ H).
  - unfold astype_float. rewrite length_fmap. exact (Hrect _ _ H).
Qed.

Lemma getB_rectangular (n : nat) (dataframe : DataFrame) (name : string) (bs : bseries) :
  rectangular n dataframe → getB dataframe name = Some bs → length bs = n.
Proof. intros Hrect H. apply getB_Some in H. exact (Hrect _ _ H). Qed.

Lemma fillna_False_rectangular (n : nat) (dataframe : DataFrame) (name : string)
    (bs : bseries) :
  rectangular n dataframe → fillna_False dataframe name = Some bs → length bs = n.
Proof.
  intros Hrect. unfold fillna_False.
  destruct (dataframe !! name) as [[xs | bs' | os |]|] eqn:E; intros H;
    try discriminate H.
  - destruct (forallb isnan xs); [| discriminate H]. injection H as <-.
    rewrite length_replicate. exact (Hrect _ _ E).
  - injection H as <-. exact (Hrect _ _ E).
  - injection H as <-. rewrite length_fmap. exact (Hrect _ _ E).
Qed.

Lemma rectangular_insert (n : nat) (dataframe : DataFrame) (name : string) (c : column) :
  rectangular n dataframe → column_length c = n → rectangular n (<[name := c]> dataframe).
Proof.
  intros Hrect Hc k c' H. rewrite lookup_insert in H.
  case_decide; simplify_eq; [done | by eapply Hrect].
Qed.

Lemma loc_set_rectangular (n : nat) (mask : bseries) (name : string) (v : Q)
    (df df' : DataFrame) :
  rectangular n df → length mask = n → loc_set mask name v df = Some df' →
  rectangular n df'.
Proof.
  intros Hrect Hm. unfold loc_set.
  destruct (df !! name) as [[old| | |]|] eqn:E; intros H; simplify_eq;
    apply rectangular_insert; try done; simpl.
  - rewrite length_zip_with. pose proof (Hrect _ _ E) as Hold. simpl in Hold. lia.
  - by rewrite length_fmap.
Qed.

Lemma length_long_mask (n : nat)
    (volume volume_sma close atr atr_avg highest ema_slow : fseries) (bull_regime : bseries) :
  length volume = n → length volume_sma = n → length close = n → length atr = n →
  length atr_avg = n → length highest = n → length ema_slow = n → length bull_regime = n →
  length (Col.long_mask volume volume_sma close atr atr_avg highest ema_slow bull_regime) = n.
Proof.
  intros. unfold Col.long_mask, Col.vol_surge, Col.mom_up, Col.volatility_ok,
    s_and, s_gt, s_lt, s_mul_c.
  repeat first [ rewrite length_zip_with | rewrite length_fmap | rewrite length_shift ].
  lia.
Qed.

Lemma length_short_mask (n : nat)
    (volume volume_sma close atr atr_avg lowest ema_slow : fseries)
    (bear_regime no_atr_spike post_distribution : bseries) :
  length volume = n → length volume_sma = n → length close = n → length atr = n →
  length atr_avg = n → length lowest = n → length ema_slow = n → length bear_regime = n →
  length no_atr_spike = n → length post_distribution = n →
  length (Col.short_mask volume volume_sma close atr atr_avg lowest ema_slow
            bear_regime no_atr_spike post_distribution) = n.
Proof.
  intros. unfold Col.short_mask, Col.short_base, Col.vol_surge_short, Col.mom_down,
    Col.vol_surge_short_boosted, Col.mom_down_boosted, Col.volatility_ok,
    s_and, s_or, s_gt, s_lt, s_mul_c.
  repeat first [ rewrite length_zip_with | rewrite length_fmap | rewrite length_shift ].
  lia.
Qed.

(** What a successful [populate_entry_trend] did, on a frame with [n] rows:
    two [loc] writes with masks of [n] rows. *)
Lemma populate_entry_trend_writes (n : nat) (dataframe df' : DataFrame)
    (metadata : gmap string string) :
  rectangular n dataframe →
  DanielsNumber1.populate_entry_trend dataframe metadata = Some df' →
  ∃ long short df1,
    length long = n ∧ length short = n ∧
    loc_set long "enter_long" 1 dataframe = Some df1 ∧
    loc_set short "enter_short" 1 df1 = Some df'.
Proof.
  intros Hrect H.
  apply populate_entry_trend_inv in H
    as (v & vs & c & a & aa & hi & lo & es & bull & bear & sp & pd & df1 & H).
  destruct H as (E1 & E2 & E3 & E4 & E5 & E6 & E7 & E8 & E9 & E10 & E11 & E12 & Hlong & Hshort).
  eexists _, _, df1. split_and!; [| | exact Hlong | exact Hshort].
  - apply length_long_mask;
      first [ by eapply getF_rectangular | by eapply getB_rectangular ].
  - apply length_short_mask;
      first [ by eapply getF_rectangular | by eapply getB_rectangular
            | by eapply fillna_False_rectangular ].
Qed.

(** X5: the methods keep the frame rectangular: on a frame whose columns
    all have [n] rows, every column of the result has [n] rows. *)
Theorem methods_keep_row_count :
  (∀ (n : nat) (dataframe df' : DataFrame) (metadata : gmap string string),
     rectangular n dataframe →
     DanielsNumber1.populate_indicators dataframe metadata = Some df' →
     rectangular n df') ∧
  (∀ (n : nat) (dataframe df' : DataFrame) (metadata : gmap string string),
     rectangular n dataframe →
     DanielsNumber1.populate_entry_trend dataframe metadata = Some df' →
     rectangular n df').
Proof.
  split.
  - intros n dataframe df' metadata Hrect H.
    apply populate_indicators_inv in H as (h & l & c & v & Hh & Hl & Hc & Hv & ->).
    intros name col Hcol.
    destruct (decide (name ∈ indicator_columns)) as [Hin|Hout].
    + rewrite indicators_lookup_in in Hcol by done.
      eapply (indicators_column_length n h l c v); [.. | exact Hin | exact Hcol];
        by eapply getF_rectangular.
    + rewrite indicators_lookup_other in Hcol by done. by eapply Hrect.
  - intros n dataframe df' metadata Hrect H.
    destruct (populate_entry_trend_writes n _ _ _ Hrect H)
      as (long & short & df1 & Ll & Ls & Hlong & Hshort).
    eapply loc_set_rectangular; [| exact Ls | exact Hshort].
    eapply loc_set_rectangular; [exact Hrect | exact Ll | exact Hlong].
Qed.

Lemma loc_set_keeps_set (mask : bseries) (name : string) (df df' : DataFrame) (i : nat) :
  loc_set mask name 1 df = Some df' → i < length mask →
  is_set df name i → is_set df' name i.
Proof.
  unfold is_set, at_, loc_set. intros H Hi Hset.
  destruct (df !! name) as [[old| | |]|] eqn:E; simplify_eq; try done.
  rewrite lookup_insert_eq. cbn [mbind option_bind column_cell] in Hset |- *.
  rewrite lookup_zip_with.
  destruct (lookup_lt_is_Some_2 mask i Hi) as [m ->].
  destruct (old !! i) as [o|]; [| done]. simpl in Hset |- *.
  injection Hset as ->. by destruct m.
Qed.

Lemma is_set_lookup (df df' : DataFrame) (name : string) (i : nat) :
  df' !! name = df !! name → is_set df name i → is_set df' name i.
Proof. unfold is_set, at_. by intros ->. Qed.

Lemma is_set_lt (n : nat) (df : DataFrame) (name : string) (i : nat) :
  rectangular n df → is_set df name i → i < n.
Proof.
  unfold is_set, at_. intros Hrect H.
  destruct (df !! name) as [c|] eqn:E; [| done]. cbn [mbind option_bind] in H.
  rewrite <- (Hrect _ _ E).
  destruct c; simpl in H |- *; apply fmap_Some in H as (x & Hx & _);
    by eapply lookup_lt_Some.
Qed.

(** X6: [populate_entry_trend] only ever sets flags: a row that holds 1 in
    [enter_long] or [enter_short] before the call holds 1 after it, whether
    or not its conditions are met now. *)
Theorem entry_flags_are_never_cleared (n : nat) (dataframe df' : DataFrame)
    (metadata : gmap string string) (name : string) (i : nat) :
  rectangular n dataframe →
  DanielsNumber1.populate_entry_trend dataframe metadata = Some df' →
  name = "enter_long" ∨ name = "enter_short" →
  is_set dataframe name i → is_set df' name i.
Proof.
  intros Hrect H Hname Hset.
  pose proof (is_set_lt n _ _ _ Hrect Hset) as Hi.
  destruct (populate_entry_trend_writes n _ _ _ Hrect H)
    as (long & short & df1 & Ll & Ls & Hlong & Hshort).
  destruct Hname as [-> | ->].
  - apply (is_set_lookup df1); [by rewrite (loc_set_lookup_ne _ _ _ _ _ _ Hshort) |].
    apply (loc_set_keeps_set _ _ _ _ _ Hlong); [lia | done].
  - apply (loc_set_keeps_set _ _ _ _ _ Hshort); [lia |].
    apply (is_set_lookup dataframe); [| done].
    by rewrite (loc_set_lookup_ne _ _ _ _ _ _ Hlong).
Qed.

(** ** C1, C2: the rows at which the entry flags are set *)

Lemma CFloat_inv (o : option float64) (x : float64) :
  CFloat <$> o = Some (CFloat x) → o = Some x.
Proof. destruct o as [y|]; simpl; [| done]. by intros [= ->]. Qed.

Lemma CBool_inv (o : option bool) (b : bool) :
  CBool <$> o = Some (CBool b) → o = Some b.
Proof. destruct o as [y|]; simpl; [| done]. by intros [= ->]. Qed.

Lemma at_lookup (dataframe : DataFrame) (name : string) (c : column) (i : nat) :
  dataframe !! name = Some c → at_ dataframe name i = column_cell c i.
Proof. unfold at_. by intros ->. Qed.

(** A float cell of a frame is the cell of the series the method reads. *)
Lemma at_getF (dataframe : DataFrame) (name : string) (i : nat) (x : float64)
    (xs : fseries) :
  at_ dataframe name i = Some (CFloat x) → getF dataframe name = Some xs → xs !! i = Some x.
Proof.
  unfold at_, getF. destruct (dataframe !! name) as [[ys|bs|os|ts]|]; simpl;
    intros H E; try discriminate E; try discriminate H.
  - injection E as <-. by apply CFloat_inv.
  - destruct (bs !! i); discriminate H.
Qed.

Lemma at_getB (dataframe : DataFrame) (name : string) (i : nat) (b : bool)
    (bs : bseries) :
  at_ dataframe name i = Some (CBool b) → getB dataframe name = Some bs → bs !! i = Some b.
Proof.
  unfold at_, getB. destruct (dataframe !! name) as [[ys|bs'|os|ts]|]; simpl;
    intros H E; try discriminate E; try discriminate H.
  injection E as <-. by apply CBool_inv.
Qed.

Lemma at_fillna_False (dataframe : DataFrame) (name : string) (i : nat) (b : bool)
    (bs : bseries) :
  at_ dataframe name i = Some (CBool b) → fillna_False dataframe name = Some bs →
  bs !! i = Some b.
Proof.
  unfold at_, fillna_False. destruct (dataframe !! name) as [[ys|bs'|os|ts]|]; simpl;
    intros H E; try discriminate E; try discriminate H.
  - destruct (ys !! i); discriminate H.
  - injection E as <-. by apply CBool_inv.
  - destruct (os !! i); discriminate H.
Qed.

(** The columns of the frame [populate_indicators] returns. *)
Lemma getF_indicator_columns (high low close volume : fseries) (dataframe : DataFrame) :
  let df := Col.indicators high low close volume dataframe in
  getF df "ema_fast" = Some (Col.ema_fast close) ∧
  getF df "ema_slow" = Some (Col.ema_slow close) ∧
  getF df "sma_trend" = Some (Col.sma_trend close) ∧
  getF df "highest" = Some (Col.highest high) ∧
  getF df "lowest" = Some (Col.lowest low) ∧
  getF df "volume_sma" = Some (Col.volume_sma volume) ∧
  getF df "atr" = Some (Col.atr high low close) ∧
  getF df "atr_avg" = Some (Col.atr_avg high low close).
Proof.
  cbv zeta. unfold getF, Col.indicators.
  repeat split;
    repeat first [ rewrite lookup_insert_eq | rewrite lookup_insert_ne by name_ne ];
    reflexivity.
Qed.

Lemma getB_indicator_columns (high low close volume : fseries) (dataframe : DataFrame) :
  let df := Col.indicators high low close volume dataframe in
  getB df "bull_regime" = Some (Col.bull_regime close) ∧
  getB df "bear_regime" = Some (Col.bear_regime close) ∧
  getB df "no_atr_spike" = Some (Col.no_atr_spike high low close) ∧
  fillna_False df "post_distribution" = Some (Col.post_distribution high low close).
Proof.
  cbv zeta. unfold getB, fillna_False, Col.indicators.
  repeat split;
    repeat first [ rewrite lookup_insert_eq | rewrite lookup_insert_ne by name_ne ];
    reflexivity.
Qed.

Lemma getF_indicators_candle (high low close volume : fseries) (dataframe : DataFrame) :
  let df := Col.indicators high low close volume dataframe in
  getF df "high" = getF dataframe "high" ∧ getF df "low" = getF dataframe "low" ∧
  getF df "close" = getF dataframe "close" ∧ getF df "volume" = getF dataframe "volume".
Proof.
  cbv zeta. unfold getF, Col.indicators.
  repeat split; by rewrite !lookup_insert_ne by name_ne.
Qed.

(** The series the entry method works on, when it runs on the result of
    [populate_indicators]. *)
Lemma entry_after_indicators (dataframe df1 df2 : DataFrame) (metadata : gmap string string) :
  DanielsNumber1.populate_indicators dataframe metadata = Some df1 →
  DanielsNumber1.populate_entry_trend df1 metadata = Some df2 →
  ∃ sH sL sC sV dfa,
    getF dataframe "high" = Some sH ∧ getF dataframe "low" = Some sL ∧
    getF dataframe "close" = Some sC ∧ getF dataframe "volume" = Some sV ∧
    df1 = Col.indicators sH sL sC sV dataframe ∧
    loc_set
      (Col.long_mask sV (Col.volume_sma sV) sC (Col.atr sH sL sC)
         (Col.atr_avg sH sL sC) (Col.highest sH) (Col.ema_slow sC)
         (Col.bull_regime sC))
      "enter_long" 1 df1 = Some dfa ∧
    loc_set
      (Col.short_mask sV (Col.volume_sma sV) sC (Col.atr sH sL sC)
         (Col.atr_avg sH sL sC) (Col.lowest sL) (Col.ema_slow sC)
         (Col.bear_regime sC) (Col.no_atr_spike sH sL sC)
         (Col.post_distribution sH sL sC))
      "enter_short" 1 dfa = Some df2.
Proof.
  intros Hpi Hpe.
  destruct (populate_indicators_inv _ _ _ Hpi)
    as (sH & sL & sC & sV & Hh & Hl & Hc & Hv & ->).
  destruct (populate_entry_trend_inv _ _ _ Hpe)
    as (sV' & volume_sma & sC' & atr & atr_avg & highest & lowest & ema_slow &
        bull & bear & spike & pd & dfa & E1 & E2 & E3 & E4 & E5 & E6 & E7 & E8 & E9 &
        E10 & E11 & E12 & Hlong & Hshort).
  destruct (getF_indicator_columns sH sL sC sV dataframe)
    as (_ & F2 & _ & F4 & F5 & F6 & F7 & F8).
  destruct (getB_indicator_columns sH sL sC sV dataframe) as (B1 & B2 & B3 & B4).
  destruct (getF_indicators_candle sH sL sC sV dataframe) as (_ & _ & C3 & C4).
  rewrite C4, Hv in E1. rewrite F6 in E2. rewrite C3, Hc in E3. rewrite F7 in E4.
  rewrite F8 in E5. rewrite F4 in E6. rewrite F5 in E7. rewrite F2 in E8.
  rewrite B1 in E9. rewrite B2 in E10. rewrite B3 in E11. rewrite B4 in E12.
  injection E1 as <-. injection E2 as <-. injection E3 as <-. injection E4 as <-.
  injection E5 as <-. injection E6 as <-. injection E7 as <-. injection E8 as <-.
  injection E9 as <-. injection E10 as <-. injection E11 as <-. injection E12 as <-.
  exists sH, sL, sC, sV, dfa. done.
Qed.

(** A fresh flag column holds 1 exactly where the mask is true. *)
Lemma loc_set_fresh_set (mask : bseries) (name : string) (df df' : DataFrame) (i : nat) :
  loc_set mask name 1 df = Some df' → df !! name = None →
  is_set df' name i ↔ mask !! i = Some true.
Proof.
  intros H Hnone. rewrite loc_set_fresh in H by done. injection H as <-.
  unfold is_set, at_. rewrite lookup_insert_eq.
  cbn [mbind option_bind column_cell]. rewrite list_lookup_fmap.
  destruct (mask !! i) as [[]|]; simpl; intuition congruence.
Qed.

Lemma is_set_loc_set_ne (mask : bseries) (name name' : string) (v : Q)
    (df df' : DataFrame) (i : nat) :
  loc_set mask name v df = Some df' → name ≠ name' →
  is_set df' name' i ↔ is_set df name' i.
Proof.
  intros H Hne. unfold is_set, at_. by rewrite (loc_set_lookup_ne _ _ _ _ _ _ H Hne).
Qed.

Lemma lookup_shift_cell (k : nat) (s : fseries) (i : nat) (x y : float64) :
  k ≤ i → s !! i = Some x → s !! (i - k) = Some y → shift k s !! i = Some y.
Proof.
  intros Hk Hx Hy. rewrite lookup_shift_ge; [done | done |]. by eapply lookup_lt_Some.
Qed.

Lemma bool_Some_true (b : bool) : Some b = Some true ↔ b = true.
Proof. intuition congruence. Qed.

(** C1: at a row where every indicator it reads is defined, [enter_long] is
    set exactly when the regime is bull (EMA-40 above EMA-80), the sC is
    above [highest] (the highest sH of the 28 rows strictly before the
    row), the sC is above EMA-80, the sV is above 2.7 times its
    20-period mean, the sC is above (1 + 0.02) times the sC five rows
    earlier, and the 14-period ATR is below 2.0 times its 50-period rolling
    mean.  The indicator values are the cells of the frame
    [populate_indicators] returns, and each product and the sum [1 + 0.02]
    are rounded as the code rounds them. *)
Theorem enter_long_iff (dataframe df1 df2 : DataFrame) (metadata : gmap string string)
    (i : nat) (c c5 v ef es hi vs a aa : Q) :
  DanielsNumber1.populate_indicators dataframe metadata = Some df1 →
  DanielsNumber1.populate_entry_trend df1 metadata = Some df2 →
  dataframe !! "enter_long" = None →
  5 ≤ i →
  at_ df1 "close" i = Some (CFloat (Some c)) →
  at_ df1 "close" (i - 5) = Some (CFloat (Some c5)) →
  at_ df1 "volume" i = Some (CFloat (Some v)) →
  at_ df1 "ema_fast" i = Some (CFloat (Some ef)) →
  at_ df1 "ema_slow" i = Some (CFloat (Some es)) →
  at_ df1 "highest" i = Some (CFloat (Some hi)) →
  at_ df1 "volume_sma" i = Some (CFloat (Some vs)) →
  at_ df1 "atr" i = Some (CFloat (Some a)) →
  at_ df1 "atr_avg" i = Some (CFloat (Some aa)) →
  (is_set df2 "enter_long" i ↔
     (es < ef ∧ hi < c ∧ es < c ∧ b64 (vs * b64 2.7) < v ∧
      b64 (c5 * b64 (1 + b64 0.02)) < c ∧ a < b64 (aa * 2.0))%Q) ∧
  (∀ high, getF dataframe "high" = Some high →
     window 28 high (i - 1) ≫= qmax_list = Some hi).
Proof.
  intros Hpi Hpe Hfresh H5 Hc Hc5 Hv Hef Hes Hhi Hvs Ha Haa.
  destruct (entry_after_indicators _ _ _ _ Hpi Hpe)
    as (sH & sL & sC & sV & dfa & Gh & Gl & Gc & Gv & -> & Hlong & Hshort).
  destruct (getF_indicator_columns sH sL sC sV dataframe)
    as (F1 & F2 & _ & F4 & _ & F6 & F7 & F8).
  destruct (getF_indicators_candle sH sL sC sV dataframe) as (_ & _ & C3 & C4).
  rewrite Gc in C3. rewrite Gv in C4.
  pose proof (at_getF _ _ _ _ _ Hc C3) as Lc.
  pose proof (at_getF _ _ _ _ _ Hc5 C3) as Lc5.
  pose proof (at_getF _ _ _ _ _ Hv C4) as Lv.
  pose proof (at_getF _ _ _ _ _ Hef F1) as Lef.
  pose proof (at_getF _ _ _ _ _ Hes F2) as Les.
  pose proof (at_getF _ _ _ _ _ Hhi F4) as Lhi.
  pose proof (at_getF _ _ _ _ _ Hvs F6) as Lvs.
  pose proof (at_getF _ _ _ _ _ Ha F7) as La.
  pose proof (at_getF _ _ _ _ _ Haa F8) as Laa.
  split.
  - rewrite (is_set_loc_set_ne _ _ _ _ _ _ i Hshort) by name_ne.
    rewrite (loc_set_fresh_set _ _ _ _ i Hlong)
      by (rewrite indicators_lookup_other; [done |];
          unfold indicator_columns; intros Hin;
          repeat (apply elem_of_cons in Hin as [Hin | Hin]; [discriminate Hin |]);
          by apply elem_of_nil in Hin).
    pose proof (lookup_shift_cell 5 sC i _ _ H5 Lc Lc5) as Ls.
    set (mask := Col.long_mask _ _ _ _ _ _ _ _).
    assert (mask !! i = Some
      (fgt (Some ef) (Some es) && fgt (Some c) (Some hi)
       && fgt (Some c) (Some es)
       && fgt (Some v) (fmul (Some vs) (Some DanielsNumber1.volume_mult))
       && fgt (Some c)
            (fmul (Some c5) (Some (b64 (1 + DanielsNumber1.momentum_pct))))
       && flt (Some a) (fmul (Some aa) (Some DanielsNumber1.atr_mult_max)))) as ->.
    { subst mask. unfold Col.long_mask, Col.bull_regime.
      repeat apply lookup_s_and.
      - by apply lookup_s_gt.
      - by apply lookup_s_gt.
      - by apply lookup_s_gt.
      - apply lookup_s_gt; [done |]. by apply lookup_s_mul_c.
      - apply lookup_s_gt; [done |]. by apply lookup_s_mul_c.
      - apply lookup_s_lt; [done |]. by apply lookup_s_mul_c. }
    rewrite bool_Some_true, !andb_true_iff, !fgt_fmul, flt_fmul, !fgt_Some.
    unfold DanielsNumber1.volume_mult, DanielsNumber1.momentum_pct,
      DanielsNumber1.atr_mult_max. tauto.
  - intros sH' Gh'. rewrite Gh in Gh'. injection Gh' as <-.
    assert (Hlen : i < length (Col.highest sH)) by (by eapply lookup_lt_Some).
    unfold Col.highest, rolling_max in Hlen. rewrite length_shift, length_rolling in Hlen.
    rewrite lookup_highest in Lhi by lia. by injection Lhi.
Qed.

(** C2: at a row where every indicator it reads is defined, [enter_short]
    is set exactly when the regime is bear (EMA-40 below EMA-80 and the sC
    below SMA-200), the sC is below [lowest] (the lowest sL of the 28
    rows strictly before the row), the sC is below EMA-80, the ATR is
    below 2.0 times its 50-period rolling mean, the ATR is not above 1.52
    times its 20-period rolling minimum, and either the standard branch
    (sV above 2.7 times its mean, sC below (1 - 0.03) times the sC
    five rows earlier) or the boosted branch ([post_distribution], sV
    above 2.2 times its mean, sC below (1 - 0.02) times the sC five
    rows earlier) holds.  The indicator values are the cells of the frame
    [populate_indicators] returns, and each product and difference is
    rounded as the code rounds it. *)
Theorem enter_short_iff (dataframe df1 df2 : DataFrame) (metadata : gmap string string)
    (i : nat) (atr : fseries) (c c5 v ef es sm lo vs a aa amin : Q) (pd : bool) :
  DanielsNumber1.populate_indicators dataframe metadata = Some df1 →
  DanielsNumber1.populate_entry_trend df1 metadata = Some df2 →
  dataframe !! "enter_short" = None →
  5 ≤ i →
  at_ df1 "close" i = Some (CFloat (Some c)) →
  at_ df1 "close" (i - 5) = Some (CFloat (Some c5)) →
  at_ df1 "volume" i = Some (CFloat (Some v)) →
  at_ df1 "ema_fast" i = Some (CFloat (Some ef)) →
  at_ df1 "ema_slow" i = Some (CFloat (Some es)) →
  at_ df1 "sma_trend" i = Some (CFloat (Some sm)) →
  at_ df1 "lowest" i = Some (CFloat (Some lo)) →
  at_ df1 "volume_sma" i = Some (CFloat (Some vs)) →
  getF df1 "atr" = Some atr → atr !! i = Some (Some a) →
  rolling_min 20 atr !! i = Some (Some amin) →
  at_ df1 "atr_avg" i = Some (CFloat (Some aa)) →
  at_ df1 "post_distribution" i = Some (CBool pd) →
  (is_set df2 "enter_short" i ↔
     ((ef < es ∧ c < sm) ∧ c < lo ∧ c < es ∧ a < b64 (aa * 2.0) ∧
      ¬ (b64 (amin * b64 1.52) < a) ∧
      ((b64 (vs * b64 2.7) < v ∧ c < b64 (c5 * b64 (1 - b64 0.03))) ∨
       (pd = true ∧ b64 (vs * b64 2.2) < v ∧ c < b64 (c5 * b64 (1 - b64 0.02)))))%Q) ∧
  (∀ low, getF dataframe "low" = Some low →
     window 28 low (i - 1) ≫= qmin_list = Some lo).
Proof.
  intros Hpi Hpe Hfresh H5 Hc Hc5 Hv Hef Hes Hsm Hlo Hvs Hatr La Hmin Haa Hpd.
  destruct (entry_after_indicators _ _ _ _ Hpi Hpe)
    as (sH & sL & sC & sV & dfa & Gh & Gl & Gc & Gv & -> & Hlong & Hshort).
  destruct (getF_indicator_columns sH sL sC sV dataframe)
    as (F1 & F2 & F3 & _ & F5 & F6 & F7 & F8).
  destruct (getB_indicator_columns sH sL sC sV dataframe) as (_ & _ & _ & B4).
  destruct (getF_indicators_candle sH sL sC sV dataframe) as (_ & _ & C3 & C4).
  rewrite Gc in C3. rewrite Gv in C4. rewrite F7 in Hatr. injection Hatr as <-.
  pose proof (at_getF _ _ _ _ _ Hc C3) as Lc.
  pose proof (at_getF _ _ _ _ _ Hc5 C3) as Lc5.
  pose proof (at_getF _ _ _ _ _ Hv C4) as Lv.
  pose proof (at_getF _ _ _ _ _ Hef F1) as Lef.
  pose proof (at_getF _ _ _ _ _ Hes F2) as Les.
  pose proof (at_getF _ _ _ _ _ Hsm F3) as Lsm.
  pose proof (at_getF _ _ _ _ _ Hlo F5) as Llo.
  pose proof (at_getF _ _ _ _ _ Hvs F6) as Lvs.
  pose proof (at_getF _ _ _ _ _ Haa F8) as Laa.
  pose proof (at_fillna_False _ _ _ _ _ Hpd B4) as Lpd.
  split.
  - rewrite (loc_set_fresh_set _ _ _ _ i Hshort)
      by (rewrite (loc_set_lookup_ne _ _ _ _ _ _ Hlong) by name_ne;
          rewrite indicators_lookup_other; [done |];
          unfold indicator_columns; intros Hin;
          repeat (apply elem_of_cons in Hin as [Hin | Hin]; [discriminate Hin |]);
          by apply elem_of_nil in Hin).
    pose proof (lookup_shift_cell 5 sC i _ _ H5 Lc Lc5) as Ls.
    set (mask := Col.short_mask _ _ _ _ _ _ _ _ _ _).
    assert (mask !! i = Some
      (flt (Some ef) (Some es) && flt (Some c) (Some sm)
       && flt (Some c) (Some lo)
       && flt (Some c) (Some es)
       && flt (Some a) (fmul (Some aa) (Some DanielsNumber1.atr_mult_max))
       && negb (fgt (Some a) (fmul (Some amin) (Some DanielsNumber1.atr_spike_threshold)))
       && ((fgt (Some v) (fmul (Some vs) (Some DanielsNumber1.volume_mult_short))
            && flt (Some c)
                 (fmul (Some c5) (Some (b64 (1 - DanielsNumber1.momentum_pct_short)))))
           || (pd
               && fgt (Some v) (fmul (Some vs) (Some DanielsNumber1.volume_mult_short_boosted))
               && flt (Some c)
                    (fmul (Some c5)
                       (Some (b64 (1 - DanielsNumber1.momentum_pct_short_boosted)))))))) as ->.
    { subst mask. unfold Col.short_mask, Col.short_base, Col.bear_regime, Col.no_atr_spike,
        Col.atr_recent_min.
      apply lookup_s_and; [repeat apply lookup_s_and | apply lookup_s_or; repeat apply lookup_s_and].
      - by apply lookup_s_lt.
      - by apply lookup_s_lt.
      - by apply lookup_s_lt.
      - by apply lookup_s_lt.
      - apply lookup_s_lt; [done |]. by apply lookup_s_mul_c.
      - apply lookup_s_not, lookup_s_gt; [done |]. by apply lookup_s_mul_c.
      - apply lookup_s_gt; [done |]. by apply lookup_s_mul_c.
      - apply lookup_s_lt; [done |]. by apply lookup_s_mul_c.
      - done.
      - apply lookup_s_gt; [done |]. by apply lookup_s_mul_c.
      - apply lookup_s_lt; [done |]. by apply lookup_s_mul_c. }
    rewrite bool_Some_true.
    rewrite !andb_true_iff, orb_true_iff, !andb_true_iff, negb_true_iff.
    rewrite <- not_true_iff_false.
    rewrite !fgt_fmul, !flt_fmul. unfold flt. rewrite !fgt_Some.
    unfold DanielsNumber1.volume_mult_short, DanielsNumber1.momentum_pct_short,
      DanielsNumber1.atr_mult_max, DanielsNumber1.atr_spike_threshold,
      DanielsNumber1.volume_mult_short_boosted, DanielsNumber1.momentum_pct_short_boosted.
    tauto.
  - intros sL' Gl'. rewrite Gl in Gl'. injection Gl' as <-.
    assert (Hlen : i < length (Col.lowest sL)) by (by eapply lookup_lt_Some).
    unfold Col.lowest, rolling_min in Hlen. rewrite length_shift, length_rolling in Hlen.
    rewrite lookup_lowest in Llo by lia. by injection Llo.
Qed.

(** ** The exit columns *)

Lemma nrows_rectangular (n : nat) (dataframe : DataFrame) :
  rectangular n dataframe → dataframe ≠ ∅ → nrows dataframe = n.
Proof.
  intros Hrect Hne. unfold nrows.
  destruct (map_to_list dataframe) as [|[k c] l] eqn:E.
  - by apply map_to_list_empty_iff in E.
  - apply (Hrect k). apply elem_of_map_to_list. rewrite E. apply list_elem_of_here.
Qed.

(** X7: [populate_exit_trend] never signals an exit: on a frame with [n]
    rows it leaves [exit_long] and [exit_short] holding 0 in each of the
    [n] rows, also when the frame came with exit columns that held
    something else, and it changes no other column. *)
Theorem exits_are_always_zero (n : nat) (dataframe : DataFrame)
    (metadata : gmap string string) :
  rectangular n dataframe → dataframe ≠ ∅ →
  ∃ df', DanielsNumber1.populate_exit_trend dataframe metadata = Some df' ∧
    df' !! "exit_long" = Some (ColFloat (replicate n (Some 0%Q))) ∧
    df' !! "exit_short" = Some (ColFloat (replicate n (Some 0%Q))) ∧
    (∀ name, name ≠ "exit_long" → name ≠ "exit_short" → df' !! name = dataframe !! name) ∧
    rectangular n df'.
Proof.
  intros Hrect Hne. unfold DanielsNumber1.populate_exit_trend.
  rewrite (nrows_rectangular n dataframe) by done.
  assert (Hrect1 : rectangular n (<["exit_long" := ColFloat (replicate n (Some 0%Q))]> dataframe)).
  { apply rectangular_insert; [done |]. simpl. by rewrite length_replicate. }
  rewrite (nrows_rectangular n (<["exit_long" := _]> dataframe)); [| done |]; cycle 1.
  { intros Hempty. apply (f_equal (lookup "exit_long")) in Hempty.
    by rewrite lookup_insert_eq, lookup_empty in Hempty. }
  eexists. split; [reflexivity |]. split_and!.
  - rewrite lookup_insert_ne by name_ne. apply lookup_insert_eq.
  - apply lookup_insert_eq.
  - intros name H1 H2. by rewrite !lookup_insert_ne by done.
  - apply rectangular_insert; [done |]. simpl. by rewrite length_replicate.
Qed.

(** ** Rows of a candle frame *)

Lemma at_indicator_bool (cs : list Candle) (name : string) (bs : bseries) (i : nat) :
  indicators_of cs !! name = Some (ColBool bs) →
  name ≠ "enter_long" → name ≠ "enter_short" →
  at_ (signals_of cs) name i = CBool <$> bs !! i.
Proof.
  intros H Hl Hs. unfold at_, signals_of.
  rewrite !lookup_insert_ne by done. by rewrite H.
Qed.

Lemma lookup_trailing_elem {A} (s : list A) (i w j : nat) (x : A) :
  w ≤ S i → S i - w ≤ j → j ≤ i → s !! j = Some x → x ∈ trailing s i w.
Proof.
  intros Hw H1 H2 Hx. unfold trailing. apply elem_of_take. exists (j - (S i - w)).
  split; [| lia]. rewrite lookup_drop. by replace (S i - w + (j - (S i - w))) with j by lia.
Qed.

(** X8: a long entry closes above the high of each of the 28 candles before
    it, a short entry below the low of each of them. *)
Theorem entries_break_every_candle_of_the_window (cs : list Candle) (i j : nat)
    (c cj : Candle) :
  cs !! i = Some c → cs !! j = Some cj → i - 28 ≤ j → j < i →
  ∃ df, analyze cs = Some df ∧
    (is_set df "enter_long" i → (high cj < close c)%Q) ∧
    (is_set df "enter_short" i → (close c < low cj)%Q).
Proof.
  intros Hc Hcj Hlo Hhi.
  assert (Hi : i < length cs) by (by eapply lookup_lt_Some).
  exists (signals_of cs). split; [apply analyze_eq |]. split.
  - rewrite enter_long_set. intros Hmask.
    pose proof (long_mask_warmup _ _ Hmask) as Hwarm.
    unfold DanielsNumber1.ema_slow in Hwarm.
    unfold long_mask_of, Col.long_mask in Hmask. rewrite !lookup_s_and_true in Hmask.
    destruct Hmask as (((((_ & Hbreak) & _) & _) & _) & _).
    apply lookup_s_gt_true in Hbreak as (x & y & Hx & Hy & Hlt).
    rewrite lookup_price, Hc in Hx. injection Hx as <-.
    rewrite lookup_highest_price in Hy by (unfold DanielsNumber1.breakout_period; lia).
    injection Hy as Hy.
    eapply Qle_lt_trans; [| exact Hlt].
    eapply qmax_list_ge; [exact Hy |].
    apply list_elem_of_fmap_2.
    apply (lookup_trailing_elem _ _ _ j); unfold DanielsNumber1.breakout_period; (lia || done).
  - rewrite enter_short_set. intros Hmask.
    pose proof (short_mask_warmup _ _ Hmask) as Hwarm.
    unfold DanielsNumber1.sma_trend in Hwarm.
    unfold short_mask_of, Col.short_mask, Col.short_base in Hmask.
    rewrite !lookup_s_and_true in Hmask.
    destruct Hmask as (((((_ & Hbreak) & _) & _) & _) & _).
    apply lookup_s_lt_true in Hbreak as (x & y & Hx & Hy & Hlt).
    rewrite lookup_price, Hc in Hx. injection Hx as <-.
    rewrite lookup_lowest_price in Hy by (unfold DanielsNumber1.breakout_period; lia).
    injection Hy as Hy.
    eapply Qlt_le_trans; [exact Hlt |].
    eapply qmin_list_le; [exact Hy |].
    apply list_elem_of_fmap_2.
    apply (lookup_trailing_elem _ _ _ j); unfold DanielsNumber1.breakout_period; (lia || done).
Qed.

(** ** The regime *)

Lemma lookup_NaN_or_warm (s : fseries) (i k : nat) :
  i < length s → (∀ x, s !! i = Some (Some x) → k ≤ i) → i < k → s !! i = Some NaN.
Proof.
  intros Hi Hwarm Hk. destruct (lookup_lt_is_Some_2 s i Hi) as [[x|] Hx]; [| done].
  specialize (Hwarm x Hx). lia.
Qed.

Lemma indicators_of_lookup_bull (cs : list Candle) :
  indicators_of cs !! "bull_regime" = Some (ColBool (Col.bull_regime (price close cs))).
Proof.
  unfold indicators_of, Col.indicators.
  rewrite !lookup_insert_ne by name_ne. apply lookup_insert_eq.
Qed.

Lemma indicators_of_lookup_bear (cs : list Candle) :
  indicators_of cs !! "bear_regime" = Some (ColBool (Col.bear_regime (price close cs))).
Proof.
  unfold indicators_of, Col.indicators.
  rewrite !lookup_insert_ne by name_ne. apply lookup_insert_eq.
Qed.

(** X9: a row is never in both regimes, and until EMA-80 exists (the rows
    before 79) it is in neither. *)
Theorem regimes_exclusive_and_neutral_in_warmup (cs : list Candle) (i : nat) :
  ∃ df, analyze cs = Some df ∧
    ¬ (at_ df "bull_regime" i = Some (CBool true) ∧
       at_ df "bear_regime" i = Some (CBool true)) ∧
    (i < 79 → i < length cs →
       at_ df "bull_regime" i = Some (CBool false) ∧
       at_ df "bear_regime" i = Some (CBool false)).
Proof.
  exists (signals_of cs). split; [apply analyze_eq |].
  rewrite (at_indicator_bool cs _ _ i (indicators_of_lookup_bull cs)) by done.
  rewrite (at_indicator_bool cs _ _ i (indicators_of_lookup_bear cs)) by done.
  split.
  - intros [Hbull Hbear].
    apply fmap_Some in Hbull as (b & Hbull & [= <-]).
    apply fmap_Some in Hbear as (b & Hbear & [= <-]).
    unfold Col.bear_regime in Hbear. apply lookup_s_and_true in Hbear as [Hbear _].
    apply lookup_s_gt_true in Hbull as (x & y & Hx & Hy & Hlt).
    apply lookup_s_lt_true in Hbear as (x' & y' & Hx' & Hy' & Hlt').
    rewrite Hx in Hx'. rewrite Hy in Hy'. simplify_eq.
    eapply Qlt_irrefl, Qlt_trans; eassumption.
  - intros H79 Hi.
    assert (Hslow : Col.ema_slow (price close cs) !! i = Some NaN).
    { apply (lookup_NaN_or_warm _ _ 79); [| | done].
      - unfold Col.ema_slow. rewrite length_EMA, length_price; [done |].
        unfold DanielsNumber1.ema_slow. lia.
      - intros x Hx. apply EMA_warmup in Hx. unfold DanielsNumber1.ema_slow in Hx. lia. }
    assert (Hfast : is_Some (Col.ema_fast (price close cs) !! i)).
    { apply lookup_lt_is_Some_2. unfold Col.ema_fast.
      rewrite length_EMA, length_price; [done |]. unfold DanielsNumber1.ema_fast. lia. }
    destruct Hfast as [ef Hfast].
    assert (Hsma : is_Some (Col.sma_trend (price close cs) !! i)).
    { apply lookup_lt_is_Some_2. unfold Col.sma_trend.
      rewrite length_SMA, length_price; [done |]. unfold DanielsNumber1.sma_trend. lia. }
    destruct Hsma as [sm Hsma].
    assert (Hclose : is_Some (price close cs !! i)).
    { apply lookup_lt_is_Some_2. by rewrite length_price. }
    destruct Hclose as [cl Hclose].
    unfold Col.bull_regime, Col.bear_regime.
    rewrite (lookup_s_gt _ _ _ _ _ Hfast Hslow).
    rewrite (lookup_s_and _ _ _ _ _ (lookup_s_lt _ _ _ _ _ Hfast Hslow)
               (lookup_s_lt _ _ _ _ _ Hclose Hsma)).
    unfold flt. simpl. by destruct ef.
Qed.

(** ** The spike filter where the ATR is missing *)

Lemma ATR_core_warmup (n : nat) (high low close : fseries) (i : nat) (x : Q) :
  TA.ATR_core n high low close !! i = Some (Some x) → n ≤ i.
Proof.
  unfold TA.ATR_core. destruct (length close <=? n).
  - intros H. by apply lookup_replicate_NaN in H.
  - apply lookup_NaN_prefix.
Qed.

Lemma ATR_warmup (high low close : fseries) (n i : nat) (x : Q) :
  TA.ATR high low close n !! i = Some (Some x) → n ≤ i.
Proof.
  unfold TA.ATR. intros H.
  pose proof (lookup_NaN_prefix _ _ _ _ H) as Hb.
  rewrite lookup_app_r, length_replicate in H by (by rewrite length_replicate).
  apply ATR_core_warmup in H. lia.
Qed.

(** A window that holds a [NaN] has no aggregate. *)
Lemma lookup_rolling_NaN (w : nat) (agg : list Q → float64) (s : fseries) (i j : nat) :
  i < length s → S i - w ≤ j → j ≤ i → s !! j = Some NaN →
  rolling w agg s !! i = Some NaN.
Proof.
  intros Hi H1 H2 Hj. rewrite lookup_rolling by done. f_equal.
  unfold window. destruct (S i <? w) eqn:E; [done |]. apply Nat.ltb_ge in E.
  assert (mapM id (trailing s i w) = None) as ->; [| done].
  apply mapM_None_2, Exists_exists. exists NaN. split; [| done].
  by apply (lookup_trailing_elem _ _ _ j).
Qed.

Lemma no_atr_spike_open (high low close : fseries) (i : nat) :
  i < length (Col.atr high low close) →
  Col.atr_recent_min high low close !! i = Some NaN →
  Col.no_atr_spike high low close !! i = Some true.
Proof.
  intros Hi Hmin. destruct (lookup_lt_is_Some_2 _ _ Hi) as [a Ha].
  unfold Col.no_atr_spike.
  rewrite (lookup_s_not _ _ _ (lookup_s_gt _ _ _ _ _ Ha (lookup_s_mul_c _ _ _ _ Hmin))).
  by destruct a.
Qed.

Lemma indicators_of_lookup_spike (cs : list Candle) :
  indicators_of cs !! "no_atr_spike"
  = Some (ColBool (Col.no_atr_spike (price high cs) (price low cs) (price close cs))).
Proof. unfold indicators_of, Col.indicators. apply lookup_insert_eq. Qed.

(** X10: where the 20-row minimum of the ATR is missing, the spike filter
    lets the row pass ([no_atr_spike] is [True]); on a candle frame that is
    every row before 33 (14 rows of ATR warm-up and 19 more for the
    window). *)
Theorem spike_filter_open_without_atr :
  (∀ (high low close : fseries) (i : nat),
     i < length (Col.atr high low close) →
     Col.atr_recent_min high low close !! i = Some NaN →
     Col.no_atr_spike high low close !! i = Some true) ∧
  (∀ (cs : list Candle) (i : nat),
     i < 33 → i < length cs →
     ∃ df, analyze cs = Some df ∧ at_ df "no_atr_spike" i = Some (CBool true)).
Proof.
  split; [exact no_atr_spike_open |].
  intros cs i H33 Hi. exists (signals_of cs). split; [apply analyze_eq |].
  rewrite (at_indicator_bool cs _ _ i (indicators_of_lookup_spike cs)) by done.
  rewrite no_atr_spike_open; [done | by rewrite length_atr_price |].
  unfold Col.atr_recent_min, rolling_min.
  apply (lookup_rolling_NaN _ _ _ _ (i - 19));
    [by rewrite length_atr_price | unfold DanielsNumber1.atr_spike_lookback; lia | lia |].
  apply (lookup_NaN_or_warm _ _ 14); [rewrite length_atr_price; lia | | lia].
  intros x Hx. unfold Col.atr in Hx. apply ATR_warmup in Hx.
  unfold DanielsNumber1.atr_period in Hx. lia.
Qed.

(** ** The range position on well-formed candles *)

Lemma qmin_list_is_Some (l : list Q) : 0 < length l → is_Some (qmin_list l).
Proof. destruct l; simpl; [lia | eauto]. Qed.

(** X11: with a full window of well-formed candles (low <= close <= high)
    the range position lies in [0, 1] whatever the width of the range; when
    the range has no width the 1e-10 divisor is used and the position
    is 0. *)
Theorem range_position_in_unit_interval (cs : list Candle) (i : nat) (c : Candle) :
  47 ≤ i → cs !! i = Some c →
  Forall (λ c, low c <= close c ∧ close c <= high c)%Q (trailing cs i 48) →
  ∃ r rh rl,
    Col.range_position (price high cs) (price low cs) (price close cs) !! i = Some (Some r) ∧
    qmax_list (high <$> trailing cs i 48) = Some rh ∧
    qmin_list (low <$> trailing cs i 48) = Some rl ∧
    (0 <= r)%Q ∧ (r <= 1)%Q ∧ ((rh == rl)%Q → (r == 0)%Q).
Proof.
  intros Hi Hc Hvalid.
  assert (Hlen : i < length cs) by (by eapply lookup_lt_Some).
  assert (Hin : c ∈ trailing cs i 48) by (apply lookup_trailing_last; [lia | lia | done]).
  assert (Hc_ok : (low c <= close c ∧ close c <= high c)%Q).
  { rewrite Forall_forall in Hvalid. by apply Hvalid. }
  destruct (qmax_list_is_Some (high <$> trailing cs i 48)) as [rh Hrh].
  { rewrite length_fmap, length_trailing; lia. }
  destruct (qmin_list_is_Some (low <$> trailing cs i 48)) as [rl Hrl].
  { rewrite length_fmap, length_trailing; lia. }
  assert (Hlo : (rl <= low c)%Q).
  { eapply qmin_list_le; [done |]. by apply list_elem_of_fmap_2. }
  assert (Hhi : (high c <= rh)%Q).
  { eapply qmax_list_ge; [done |]. by apply list_elem_of_fmap_2. }
  destruct (range_quotient (close c) rl rh) as (r & Hr & _ & H0 & H1 & Hz); [lra | lra |].
  exists r, rh, rl. rewrite (lookup_range_position_window cs i c rh rl) by done.
  rewrite Hr. done.
Qed.

(** ** Values of the TA-Lib passes on price series *)

Lemma holds_mono (P P' : Q → Prop) (x : float64) :
  (∀ q, P q → P' q) → holds P x → holds P' x.
Proof. intros H (q & -> & Hq). exists q. auto. Qed.

Lemma holds_is_Some (P : Q → Prop) (x : float64) : holds P x → is_Some x.
Proof. intros (q & -> & _). by eexists. Qed.

Lemma Forall_holds_price (f : Candle → Q) (P : Q → Prop) (cs : list Candle) :
  Forall (λ c, P (f c)) cs → Forall (holds P) (price f cs).
Proof.
  unfold price. intros H. apply Forall_fmap. eapply Forall_impl; [exact H |].
  intros c Hc. by exists (f c).
Qed.

Lemma Forall_holds_lookup (P : Q → Prop) (s : fseries) (i : nat) :
  Forall (holds P) s → i < length s → ∃ q, s !! i = Some (Some q) ∧ P q.
Proof.
  intros H Hi. destruct (lookup_lt_is_Some_2 s i Hi) as [x Hx].
  destruct (proj1 (Forall_lookup _ _) H i x Hx) as (q & -> & Hq). eauto.
Qed.

Lemma of_nat_pos (n : nat) : 0 < n → (0 < inject_Z (Z.of_nat n))%Q.
Proof. intros. unfold Qlt. simpl. lia. Qed.

Lemma of_nat_ge_1 (n : nat) : 0 < n → (1 <= inject_Z (Z.of_nat n))%Q.
Proof. intros. unfold Qle. simpl. lia. Qed.

Lemma fdiv_of_nat (s : Q) (n : nat) :
  0 < n → fdiv (Some s) (of_nat n) = Some (b64 (s / inject_Z (Z.of_nat n))).
Proof.
  intros Hn. unfold fdiv, of_nat.
  destruct (Qeq_bool (inject_Z (Z.of_nat n)) 0) eqn:E; [| done].
  apply Qeq_bool_iff in E. pose proof (of_nat_pos n Hn). lra.
Qed.

(** A property of cells that the rounded operations of a pass preserve. *)
Lemma foldl_fadd_holds (P : Q → Prop) (l : fseries) (a : Q) :
  (∀ x y, P x → P y → P (b64 (x + y))) →
  P a → Forall (holds P) l → holds P (foldl fadd (Some a) l).
Proof.
  intros Hadd. revert a. induction l as [|x l IH]; intros a Ha Hl; [by exists a |].
  apply Forall_cons in Hl as [(q & -> & Hq) Hl].
  change (foldl fadd (Some a) (Some q :: l)) with (foldl fadd (Some (b64 (a + q))) l).
  apply IH; [by apply Hadd | done].
Qed.

Lemma mean_holds (P : Q → Prop) (l : fseries) (n : nat) :
  (∀ x y, P x → P y → P (b64 (x + y))) →
  (∀ x, P x → P (b64 (x / inject_Z (Z.of_nat n)))) →
  P 0%Q → 0 < n → Forall (holds P) l →
  holds P (fdiv (fsum l) (of_nat n)).
Proof.
  intros Hadd Hdiv H0 Hn Hl.
  destruct (foldl_fadd_holds P l 0 Hadd H0 Hl) as (s & Hs & Hb).
  unfold fsum. rewrite Hs, fdiv_of_nat by done. eexists. split; [done |]. by apply Hdiv.
Qed.

Lemma nonneg_add (x y : Q) : (0 <= x)%Q → (0 <= y)%Q → (0 <= b64 (x + y))%Q.
Proof. intros. apply b64_nonneg. lra. Qed.

Lemma nonneg_div (n : nat) (x : Q) :
  0 < n → (0 <= x)%Q → (0 <= b64 (x / inject_Z (Z.of_nat n)))%Q.
Proof.
  intros Hn Hx. apply b64_nonneg. pose proof (of_nat_pos n Hn).
  apply Qle_shift_div_l; lra.
Qed.

Lemma Forall_is_Some_price (f : Candle → Q) (cs : list Candle) :
  Forall (holds (λ _, True)) (price f cs).
Proof. apply Forall_holds_price, Forall_true. done. Qed.

Lemma Forall_tail {A} (P : A → Prop) (l : list A) : Forall P l → Forall P (tail l).
Proof. destruct l; simpl; [done |]. by intros [_ H]%Forall_cons. Qed.

(** *** EMA and SMA: a number at every row from the first full window on *)

Lemma ema_run_defined (k prev : Q) (xs : fseries) :
  Forall (holds (λ _, True)) xs →
  Forall (holds (λ _, True)) (TA.ema_run (Some k) (Some prev) xs).
Proof.
  revert prev. induction xs as [|x xs IH]; intros prev Hxs; [constructor |].
  apply Forall_cons in Hxs as [(q & -> & _) Hxs].
  cbn [TA.ema_run fsub fmul fadd lift2]. constructor; [by eexists | by apply IH].
Qed.

Lemma EMA_core_defined (n : nat) (s : fseries) (i : nat) :
  0 < n → Forall (holds (λ _, True)) s → n - 1 ≤ i → i < length s →
  ∃ e, TA.EMA_core n s !! i = Some (Some e).
Proof.
  intros Hn Hs Hwarm Hi. unfold TA.EMA_core.
  assert ((length s <? n) = false) as -> by (apply Nat.ltb_ge; lia).
  rewrite fdiv_of_nat by lia.
  destruct (mean_holds (λ _, True) (take n s) n) as (m & -> & _);
    [done | done | done | done | by apply Forall_take |].
  rewrite lookup_app_r, length_replicate by (rewrite length_replicate; lia).
  destruct (Forall_holds_lookup (λ _, True)
              (Some m :: TA.ema_run (Some (b64 (2 / inject_Z (Z.of_nat (n + 1))))) (Some m)
                           (drop n s)) (i - (n - 1))) as (e & He & _).
  - constructor; [by exists m |]. apply ema_run_defined. by apply Forall_drop.
  - simpl. rewrite length_ema_run, length_drop. lia.
  - eauto.
Qed.

Lemma sma_run_defined (n : nat) (total : Q) (trailing xs : fseries) :
  0 < n → Forall (holds (λ _, True)) trailing → Forall (holds (λ _, True)) xs →
  Forall (holds (λ _, True)) (TA.sma_run (of_nat n) (Some total) trailing xs).
Proof.
  intros Hn. revert total trailing.
  induction xs as [|x xs IH]; intros total [|t trailing] Ht Hxs; try constructor.
  - apply Forall_cons in Hxs as [(q & -> & _) _]. cbn [fadd lift2].
    rewrite fdiv_of_nat by done. by eexists.
  - apply Forall_cons in Hxs as [(q & -> & _) Hxs].
    apply Forall_cons in Ht as [(u & -> & _) Ht].
    cbn [fadd fsub lift2]. by apply IH.
Qed.

Lemma SMA_core_defined (n : nat) (s : fseries) (i : nat) :
  0 < n → Forall (holds (λ _, True)) s → n - 1 ≤ i → i < length s →
  ∃ m, TA.SMA_core n s !! i = Some (Some m).
Proof.
  intros Hn Hs Hwarm Hi.
  pose proof (length_SMA_core n s Hn) as Hlen. unfold TA.SMA_core in *.
  assert ((length s <? n) = false) as E by (apply Nat.ltb_ge; lia). rewrite E in *.
  destruct (foldl_fadd_holds (λ _, True) (take (n - 1) s) 0) as (t & Ht & _);
    [done | done | by apply Forall_take |].
  unfold fsum in *. rewrite Ht in *.
  rewrite length_app, length_replicate in Hlen.
  rewrite lookup_app_r, length_replicate by (rewrite length_replicate; lia).
  destruct (Forall_holds_lookup (λ _, True)
              (TA.sma_run (of_nat n) (Some t) s (drop (n - 1) s)) (i - (n - 1)))
    as (m & Hm & _); [| lia | eauto].
  apply sma_run_defined; [done | done | by apply Forall_drop].
Qed.

(** *** ATR: never negative *)

Lemma true_range_nonneg (h l c : Q) :
  holds (λ q, 0 <= q)%Q (TA.true_range (Some h) (Some l) (Some c)).
Proof.
  unfold TA.true_range. simpl.
  pose proof (Qabs_nonneg (b64 (c - h))). pose proof (Qabs_nonneg (b64 (c - l))).
  destruct (Qltb (b64 (h - l)) (Qabs (b64 (c - h)))) eqn:E1; simpl.
  - destruct (Qltb (Qabs (b64 (c - h))) (Qabs (b64 (c - l)))); by eexists.
  - apply not_true_iff_false in E1. rewrite Qltb_lt in E1. apply Qnot_lt_le in E1.
    destruct (Qltb (b64 (h - l)) (Qabs (b64 (c - l)))); eexists; (split; [done |]);
      [done | lra].
Qed.

Lemma trange_nonneg (hs ls cs : fseries) :
  Forall (holds (λ _, True)) hs → Forall (holds (λ _, True)) ls →
  Forall (holds (λ _, True)) cs →
  Forall (holds (λ q, 0 <= q)%Q) (TA.trange hs ls cs).
Proof.
  revert ls cs. induction hs as [|h hs IH]; intros [|l ls] [|c cs] Hh Hl Hc; simpl;
    try constructor.
  - apply Forall_cons in Hh as [(h' & -> & _) _]. apply Forall_cons in Hl as [(l' & -> & _) _].
    apply Forall_cons in Hc as [(c' & -> & _) _]. apply true_range_nonneg.
  - apply Forall_cons in Hh as [_ Hh]. apply Forall_cons in Hl as [_ Hl].
    apply Forall_cons in Hc as [_ Hc]. by apply IH.
Qed.

Lemma atr_step_nonneg (n : nat) (prev q : Q) :
  0 < n → (0 <= prev)%Q → (0 <= q)%Q →
  holds (λ r, 0 <= r)%Q
    (fdiv (fadd (fmul (Some prev) (fsub (of_nat n) (Some 1%Q))) (Some q)) (of_nat n)).
Proof.
  intros Hn Hprev Hq. pose proof (of_nat_ge_1 n Hn) as Hge.
  change (fadd (fmul (Some prev) (fsub (of_nat n) (Some 1%Q))) (Some q))
    with (Some (b64 (b64 (prev * b64 (inject_Z (Z.of_nat n) - 1)) + q))).
  rewrite fdiv_of_nat by done. eexists. split; [done |].
  apply nonneg_div; [done |]. apply nonneg_add; [| done].
  apply b64_nonneg. pose proof (b64_nonneg (inject_Z (Z.of_nat n) - 1) ltac:(lra)). nra.
Qed.

Lemma atr_run_nonneg (n : nat) (prev : Q) (trs : fseries) :
  0 < n → (0 <= prev)%Q → Forall (holds (λ q, 0 <= q)%Q) trs →
  Forall (holds (λ q, 0 <= q)%Q) (TA.atr_run (of_nat n) (Some prev) trs).
Proof.
  intros Hn. revert prev. induction trs as [|t trs IH]; intros prev Hprev Htrs; [constructor |].
  apply Forall_cons in Htrs as [(q & -> & Hq) Htrs].
  destruct (atr_step_nonneg n prev q Hn Hprev Hq) as (r & Hr & Hrb).
  cbn [TA.atr_run]. rewrite Hr.
  constructor; [by exists r | by apply IH].
Qed.

Lemma mean_nonneg (l : fseries) (n : nat) :
  0 < n → Forall (holds (λ q, 0 <= q)%Q) l →
  holds (λ q, 0 <= q)%Q (fdiv (fsum l) (of_nat n)).
Proof.
  intros Hn Hl. apply mean_holds; try done.
  - apply nonneg_add.
  - intros x. by apply nonneg_div.
Qed.

Lemma ATR_core_price_nonneg (n : nat) (cs : list Candle) (i : nat) :
  0 < n → n ≤ i → i < length cs →
  ∃ a, TA.ATR_core n (price high cs) (price low cs) (price close cs) !! i = Some (Some a) ∧
       (0 <= a)%Q.
Proof.
  intros Hn Hwarm Hi. unfold TA.ATR_core. rewrite length_price.
  assert ((length cs <=? n) = false) as -> by (apply Nat.leb_gt; lia).
  set (tr := TA.trange (tail (price high cs)) (tail (price low cs)) (price close cs)).
  assert (Htr : Forall (holds (λ q, 0 <= q)%Q) tr).
  { apply trange_nonneg; try apply Forall_tail; apply Forall_is_Some_price. }
  assert (Hlen : length tr = length cs - 1).
  { unfold tr. rewrite length_trange, !length_tail, !length_price. lia. }
  destruct (mean_nonneg (take n tr) n Hn) as (m & Hm & Hmb); [by apply Forall_take |].
  rewrite Hm.
  rewrite lookup_app_r, length_replicate by (rewrite length_replicate; lia).
  apply (Forall_holds_lookup (λ q, 0 <= q)%Q).
  - constructor; [by exists m |]. apply atr_run_nonneg; [done | done | by apply Forall_drop].
  - simpl. rewrite length_atr_run, length_drop. lia.
Qed.

(** *** The rolling mean of numbers *)

Lemma qmean_nonneg (l : list Q) :
  0 < length l → Forall (λ q, 0 <= q)%Q l → holds (λ q, 0 <= q)%Q (qmean l).
Proof.
  intros Hn Hl. unfold qmean. apply mean_nonneg; [done |].
  apply Forall_fmap. eapply Forall_impl; [exact Hl |]. intros q Hq. by exists q.
Qed.

Lemma qmean_defined (l : list Q) : 0 < length l → is_Some (qmean l).
Proof.
  intros Hn. unfold qmean.
  apply (holds_is_Some (λ _, True)), mean_holds; try done.
  apply Forall_fmap, Forall_true. intros q. by exists q.
Qed.

(** ** The float columns of a candle frame *)

Lemma at_indicator_float (cs : list Candle) (name : string) (xs : fseries) (i : nat) :
  indicators_of cs !! name = Some (ColFloat xs) →
  name ≠ "enter_long" → name ≠ "enter_short" →
  at_ (signals_of cs) name i = CFloat <$> xs !! i.
Proof.
  intros H Hl Hs. unfold at_, signals_of.
  rewrite !lookup_insert_ne by done. by rewrite H.
Qed.

Ltac indicator_lookup :=
  unfold indicators_of, Col.indicators;
  rewrite !lookup_insert_ne by name_ne; apply lookup_insert_eq.

Lemma at_ema_fast (cs : list Candle) (i : nat) :
  at_ (signals_of cs) "ema_fast" i
  = CFloat <$> TA.EMA_core DanielsNumber1.ema_fast (price close cs) !! i.
Proof.
  rewrite <- EMA_price. apply at_indicator_float; [indicator_lookup | name_ne | name_ne].
Qed.

Lemma at_ema_slow (cs : list Candle) (i : nat) :
  at_ (signals_of cs) "ema_slow" i
  = CFloat <$> TA.EMA_core DanielsNumber1.ema_slow (price close cs) !! i.
Proof.
  rewrite <- EMA_price. apply at_indicator_float; [indicator_lookup | name_ne | name_ne].
Qed.

Lemma at_sma_trend (cs : list Candle) (i : nat) :
  at_ (signals_of cs) "sma_trend" i
  = CFloat <$> TA.SMA (price close cs) DanielsNumber1.sma_trend !! i.
Proof. apply at_indicator_float; [indicator_lookup | name_ne | name_ne]. Qed.

Lemma at_volume_sma (cs : list Candle) (i : nat) :
  at_ (signals_of cs) "volume_sma" i = CFloat <$> Col.volume_sma (price volume cs) !! i.
Proof. apply at_indicator_float; [indicator_lookup | name_ne | name_ne]. Qed.

Lemma at_atr (cs : list Candle) (i : nat) :
  at_ (signals_of cs) "atr" i
  = CFloat <$> TA.ATR_core DanielsNumber1.atr_period
                 (price high cs) (price low cs) (price close cs) !! i.
Proof.
  rewrite <- ATR_price. apply at_indicator_float; [indicator_lookup | name_ne | name_ne].
Qed.

Lemma at_atr_avg (cs : list Candle) (i : nat) :
  at_ (signals_of cs) "atr_avg" i
  = CFloat <$> Col.atr_avg (price high cs) (price low cs) (price close cs) !! i.
Proof. apply at_indicator_float; [indicator_lookup | name_ne | name_ne]. Qed.

(** ** The ATR on a candle frame *)

Lemma lookup_trailing_inv {A} (s : list A) (i w k : nat) (x : A) :
  trailing s i w !! k = Some x → s !! (S i - w + k) = Some x ∧ k < w.
Proof.
  unfold trailing. intros H. apply lookup_take_Some in H as [H Hk].
  by rewrite lookup_drop in H.
Qed.

Lemma mapM_id_holds (P : Q → Prop) (l : fseries) :
  Forall (holds P) l → ∃ qs, mapM id l = Some qs ∧ Forall P qs ∧ length qs = length l.
Proof.
  induction 1 as [|x l (q & -> & Hq) _ (qs & IH & HP & Hlen)].
  - by exists [].
  - exists (q :: qs). split; [| split].
    + apply mapM_Some. constructor; [done |]. by apply mapM_Some.
    + by constructor.
    + simpl. by rewrite Hlen.
Qed.

Lemma lookup_atr_price (cs : list Candle) (i : nat) :
  DanielsNumber1.atr_period ≤ i → i < length cs →
  ∃ a, Col.atr (price high cs) (price low cs) (price close cs) !! i = Some (Some a) ∧
       (0 <= a)%Q.
Proof.
  intros Hw Hi. unfold Col.atr. rewrite ATR_price.
  apply ATR_core_price_nonneg; unfold DanielsNumber1.atr_period in *; lia.
Qed.

Lemma lookup_atr_avg_price (cs : list Candle) (i : nat) :
  DanielsNumber1.atr_period + DanielsNumber1.atr_avg_period - 1 ≤ i → i < length cs →
  ∃ a, Col.atr_avg (price high cs) (price low cs) (price close cs) !! i = Some (Some a) ∧
       (0 <= a)%Q.
Proof.
  unfold DanielsNumber1.atr_period, DanielsNumber1.atr_avg_period. intros Hw Hi.
  unfold Col.atr_avg, rolling_mean.
  rewrite lookup_rolling by (rewrite length_atr_price; lia).
  rewrite window_full by (unfold DanielsNumber1.atr_avg_period; lia).
  destruct (mapM_id_holds (λ q, 0 <= q)%Q
              (trailing (Col.atr (price high cs) (price low cs) (price close cs)) i
                 DanielsNumber1.atr_avg_period)) as (qs & -> & Hqs & Hlen).
  { apply Forall_lookup. intros k x Hk. apply lookup_trailing_inv in Hk as [Hk Hk50].
    unfold DanielsNumber1.atr_avg_period in *.
    destruct (lookup_atr_price cs (S i - 50 + k)) as (a & Ha & Hpos);
      [unfold DanielsNumber1.atr_period; lia | | ].
    - apply lookup_lt_Some in Hk. rewrite length_atr_price in Hk. done.
    - rewrite Ha in Hk. injection Hk as <-. by exists a. }
  rewrite length_trailing in Hlen
    by (rewrite ?length_atr_price; unfold DanielsNumber1.atr_avg_period; lia).
  cbn [mbind option_bind].
  destruct (qmean_nonneg qs) as (a & -> & Ha);
    [rewrite Hlen; unfold DanielsNumber1.atr_avg_period; lia | done | eauto].
Qed.

(** X14: the ATR of a candle series is never negative, whatever the candles
    hold, and neither is its 50-row average: [atr] from row 14 on, [atr_avg]
    from row 63 on. *)
Theorem atr_is_never_negative (cs : list Candle) (i : nat) :
  i < length cs →
  ∃ df, analyze cs = Some df ∧
    (14 ≤ i → ∃ a, at_ df "atr" i = Some (CFloat (Some a)) ∧ (0 <= a)%Q) ∧
    (63 ≤ i → ∃ a, at_ df "atr_avg" i = Some (CFloat (Some a)) ∧ (0 <= a)%Q).
Proof.
  intros Hi. exists (signals_of cs). split; [apply analyze_eq |]. split.
  - intros Hw. rewrite at_atr, <- ATR_price.
    destruct (lookup_atr_price cs i) as (a & Ha & Hpos);
      [unfold DanielsNumber1.atr_period; lia | done |].
    unfold Col.atr in Ha. rewrite Ha. eauto.
  - intros Hw. rewrite at_atr_avg.
    destruct (lookup_atr_avg_price cs i) as (a & -> & Hpos);
      [unfold DanielsNumber1.atr_period, DanielsNumber1.atr_avg_period; lia | done |].
    eauto.
Qed.

(** ** The rows at which each indicator starts *)

Lemma has_value_float (dataframe : DataFrame) (name : string) (i : nat) (x : float64) :
  at_ dataframe name i = Some (CFloat x) → has_value dataframe name i ↔ is_Some x.
Proof.
  intros H. unfold has_value. rewrite H. split.
  - intros (q & [= ->]). by eexists.
  - intros [q ->]. by exists q.
Qed.

Lemma has_value_lookup (dataframe : DataFrame) (name : string) (i k : nat) (xs : fseries) :
  at_ dataframe name i = CFloat <$> xs !! i → i < length xs →
  (∀ x, xs !! i = Some (Some x) → k ≤ i) →
  (k ≤ i → ∃ x, xs !! i = Some (Some x)) →
  has_value dataframe name i ↔ k ≤ i.
Proof.
  intros Hat Hi Hwarm Hdef. unfold has_value. rewrite Hat. split.
  - intros (q & Hq). destruct (xs !! i) as [[x|]|] eqn:E; try discriminate Hq.
    by apply (Hwarm x).
  - intros Hk. destruct (Hdef Hk) as (x & ->). by exists x.
Qed.

Lemma has_value_breakout_level (dataframe : DataFrame) (name : string)
    (agg : list Q → float64) (f : Candle → Q) (cs : list Candle) (i : nat) :
  at_ dataframe name i = breakout_level agg f cs i → i < length cs →
  (∀ l, 0 < length l → is_Some (agg l)) →
  has_value dataframe name i ↔ 28 ≤ i.
Proof.
  intros Hat Hi Hagg. unfold has_value. rewrite Hat. unfold breakout_level.
  rewrite decide_True by done. case_decide as H28.
  - split; [intros (q & Hq); discriminate Hq | lia].
  - destruct (Hagg (f <$> take 28 (drop (i - 28) cs))) as [m ->].
    { rewrite length_fmap, length_take, length_drop. lia. }
    split; [lia | by exists m].
Qed.

Lemma volume_sma_warmup (cs : list Candle) (i : nat) :
  i < length cs →
  (∃ x, Col.volume_sma (price volume cs) !! i = Some (Some x)) ↔ 19 ≤ i.
Proof.
  intros Hi. destruct (decide (19 ≤ i)) as [Hw | Hw].
  - rewrite lookup_volume_sma_price by (unfold DanielsNumber1.volume_sma_period; lia).
    destruct (qmean_defined (volume <$> trailing cs i DanielsNumber1.volume_sma_period))
      as [m ->].
    { rewrite length_fmap, length_trailing; unfold DanielsNumber1.volume_sma_period; lia. }
    split; [done | eauto].
  - unfold Col.volume_sma, rolling_mean.
    rewrite lookup_rolling by (by rewrite length_price).
    rewrite window_short by (unfold DanielsNumber1.volume_sma_period; lia).
    split; [intros (x & Hx); discriminate Hx | lia].
Qed.

Lemma atr_avg_warmup (cs : list Candle) (i : nat) :
  i < length cs →
  (∃ x, Col.atr_avg (price high cs) (price low cs) (price close cs) !! i = Some (Some x))
  ↔ 63 ≤ i.
Proof.
  intros Hi. destruct (decide (63 ≤ i)) as [Hw | Hw].
  - destruct (lookup_atr_avg_price cs i) as (a & Ha & _);
      [unfold DanielsNumber1.atr_period, DanielsNumber1.atr_avg_period; lia | done |].
    split; [done | eauto].
  - assert (Col.atr_avg (price high cs) (price low cs) (price close cs) !! i = Some NaN)
      as ->; [| split; [intros (x & Hx); discriminate Hx | lia]].
    unfold Col.atr_avg, rolling_mean.
    apply (lookup_rolling_NaN _ _ _ _ (i - 49)); rewrite ?length_atr_price;
      unfold DanielsNumber1.atr_avg_period; try lia.
    apply (lookup_NaN_or_warm _ _ DanielsNumber1.atr_period);
      rewrite ?length_atr_price; unfold DanielsNumber1.atr_period; try lia.
    intros x Hx. apply ATR_warmup in Hx. done.
Qed.

(** X15: on a candle frame every indicator column starts at a fixed row and
    is defined from there on: [volume_sma] at row 19, [highest] and [lowest]
    at 28, [ema_fast] at 39, [ema_slow] at 79, [sma_trend] at 199, [atr] at
    14 and [atr_avg] at 63; before its row the column holds [NaN].  All of
    them are therefore defined on the rows after the first
    [startup_candle_count]. *)
Theorem indicators_start_at_fixed_rows (cs : list Candle) (i : nat) :
  i < length cs →
  ∃ df, analyze cs = Some df ∧
    (has_value df "volume_sma" i ↔ 19 ≤ i) ∧
    (has_value df "highest" i ↔ 28 ≤ i) ∧
    (has_value df "lowest" i ↔ 28 ≤ i) ∧
    (has_value df "ema_fast" i ↔ 39 ≤ i) ∧
    (has_value df "ema_slow" i ↔ 79 ≤ i) ∧
    (has_value df "sma_trend" i ↔ 199 ≤ i) ∧
    (has_value df "atr" i ↔ 14 ≤ i) ∧
    (has_value df "atr_avg" i ↔ 63 ≤ i) ∧
    (DanielsNumber1.startup_candle_count ≤ i →
       Forall (λ name, has_value df name i)
         ["volume_sma"; "highest"; "lowest"; "ema_fast"; "ema_slow"; "sma_trend";
          "atr"; "atr_avg"]).
Proof.
  intros Hi. exists (signals_of cs). split; [apply analyze_eq |].
  assert (Hvol : has_value (signals_of cs) "volume_sma" i ↔ 19 ≤ i).
  { unfold has_value. rewrite at_volume_sma, <- (volume_sma_warmup cs i Hi).
    destruct (Col.volume_sma (price volume cs) !! i) as [[x|]|]; simpl;
      split; intros (q & Hq); try discriminate Hq; eauto. }
  assert (Hhigh : has_value (signals_of cs) "highest" i ↔ 28 ≤ i).
  { apply (has_value_breakout_level _ _ qmax_list high cs);
      [apply at_highest | done | apply qmax_list_is_Some]. }
  assert (Hlow : has_value (signals_of cs) "lowest" i ↔ 28 ≤ i).
  { apply (has_value_breakout_level _ _ qmin_list low cs);
      [apply at_lowest | done | apply qmin_list_is_Some]. }
  pose proof (Forall_is_Some_price close cs) as Hp.
  assert (Hfast : has_value (signals_of cs) "ema_fast" i ↔ 39 ≤ i).
  { apply (has_value_lookup _ _ _ _ _ (at_ema_fast cs i)).
    - rewrite length_EMA_core, length_price; [done | unfold DanielsNumber1.ema_fast; lia].
    - intros x Hx. apply EMA_core_warmup in Hx. unfold DanielsNumber1.ema_fast in Hx. lia.
    - intros Hw. apply EMA_core_defined;
        unfold DanielsNumber1.ema_fast; rewrite ?length_price; (done || lia). }
  assert (Hslow : has_value (signals_of cs) "ema_slow" i ↔ 79 ≤ i).
  { apply (has_value_lookup _ _ _ _ _ (at_ema_slow cs i)).
    - rewrite length_EMA_core, length_price; [done | unfold DanielsNumber1.ema_slow; lia].
    - intros x Hx. apply EMA_core_warmup in Hx. unfold DanielsNumber1.ema_slow in Hx. lia.
    - intros Hw. apply EMA_core_defined;
        unfold DanielsNumber1.ema_slow; rewrite ?length_price; (done || lia). }
  assert (Hsma : has_value (signals_of cs) "sma_trend" i ↔ 199 ≤ i).
  { apply (has_value_lookup _ _ _ _ _ (at_sma_trend cs i)).
    - rewrite SMA_price, length_SMA_core, length_price;
        [done | unfold DanielsNumber1.sma_trend; lia].
    - intros x Hx. apply SMA_warmup in Hx. unfold DanielsNumber1.sma_trend in Hx. lia.
    - intros Hw. rewrite SMA_price. apply SMA_core_defined;
        unfold DanielsNumber1.sma_trend; rewrite ?length_price; (done || lia). }
  assert (Hatr : has_value (signals_of cs) "atr" i ↔ 14 ≤ i).
  { apply (has_value_lookup _ _ _ _ _ (at_atr cs i)).
    - rewrite length_ATR_core; by rewrite !length_price.
    - intros x Hx. apply ATR_core_warmup in Hx. unfold DanielsNumber1.atr_period in Hx. lia.
    - intros Hw.
      destruct (ATR_core_price_nonneg DanielsNumber1.atr_period cs i) as (a & Ha & _);
        unfold DanielsNumber1.atr_period; try lia; eauto. }
  assert (Havg : has_value (signals_of cs) "atr_avg" i ↔ 63 ≤ i).
  { unfold has_value. rewrite at_atr_avg, <- (atr_avg_warmup cs i Hi).
    destruct (Col.atr_avg _ _ _ !! i) as [[x|]|]; simpl;
      split; intros (q & Hq); try discriminate Hq; eauto. }
  do 8 (split; [assumption |]).
  unfold DanielsNumber1.startup_candle_count. intros Hw.
  repeat (apply Forall_cons; split); [.. | apply Forall_nil_2].
  - apply Hvol; lia.
  - apply Hhigh; lia.
  - apply Hlow; lia.
  - apply Hfast; lia.
  - apply Hslow; lia.
  - apply Hsma; lia.
  - apply Hatr; lia.
  - apply Havg; lia.
Qed.

(** * The theorems on the concrete series *)

Lemma populate_entry_trend_undefined_frame :
  DanielsNumber1.populate_entry_trend undefined_frame ∅ = Some undefined_result.
Proof. vm_cast_no_check (eq_refl (Some undefined_result)). Qed.

Ltac cell_of col :=
  rewrite (at_lookup _ _ col _) by frame_lookup; vm_compute; reflexivity.

Lemma enter_long_iff_witness : ∃ df, analyze rising = Some df ∧ is_set df "enter_long" 79.
Proof.
  exists (signals_of rising). split; [apply analyze_eq |].
  pose (H := price high rising). pose (L := price low rising). pose (C := price close rising).
  apply (proj1 (enter_long_iff (frame_of_candles rising) (indicators_of rising)
                  (signals_of rising) ∅ 79
                  (close (rise 79)) (close (rise 74)) (volume (rise 79))
                  (value (TA.EMA C 40) 79) (value (TA.EMA C 80) 79)
                  (default 0%Q (qmax_list (high <$> trailing rising 78 28)))
                  (default 0%Q (qmean (volume <$> trailing rising 79 20)))
                  (value (TA.ATR H L C 14) 79)
                  (value (rolling_mean 50 (TA.ATR H L C 14)) 79)
                  (populate_indicators_candles rising ∅)
                  (populate_entry_trend_candles rising ∅)
                  ltac:(frame_lookup) ltac:(lia)
                  ltac:(cell_of (ColFloat C)) ltac:(cell_of (ColFloat C))
                  ltac:(cell_of (ColFloat (price volume rising)))
                  ltac:(cell_of (ColFloat (Col.ema_fast C)))
                  ltac:(cell_of (ColFloat (Col.ema_slow C)))
                  ltac:(cell_of (ColFloat (Col.highest H)))
                  ltac:(cell_of (ColFloat (Col.volume_sma (price volume rising))))
                  ltac:(cell_of (ColFloat (Col.atr H L C)))
                  ltac:(cell_of (ColFloat (Col.atr_avg H L C))))).
  vm_compute. repeat split.
Defined.

Lemma enter_short_iff_witness : ∃ df, analyze falling = Some df ∧ is_set df "enter_short" 199.
Proof.
  exists (signals_of falling). split; [apply analyze_eq |].
  pose (H := price high falling). pose (L := price low falling).
  pose (C := price close falling).
  apply (proj1 (enter_short_iff (frame_of_candles falling) (indicators_of falling)
                  (signals_of falling) ∅ 199 (Col.atr H L C)
                  (close (fall 199)) (close (fall 194)) (volume (fall 199))
                  (value (TA.EMA C 40) 199) (value (TA.EMA C 80) 199)
                  (value (TA.SMA C 200) 199)
                  (default 0%Q (qmin_list (low <$> trailing falling 198 28)))
                  (default 0%Q (qmean (volume <$> trailing falling 199 20)))
                  (value (TA.ATR H L C 14) 199)
                  (value (rolling_mean 50 (TA.ATR H L C 14)) 199)
                  (value (rolling_min 20 (TA.ATR H L C 14)) 199)
                  false
                  (populate_indicators_candles falling ∅)
                  (populate_entry_trend_candles falling ∅)
                  ltac:(frame_lookup) ltac:(lia)
                  ltac:(cell_of (ColFloat C)) ltac:(cell_of (ColFloat C))
                  ltac:(cell_of (ColFloat (price volume falling)))
                  ltac:(cell_of (ColFloat (Col.ema_fast C)))
                  ltac:(cell_of (ColFloat (Col.ema_slow C)))
                  ltac:(cell_of (ColFloat (Col.sma_trend C)))
                  ltac:(cell_of (ColFloat (Col.lowest L)))
                  ltac:(cell_of (ColFloat (Col.volume_sma (price volume falling))))
                  ltac:(unfold getF; frame_lookup)
                  ltac:(vm_compute; reflexivity) ltac:(vm_compute; reflexivity)
                  ltac:(cell_of (ColFloat (Col.atr_avg H L C)))
                  ltac:(cell_of (ColBool (Col.post_distribution H L C))))).
  vm_compute. repeat split; try (intros E; discriminate E). left. repeat split.
Defined.

Lemma no_lookahead_witness :
  ∃ df1 df2, analyze rising = Some df1 ∧ analyze (take 70 rising ++ drop 170 falling) = Some df2 ∧
    at_ df1 "ema_fast" 69 = at_ df2 "ema_fast" 69.
Proof.
  destruct (proj1 no_lookahead rising (take 70 rising ++ drop 170 falling) 69)
    as (df1 & df2 & H1 & H2 & H); [vm_compute; reflexivity |].
  exists df1, df2. split; [exact H1 |]. split; [exact H2 |]. apply H. lia.
Defined.

Lemma entries_unset_in_warmup_witness :
  ∃ df, analyze rising = Some df ∧ ¬ is_set df "enter_long" 78 ∧ ¬ is_set df "enter_short" 78.
Proof.
  destruct (entries_unset_in_warmup rising 78) as (df & H & Hl & Hs).
  exists df. split; [exact H |]. split; [apply Hl | apply Hs]; lia.
Defined.

(** C6 (as stated) fails: on [rising] the long entry is set at row 79 and
    on [falling] the short entry is set at row 199, both before
    [startup_candle_count]. *)
Lemma entries_set_before_startup :
  (∃ df, analyze rising = Some df ∧ 79 < DanielsNumber1.startup_candle_count ∧
         is_set df "enter_long" 79) ∧
  (∃ df, analyze falling = Some df ∧ 199 < DanielsNumber1.startup_candle_count ∧
         is_set df "enter_short" 199).
Proof.
  split.
  - exists (signals_of rising). split; [apply analyze_eq |].
    split; [unfold DanielsNumber1.startup_candle_count; lia |].
    apply enter_long_set. vm_compute. reflexivity.
  - exists (signals_of falling). split; [apply analyze_eq |].
    split; [unfold DanielsNumber1.startup_candle_count; lia |].
    apply enter_short_set. vm_compute. reflexivity.
Qed.

Lemma post_distribution_window_witness :
  ∃ df, analyze narrowing = Some df ∧
    at_ df "post_distribution" 70 ≠ Some (CBool true) ∧
    at_ df "post_distribution" 71 = Some (CBool true) ∧
    at_ df "post_distribution" 118 = Some (CBool true) ∧
    at_ df "post_distribution" 119 ≠ Some (CBool true).
Proof.
  destruct (post_distribution_window narrowing) as (df & H & _ & Hone).
  assert (Hlen : length narrowing = 125) by reflexivity.
  specialize (Hone 70 ltac:(rewrite Hlen; lia) ltac:(vm_compute; reflexivity)).
  exists df. split; [exact H |].
  split; [intros Hc; apply Hone in Hc; lia |].
  split; [apply Hone; lia |].
  split; [apply Hone; lia |].
  intros Hc; apply Hone in Hc; lia.
Defined.

Lemma range_position_safe_witness :
  ∃ r, Col.range_position (price high steady) (price low steady) (price close steady) !! 47
         = Some (Some r) ∧ r = b64 (b64 (2 - 1) / b64 (3 - 1)) ∧ (0 <= r)%Q ∧ (r <= 1)%Q.
Proof.
  destruct (proj2 (proj2 range_position_safe) steady 47 (mkCandle 0 2 3 1 2 1) 3%Q 1%Q)
    as (r & Hr & Hq & Hpos & H0 & H1).
  - lia.
  - reflexivity.
  - apply Forall_forall. intros c Hc. unfold steady, trailing in Hc.
    apply elem_of_take in Hc as (k & Hk & _). rewrite lookup_drop in Hk.
    apply lookup_replicate in Hk as [-> _]. split; unfold Qle; simpl; lia.
  - vm_compute. reflexivity.
  - vm_compute. reflexivity.
  - reflexivity.
  - exists r. split; [exact Hr |].
    split; [apply Hq, Hpos; vm_compute; reflexivity |].
    split; [exact H0 | exact H1].
Defined.

Lemma candle_columns_unchanged_witness :
  ∃ df1 df2,
    DanielsNumber1.populate_indicators (frame_of_candles rising) ∅ = Some df1 ∧
    DanielsNumber1.populate_entry_trend df1 ∅ = Some df2 ∧
    df1 !! "close" = frame_of_candles rising !! "close" ∧
    df2 !! "close" = frame_of_candles rising !! "close".
Proof.
  exists (indicators_of rising), (signals_of rising).
  split; [apply populate_indicators_candles |].
  split; [apply populate_entry_trend_candles |].
  apply (candle_columns_unchanged _ _ _ ∅ "close").
  - unfold candle_columns. do 4 apply list_elem_of_further. apply list_elem_of_here.
  - apply populate_indicators_candles.
  - apply populate_entry_trend_candles.
Defined.

Lemma undefined_post_distribution_is_false_witness :
  DanielsNumber1.populate_entry_trend undefined_frame ∅ = Some undefined_result ∧
  is_set undefined_result "enter_short" 6 ∧
  Col.vol_surge_short (flat6 1 ++ [Some 10%Q]) (flat6 1 ++ [Some 1%Q]) !! 6 = Some true ∧
  Col.mom_down (flat6 100 ++ [Some 90%Q]) !! 6 = Some true.
Proof.
  pose proof populate_entry_trend_undefined_frame as Hrun.
  assert (Hset : is_set undefined_result "enter_short" 6) by (vm_compute; reflexivity).
  destruct (proj2 undefined_post_distribution_is_false undefined_frame undefined_result ∅
              (replicate 7 None) 6
              (flat6 1 ++ [Some 10%Q]) (flat6 1 ++ [Some 1%Q]) (flat6 100 ++ [Some 90%Q])
              (flat6 1 ++ [Some 1%Q]) (flat6 1 ++ [Some 1%Q]) (flat6 99 ++ [Some 99%Q])
              (flat6 100 ++ [Some 100%Q]) (replicate 7 true) (replicate 7 true))
    as [Hstd _]; try exact Hrun; try (vm_compute; reflexivity).
  split; [exact Hrun |]. split; [exact Hset |].
  destruct (Hstd Hset) as (_ & Hv & Hm). split; [exact Hv | exact Hm].
Defined.

(** ** The further theorems on the concrete series *)

Lemma rectangular_frame_of_candles (cs : list Candle) :
  rectangular (length cs) (frame_of_candles cs).
Proof.
  intros name c H. unfold frame_of_candles in H.
  repeat (rewrite lookup_insert in H; case_decide;
          [injection H as <-; simpl; by rewrite ?length_price, ?length_fmap |]).
  by rewrite lookup_empty in H.
Qed.

Lemma rectangular_undefined_frame : rectangular 7 undefined_frame.
Proof.
  intros name c H. unfold undefined_frame in H.
  repeat (rewrite lookup_insert in H; case_decide; [by injection H as <- |]).
  by rewrite lookup_empty in H.
Qed.

Lemma rectangular_preset_frame : rectangular 7 preset_frame.
Proof.
  apply rectangular_insert; [apply rectangular_undefined_frame | reflexivity].
Qed.

Lemma populate_entry_trend_preset_frame :
  DanielsNumber1.populate_entry_trend preset_frame ∅ = Some preset_result.
Proof. vm_cast_no_check (eq_refl (Some preset_result)). Qed.

Lemma rectangular_undefined_result : rectangular 7 undefined_result.
Proof.
  unfold undefined_result.
  do 2 (apply rectangular_insert; [| reflexivity]). apply rectangular_undefined_frame.
Qed.

Lemma populate_indicators_needs_candles_witness :
  is_Some (DanielsNumber1.populate_indicators (frame_of_candles steady) ∅) ∧
  DanielsNumber1.populate_indicators (delete "volume" (frame_of_candles steady)) ∅ = None.
Proof.
  split.
  - apply (proj1 populate_indicators_needs_candles (frame_of_candles steady) ∅
             (price high steady) (price low steady) (price close steady)
             (price volume steady)); reflexivity.
  - apply (proj2 populate_indicators_needs_candles _ ∅ "volume").
    + do 3 apply list_elem_of_further. apply list_elem_of_here.
    + apply lookup_delete_eq.
Defined.

Lemma populate_entry_trend_needs_inputs_witness :
  DanielsNumber1.populate_entry_trend (delete "post_distribution" undefined_frame) ∅ = None ∧
  DanielsNumber1.populate_entry_trend (frame_of_candles rising) ∅ = None.
Proof.
  split.
  - apply (proj1 populate_entry_trend_needs_inputs _ ∅ "post_distribution").
    + unfold entry_inputs. do 11 apply list_elem_of_further. apply list_elem_of_here.
    + apply lookup_delete_eq.
  - apply (proj2 populate_entry_trend_needs_inputs).
Defined.

Lemma methods_write_only_their_columns_witness :
  indicators_of rising !! "open" = frame_of_candles rising !! "open" ∧
  undefined_result !! "post_distribution" = undefined_frame !! "post_distribution".
Proof.
  split.
  - apply (proj1 methods_write_only_their_columns (frame_of_candles rising) _ ∅ "open").
    + apply populate_indicators_candles.
    + unfold indicator_columns. intros H.
      repeat (apply elem_of_cons in H as [H | H]; [discriminate H |]).
      by apply elem_of_nil in H.
  - apply (proj2 methods_write_only_their_columns undefined_frame _ ∅ "post_distribution").
    + apply populate_entry_trend_undefined_frame.
    + intros H; discriminate H.
    + intros H; discriminate H.
Defined.

Lemma methods_idempotent_witness :
  DanielsNumber1.populate_indicators (indicators_of rising) ∅ = Some (indicators_of rising) ∧
  DanielsNumber1.populate_entry_trend undefined_result ∅ = Some undefined_result.
Proof.
  split.
  - apply (proj1 methods_idempotent (frame_of_candles rising) _ ∅).
    apply populate_indicators_candles.
  - apply (proj2 methods_idempotent undefined_frame _ ∅).
    apply populate_entry_trend_undefined_frame.
Defined.

Lemma methods_keep_row_count_witness :
  rectangular 80 (indicators_of rising) ∧ rectangular 7 undefined_result.
Proof.
  split.
  - apply (proj1 methods_keep_row_count 80 (frame_of_candles rising) _ ∅).
    + apply (rectangular_frame_of_candles rising).
    + apply populate_indicators_candles.
  - apply (proj2 methods_keep_row_count 7 undefined_frame _ ∅).
    + apply rectangular_undefined_frame.
    + apply populate_entry_trend_undefined_frame.
Defined.

Lemma entry_flags_are_never_cleared_witness :
  Col.long_mask (flat6 1 ++ [Some 10%Q]) (flat6 1 ++ [Some 1%Q]) (flat6 100 ++ [Some 90%Q])
    (flat6 1 ++ [Some 1%Q]) (flat6 1 ++ [Some 1%Q]) (flat6 101 ++ [Some 101%Q])
    (flat6 100 ++ [Some 100%Q]) (replicate 7 false) !! 0 = Some false ∧
  is_set preset_result "enter_long" 0.
Proof.
  split; [vm_compute; reflexivity |].
  apply (entry_flags_are_never_cleared 7 preset_frame preset_result ∅ "enter_long" 0).
  - apply rectangular_preset_frame.
  - apply populate_entry_trend_preset_frame.
  - by left.
  - reflexivity.
Defined.

Lemma exits_are_always_zero_witness :
  ∃ df', DanielsNumber1.populate_exit_trend undefined_result ∅ = Some df' ∧
    df' !! "exit_long" = Some (ColFloat (replicate 7 (Some 0%Q))) ∧
    df' !! "exit_short" = Some (ColFloat (replicate 7 (Some 0%Q))).
Proof.
  destruct (exits_are_always_zero 7 undefined_result ∅) as (df' & H & Hl & Hs & _).
  - apply rectangular_undefined_result.
  - apply insert_non_empty.
  - exists df'. split; [exact H |]. split; [exact Hl | exact Hs].
Defined.

Lemma entries_break_every_candle_of_the_window_witness :
  ∃ df, analyze rising = Some df ∧
    (is_set df "enter_long" 79 → (high (rise 60) < close (rise 79))%Q) ∧
    (is_set df "enter_short" 79 → (close (rise 79) < low (rise 60))%Q).
Proof.
  apply (entries_break_every_candle_of_the_window rising 79 60 (rise 79) (rise 60));
    (reflexivity || lia).
Defined.

Lemma regimes_exclusive_and_neutral_in_warmup_witness :
  ∃ df, analyze rising = Some df ∧
    at_ df "bull_regime" 78 = Some (CBool false) ∧
    at_ df "bear_regime" 78 = Some (CBool false).
Proof.
  destruct (regimes_exclusive_and_neutral_in_warmup rising 78) as (df & H & _ & Hw).
  exists df. split; [exact H |]. apply Hw; [lia | vm_compute; lia].
Defined.

Lemma spike_filter_open_without_atr_witness :
  Col.no_atr_spike (price high rising) (price low rising) (price close rising) !! 32
    = Some true ∧
  ∃ df, analyze rising = Some df ∧ at_ df "no_atr_spike" 32 = Some (CBool true).
Proof.
  split.
  - apply (proj1 spike_filter_open_without_atr); [vm_compute; lia | vm_compute; reflexivity].
  - apply (proj2 spike_filter_open_without_atr rising 32); [lia | vm_compute; lia].
Defined.

Lemma range_position_in_unit_interval_witness :
  ∃ r, Col.range_position (price high steady) (price low steady) (price close steady) !! 47
         = Some (Some r) ∧ (0 <= r)%Q ∧ (r <= 1)%Q.
Proof.
  destruct (range_position_in_unit_interval steady 47 (mkCandle 0 2 3 1 2 1))
    as (r & rh & rl & Hr & _ & _ & H0 & H1 & _).
  - lia.
  - reflexivity.
  - apply Forall_forall. intros c Hc. unfold steady, trailing in Hc.
    apply elem_of_take in Hc as (k & Hk & _). rewrite lookup_drop in Hk.
    apply lookup_replicate in Hk as [-> _]. split; unfold Qle; simpl; lia.
  - exists r. split; [exact Hr |]. split; [exact H0 | exact H1].
Defined.

Lemma atr_is_never_negative_witness :
  ∃ df, analyze rising = Some df ∧
    (∃ a, at_ df "atr" 79 = Some (CFloat (Some a)) ∧ (0 <= a)%Q) ∧
    (∃ a, at_ df "atr_avg" 79 = Some (CFloat (Some a)) ∧ (0 <= a)%Q).
Proof.
  destruct (atr_is_never_negative rising 79) as (df & H & Ha & Hv).
  - vm_compute; lia.
  - exists df. split; [exact H |]. split; [apply Ha; lia | apply Hv; lia].
Defined.

Lemma indicators_start_at_fixed_rows_witness :
  ∃ df, analyze rising = Some df ∧
    has_value df "ema_fast" 39 ∧ ¬ has_value df "ema_fast" 38 ∧
    has_value df "atr_avg" 63 ∧ ¬ has_value df "atr_avg" 62.
Proof.
  destruct (indicators_start_at_fixed_rows rising 39 ltac:(vm_compute; lia))
    as (df & H & _ & _ & _ & Hf & _).
  destruct (indicators_start_at_fixed_rows rising 38 ltac:(vm_compute; lia))
    as (df1 & H1 & _ & _ & _ & Hf1 & _).
  destruct (indicators_start_at_fixed_rows rising 63 ltac:(vm_compute; lia))
    as (df2 & H2 & _ & _ & _ & _ & _ & _ & _ & Ha2 & _).
  destruct (indicators_start_at_fixed_rows rising 62 ltac:(vm_compute; lia))
    as (df3 & H3 & _ & _ & _ & _ & _ & _ & _ & Ha3 & _).
  rewrite H in H1, H2, H3. injection H1 as <-. injection H2 as <-. injection H3 as <-.
  exists df. split; [exact H |].
  split; [apply Hf; lia |]. split; [intros Hc; apply Hf1 in Hc; lia |].
  split; [apply Ha2; lia | intros Hc; apply Ha3 in Hc; lia].
Defined.
